(* ===== verification/_CoqProject ===== *)
-Q . S2P
Prelude.v
CString.v
Io.v
Watcher.v
Json.v
ResponseBuffer.v
Uploader.v
Clipboard.v
Cli.v
Resources.v
MainLoop.v
Lifetime.v
