(* ===== verification/Prelude.v ===== *)
(** * spectacle-autoimgur: a verification development of [src/main.c]

    The program watches a screenshot directory, uploads every new image
    file to the image host over HTTPS, and copies the link it gets back to
    the Wayland clipboard, for ever.  [src/main.c] has five parts, each
    modelled in a file of its own, composed as the code composes them:

    - DirectoryWatcher, [watch_directory] (lines 167-213): [Watcher.v].
      [Module Inotify] decodes the read buffer byte by byte (16-byte
      little-endian [struct inotify_event] headers, the C [int] offset [i]
      with its [size_t] to [int] conversion) in the fueled [scan], with the
      three guards, the extension test [is_image_ext] and the path join
      [join_path] ([snprintf] into [PATH_MAX]).  [Module WatchDir] is the
      whole function, [watch_directory], over an environment [watch_env]
      that gives the outcomes of [inotify_init], [inotify_add_watch] and
      each [read].  The kernel's side (how a batch of events is laid out)
      is a separate reference definition, [batch_bytes].
    - ResponseParser, [extract_link_from_response] (lines 27-45):
      [Json.v], [Module CJson], over a model of the cJSON library the
      program links ([cJSON_Parse], [cJSON_GetObjectItemCaseSensitive],
      [cJSON_IsString]) and its inverse, the printer [render].
    - ResponseBuffer, [struct memory_struct] and the libcurl write callback
      [get_response] (lines 22-25, 65-81): [ResponseBuffer.v], [Module
      RespBuf].  The heap block is a list of cells ([None] for a byte never
      written); [realloc] failure, [size_t] wrap-around and writes outside
      the block are modelled; [deliver] is libcurl calling the callback.
    - ImageUploader, [file_exists], [upload_image], [get_image_name]
      (lines 61-63, 83-165): [Uploader.v], [Module Upload].  The request
      the code builds is a record ([upload_request]); the network is an
      oracle [server] in [upload_env], which also holds the outcomes of
      [access], [strdup], [curl_easy_init], [malloc] and [realloc].
    - ClipboardWriter, [copy_string_to_clipboard] (lines 47-59):
      [Clipboard.v], with the OS clipboard as the state [wl-copy] changes.
    - [main]: argument handling (lines 215-246) in [Cli.v], [Module Cli];
      the [while (1)] loop (lines 248-268) in [MainLoop.v], [Module
      MainLoop], as a labelled step function [step] over a [config]
      (phase of the iteration, the environments of the iterations to come,
      the OS clipboard), its runs [reach], and the runner [run].  The loop
      is written against the class [Capabilities] (the three calls it
      makes); the instance [code_caps] plugs in [watch_directory],
      [upload_image] and [copy_string_to_clipboard], and [main] composes
      argument handling, [curl_global_init] and the loop.
    - The process's resources: [Resources.v], [Module Res], gives each
      function a ledger of the [Acquire] and [Release] operations its code
      makes along the path its model takes ([upload_image_ops]: the path
      copy and display name of [get_image_name], the easy handle, the
      response block, the header list, the MIME body, the parsed tree and
      the link; [watch_directory_ops]: the inotify descriptor and watch;
      [copy_string_to_clipboard_ops]: the pipe).  [exec] runs a ledger on
      the multiset of live resources and fails on a release of a resource
      that is not live.  [Lifetime.v], [Module Lifetime], follows the loop
      step for step ([step_ops], [run_ops], with the [free(link)] of line
      267) and [main] ([main_ops], with [curl_global_init]).

    Every model returns, next to its result, the trace of its effects as a
    [list Io.event] ([Io.v]): prints with their format and arguments,
    [perror], [exit], system calls, the HTTP request, the pipe to
    [wl-copy], [sleep].  Undefined behaviour is a result constructor of its
    own ([WatchUndefined], [CbUndefined], [UploadUndefined],
    [StartUndefined], the phase [Undefined]), never a silent value.  The C
    library functions the code calls ([strrchr], [strcmp], [snprintf],
    [strtok_r]) are modelled in [CString.v] from their contracts.  This
    file holds the byte-string notation [bytes:("...")] (scope
    [cstr_scope]), the hint databases [autoimgur] and [autoimgur_rw], the
    fixed-width wrap-around [wrap], and list lemmas the files share.

    The theorems, by group (claim numbers in the doc comments):
    - the loop: started from the command line, [main] carries a
      screenshot's link from the kernel event to the clipboard with one
      request and one pipe write (C1); every run refines the spec's
      watch/debounce/upload/publish state machine [sstep] (C2); the
      clipboard is written only right after a successful upload, with its
      link (C3, C13), and only ever holds a link an upload returned (C34,
      by rule induction on runs); the loop runs any number of iterations
      (C22) and a run stops only when the iterations are used up, right
      after the watcher exited or blocked, or on undefined behaviour (C23);
    - the watcher returns the first qualifying creation of the batches,
      examining every event (C4), ignores the others (C18), is fatal on
      setup or read failure (C19), drops a second qualifying event of the
      same batch (C12); the extension test (C20); its inner loop ends on
      every buffer whose [len] fields keep the [int] offset from wrapping
      (C35) and loops for ever on a non-qualifying header whose [len]
      brings the offset back to itself (C36);
    - the parser: [{"data":{"link":S}}] yields exactly [S] (C5); missing
      or mistyped fields, truncated bodies, bodies that are
      not JSON and embedded NUL escapes (C16, C17, C33, C28); text after
      the document is ignored (C31);
    - the callback keeps the buffer invariant (C7); the uploader on
      success, missing file, transfer failure, [realloc] failure and an
      empty body (C6, C8, C14, C25, C9), and the display name: the last
      component of the path (C27), which on the watcher's joined path is
      the file name again (C15, a round trip through [join_path] and
      [get_image_name]);
    - the clipboard writer against the spec's contract (C11, C24); the
      command line (C10, C29, C30);
    - the resources: [upload_image] gives back everything it takes exactly
      once except the link, the header list and the display name (C32);
      every run of [main] releases nothing twice and, between two steps,
      holds only libcurl's global state, display names and header lists,
      and the link while it is copied (C21, an invariant proved step by
      step, [step_ops_exec], and over runs by induction, [run_ops_exec]);
      the header lists live are as many as the HTTP requests made (C26).

    Fuel and bounds.  [scan] gets one step per byte of the batch
    ([S (length buf)]); every event of a kernel batch is at least 16 bytes,
    so this is enough ([scan_kernel_batch]); more generally one step per
    byte suffices whenever no [len] makes the [int] offset wrap (C35).  [cJSON_Parse] gets
    [S (length s)] steps and [unescape] one per byte of the string body;
    each step consumes input, and [parse_value_render] shows the fuel
    suffices on every printed document.  [get_image_name]'s loop gets one
    step per byte of the path ([last_token_tokens]).  [size_t] is 64 bits
    and [int] 32; the invariant of the response buffer holds while the body
    stays below [SIZE_MAX].  The loop's runs are finite prefixes ([reach],
    [run n]) of the non-terminating loop, one environment per iteration.

    Every function and statement of [src/main.c] is modelled; the lines no
    definition translates are the [#include]s and the prototypes (lines
    1-20).  Not modelled: the contents of the network exchange (TLS, redirects,
    the 30 s timeout are fields of the request record; the answers come
    from the oracle), the addresses and sizes of the resources (the
    ledgers count them by kind, which is what the leak and double-release
    properties need), allocation failures inside cJSON and of the [strdup]
    of line 41 (the parser model has none), signals, and the wall-clock
    meaning of [sleep(1)] (an event of the trace).  The kernel, libcurl, cJSON and [wl-copy] are environments or
    models of their documented behaviour, not code of the repository. *)

From Stdlib Require Import String.
From Stdlib Require Import List ZArith Lia Bool.
From coqutil Require Import Byte.
Import ListNotations.

(** ** Byte strings

    C strings of the program are modelled as [list byte] holding the
    characters before the terminating NUL; [bytes:("...")] writes such a
    string from a Rocq string literal. *)

Declare Scope cstr_scope.
Delimit Scope cstr_scope with cstr.
Notation "'bytes:(' s )" := (String.list_byte_of_string s%string)
  (at level 0, s at level 0, only parsing) : cstr_scope.
Open Scope cstr_scope.

Create HintDb autoimgur discriminated.
Create Rewrite HintDb autoimgur_rw.

(** ** Bytes *)

Lemma byte_eqb_spec (x y : byte) : reflect (x = y) (Byte.eqb x y).
Proof.
  destruct (Byte.eqb x y) eqn:E; constructor.
  - exact (Byte.byte_dec_bl _ _ E).
  - apply Byte.eqb_false. exact E.
Qed.

Lemma byte_eqb_refl (x : byte) : Byte.eqb x x = true.
Proof. apply Byte.byte_dec_lb. reflexivity. Qed.

Lemma byte_eqb_neq (x y : byte) : x <> y -> Byte.eqb x y = false.
Proof. intros H. destruct (byte_eqb_spec x y); congruence. Qed.

#[export] Hint Rewrite byte_eqb_refl : autoimgur_rw.

(** Boolean equality on byte strings, with its reflection lemma. *)
Fixpoint bytes_eqb (s t : list byte) : bool :=
  match s, t with
  | [], [] => true
  | x :: s', y :: t' => Byte.eqb x y && bytes_eqb s' t'
  | _, _ => false
  end.

Lemma bytes_eqb_spec (s t : list byte) : reflect (s = t) (bytes_eqb s t).
Proof.
  revert t; induction s as [|x s IH]; intros [|y t]; simpl;
    try (constructor; congruence).
  destruct (byte_eqb_spec x y) as [->|Hne]; simpl.
  - destruct (IH t); constructor; congruence.
  - constructor; congruence.
Qed.

Lemma bytes_eqb_refl (s : list byte) : bytes_eqb s s = true.
Proof. destruct (bytes_eqb_spec s s); congruence. Qed.

#[export] Hint Rewrite bytes_eqb_refl : autoimgur_rw.

(** ** Fixed-width unsigned integers

    [size_t] is 64 bits wide on the platform the program targets; an
    unsigned operation of width [w] reduces its result modulo [2 ^ w]. *)

Local Open Scope Z_scope.

Definition wrap (w : Z) (z : Z) : Z := z mod 2 ^ w.

Definition size_t_bits : Z := 64.

Lemma wrap_small (w z : Z) : 0 <= z < 2 ^ w -> wrap w z = z.
Proof. unfold wrap. apply Z.mod_small. Qed.

Lemma wrap_range (w z : Z) : 0 <= w -> 0 <= wrap w z < 2 ^ w.
Proof. intros Hw. unfold wrap. apply Z.mod_pos_bound. apply Z.pow_pos_nonneg; lia. Qed.

Local Close Scope Z_scope.

(** ** Lists *)

Lemma firstn_app_exact {A} (l r : list A) : firstn (length l) (l ++ r) = l.
Proof. rewrite firstn_app, Nat.sub_diag, firstn_all. simpl. apply app_nil_r. Qed.

Lemma skipn_app_exact {A} (l r : list A) : skipn (length l) (l ++ r) = r.
Proof. rewrite skipn_app, Nat.sub_diag, skipn_all. reflexivity. Qed.

Lemma firstn_app_len {A} (n : nat) (l r : list A) : length l = n -> firstn n (l ++ r) = l.
Proof. intros <-. apply firstn_app_exact. Qed.

Lemma skipn_app_len {A} (n : nat) (l r : list A) : length l = n -> skipn n (l ++ r) = r.
Proof. intros <-. apply skipn_app_exact. Qed.

Lemma firstn_repeat_le {A} (x : A) (k n : nat) : k <= n -> firstn k (repeat x n) = repeat x k.
Proof.
  revert n; induction k as [|k IH]; intros [|n] H; simpl; try reflexivity; [lia|].
  rewrite IH by lia. reflexivity.
Qed.

(** A non-empty list split before its last element. *)
Lemma cons_repeat_snoc {A} (c d : A) (n : nat) :
  exists mid x, c :: repeat d n = mid ++ [x] /\ length mid = n.
Proof.
  revert c; induction n as [|n IH]; intros c.
  - exists [], c. auto.
  - destruct (IH d) as (mid & x & E & L). exists (c :: mid), x. simpl. rewrite E. auto.
Qed.

(** The default of [last] does not matter on a non-empty list. *)
Lemma last_default {A} (l : list A) (d d' : A) : l <> [] -> last l d = last l d'.
Proof.
  intros H. induction l as [|x [|y l] IH]; [congruence|reflexivity|].
  simpl. simpl in IH. apply IH. discriminate.
Qed.

Lemma flat_map_repeat_nil {A B} (f : A -> list B) (x : A) (k : nat) :
  f x = [] -> flat_map f (repeat x k) = [].
Proof. intros H. induction k as [|k IH]; [reflexivity|]. simpl. rewrite H, IH. reflexivity. Qed.

(** Where an element of a list extended at its end lies. *)
Lemma snoc_eq_app_cons {A} (ls pre post : list A) (l x : A) :
  ls ++ [l] = pre ++ x :: post ->
  (post = [] /\ ls = pre /\ l = x) \/ (exists post', post = post' ++ [l] /\ ls = pre ++ x :: post').
Proof.
  destruct post as [|y post'] using rev_ind; intros H.
  - left. apply app_inj_tail in H as [-> ->]. auto.
  - right. rewrite app_comm_cons, app_assoc in H. apply app_inj_tail in H as [-> ->].
    exists post'. auto.
Qed.

#[export] Hint Rewrite @firstn_app_exact @skipn_app_exact : autoimgur_rw.

(** ** Tactics *)

(** [inv H]: invert [H], substitute and clear it. *)
Ltac inv H := inversion H; subst; clear H.

(** [case_bytes_eqb]: case on the first [bytes_eqb] or [Byte.eqb] test of the
    goal, turning it into an equation or a disequation. *)
Ltac case_bytes_eqb :=
  match goal with
  | |- context [bytes_eqb ?s ?t] => destruct (bytes_eqb_spec s t); subst
  | |- context [Byte.eqb ?x ?y] => destruct (byte_eqb_spec x y); subst
  end.

Example bytes_notation_png : bytes:(".png") = [Byte.x2e; Byte.x70; Byte.x6e; Byte.x67].
Proof. reflexivity. Qed.
