(* ===== verification/CString.v ===== *)
(** * CString: the C library string functions the program calls

    [src/main.c] handles file names, paths and the HTTP response body as
    NUL-terminated C strings and calls [strrchr], [strcmp], [strlen],
    [strtok_r], [strdup] and [snprintf] on them.  These functions are not
    part of the repository; they are modelled here from their C standard
    (glibc) contracts, on the byte strings of [Prelude]: a C string is the
    [list byte] of its characters before the terminating NUL.  A buffer that
    holds no NUL in its allocated bytes is not a C string; [read_cstring]
    returns [None] for it, which is how the development records a read past
    the end of an allocation. *)

From S2P Require Import Prelude.
From Stdlib Require Import String List ZArith Lia Bool.
From coqutil Require Import Byte.
Import ListNotations.

Module CStr.

(** A C string holds no NUL byte. *)
Definition nul_free (s : list byte) : bool :=
  forallb (fun b => negb (Byte.eqb b Byte.x00)) s.

(** The C string stored at the start of a buffer: the bytes before the first
    NUL, or [None] when the buffer holds no NUL (the read runs off the end). *)
Fixpoint read_cstring (mem : list byte) : option (list byte) :=
  match mem with
  | [] => None
  | b :: r => if Byte.eqb b Byte.x00 then Some [] else option_map (cons b) (read_cstring r)
  end.

(** A [char] array read as a C string: the bytes before its first NUL. *)
Fixpoint c_prefix (s : list byte) : list byte :=
  match s with
  | [] => []
  | b :: r => if Byte.eqb b Byte.x00 then [] else b :: c_prefix r
  end.

(** [strrchr(s, c)]: the suffix of [s] that starts at the last occurrence of
    [c], or [None] (NULL) when [c] does not occur. *)
Fixpoint strrchr (s : list byte) (c : byte) : option (list byte) :=
  match s with
  | [] => None
  | x :: t =>
      match strrchr t c with
      | Some r => Some r
      | None => if Byte.eqb x c then Some s else None
      end
  end.

(** [strcmp(s, t)] on two C strings: compares the bytes as unsigned chars up
    to the first difference or the common terminator. *)
Fixpoint strcmp (s t : list byte) : Z :=
  match s, t with
  | [], [] => 0
  | [], y :: _ => - byte.unsigned y
  | x :: _, [] => byte.unsigned x
  | x :: s', y :: t' =>
      if negb (Byte.eqb x y) then byte.unsigned x - byte.unsigned y
      else if Byte.eqb x Byte.x00 then 0
      else strcmp s' t'
  end.

(** [snprintf(buf, n, ...)] with a formatted output [out]: the buffer holds
    the first [n - 1] bytes of [out] followed by a NUL. *)
Definition snprintf (n : nat) (out : list byte) : list byte := firstn (n - 1) out.

(** [strtok_r]: one call with the delimiter set [delims] on the remaining
    input [s] (the [saveptr] state).  It skips leading delimiters, returns
    NULL when only delimiters are left, and otherwise returns the token and
    the input after the delimiter that ended it (glibc's [strspn]/[strcspn]
    implementation). *)
Definition is_delim (delims : list byte) (b : byte) : bool :=
  existsb (Byte.eqb b) delims.

Fixpoint skip_delims (delims s : list byte) : list byte :=
  match s with
  | [] => []
  | b :: r => if is_delim delims b then skip_delims delims r else s
  end.

Fixpoint span_token (delims s : list byte) : list byte * list byte :=
  match s with
  | [] => ([], [])
  | b :: r =>
      if is_delim delims b then ([], r)
      else let '(t, rest) := span_token delims r in (b :: t, rest)
  end.

Definition strtok_r (delims s : list byte) : option (list byte * list byte) :=
  match skip_delims delims s with
  | [] => None
  | s' => Some (span_token delims s')
  end.

(** Reference split: the maximal runs of non-delimiter bytes of [s], in
    order, empty runs dropped. *)
Fixpoint split_on (delims s : list byte) : list (list byte) :=
  match s with
  | [] => [[]]
  | b :: r =>
      if is_delim delims b then [] :: split_on delims r
      else match split_on delims r with
           | [] => [[b]]
           | t :: ts => (b :: t) :: ts
           end
  end.

Definition tokens (delims s : list byte) : list (list byte) :=
  filter (fun t => match t with [] => false | _ => true end) (split_on delims s).

(** ** Lemmas *)

Lemma nul_free_app (s t : list byte) :
  nul_free (s ++ t) = nul_free s && nul_free t.
Proof. apply forallb_app. Qed.

Lemma c_prefix_nul_free (s : list byte) : nul_free s = true -> c_prefix s = s.
Proof.
  induction s as [|b s IH]; simpl; [reflexivity|]. intros H.
  apply andb_prop in H as [Hb Hs]. destruct (byte_eqb_spec b Byte.x00); [discriminate|].
  rewrite IH by exact Hs. reflexivity.
Qed.

Lemma c_prefix_app_nul (p q : list byte) :
  nul_free p = true -> c_prefix (p ++ Byte.x00 :: q) = p.
Proof.
  induction p as [|b p IH]; simpl; intros H; [reflexivity|].
  apply andb_prop in H as [Hb Hp]. destruct (byte_eqb_spec b Byte.x00); [discriminate|].
  rewrite IH by exact Hp. reflexivity.
Qed.

Lemma nul_free_c_prefix (s : list byte) : nul_free (c_prefix s) = true.
Proof.
  induction s as [|b s IH]; simpl; [reflexivity|].
  destruct (byte_eqb_spec b Byte.x00); simpl; [reflexivity|].
  rewrite byte_eqb_neq by assumption. exact IH.
Qed.

Lemma read_cstring_app (s r : list byte) :
  nul_free s = true -> read_cstring (s ++ Byte.x00 :: r) = Some s.
Proof.
  induction s as [|b s IH]; simpl; intros H.
  - reflexivity.
  - apply andb_prop in H as [Hb Hs].
    destruct (byte_eqb_spec b Byte.x00); [discriminate|].
    rewrite IH by exact Hs. reflexivity.
Qed.

Lemma read_cstring_nul_free (mem s : list byte) :
  read_cstring mem = Some s -> nul_free s = true.
Proof.
  revert s; induction mem as [|b mem IH]; simpl; intros s H; [discriminate|].
  destruct (byte_eqb_spec b Byte.x00).
  - inv H. reflexivity.
  - destruct (read_cstring mem) as [t|] eqn:E; simpl in H; inv H.
    simpl. rewrite byte_eqb_neq by assumption. simpl. apply IH. reflexivity.
Qed.

Lemma read_cstring_prefix (mem s : list byte) :
  read_cstring mem = Some s -> exists r, mem = s ++ Byte.x00 :: r.
Proof.
  revert s; induction mem as [|b mem IH]; simpl; intros s H; [discriminate|].
  destruct (byte_eqb_spec b Byte.x00).
  - inv H. exists mem. reflexivity.
  - destruct (read_cstring mem) as [t|] eqn:E; simpl in H; inv H.
    destruct (IH t eq_refl) as [r ->]. exists r. reflexivity.
Qed.

Lemma read_cstring_no_nul (mem : list byte) :
  read_cstring mem = None <-> ~ In Byte.x00 mem.
Proof.
  induction mem as [|b mem IH]; simpl; [tauto|].
  destruct (byte_eqb_spec b Byte.x00) as [->|Hb].
  - split; [discriminate | tauto].
  - destruct (read_cstring mem) eqn:E; simpl.
    + split; [discriminate|]. intros H. exfalso. apply H. right.
      destruct (in_dec Byte.byte_eq_dec Byte.x00 mem) as [Hin|Hin]; [exact Hin|].
      apply IH in Hin. discriminate.
    + split; [|reflexivity]. intros _ [E'|E']; [congruence|].
      exact (proj1 IH eq_refl E').
Qed.

Lemma strrchr_none (s : list byte) (c : byte) :
  strrchr s c = None <-> ~ In c s.
Proof.
  induction s as [|x s IH]; simpl; [tauto|].
  destruct (strrchr s c) as [r|] eqn:E.
  - split; [discriminate|]. intros H. exfalso. apply H. right.
    destruct (in_dec Byte.byte_eq_dec c s) as [Hin|Hin]; [exact Hin|].
    apply IH in Hin. discriminate.
  - destruct (byte_eqb_spec x c) as [->|Hne].
    + split; [discriminate|]. intros H. exfalso. apply H. left. reflexivity.
    + split; [|reflexivity]. intros _ [E'|E']; [congruence|].
      exact (proj1 IH eq_refl E').
Qed.

(** [strrchr] returns the suffix that starts at the last occurrence. *)
Lemma strrchr_some (s r : list byte) (c : byte) :
  strrchr s c = Some r ->
  exists p t, s = p ++ c :: t /\ r = c :: t /\ ~ In c t.
Proof.
  revert r; induction s as [|x s IH]; simpl; intros r H; [discriminate|].
  destruct (strrchr s c) as [r'|] eqn:E.
  - inv H. destruct (IH r eq_refl) as (p & t & -> & -> & Hn).
    exists (x :: p), t. auto.
  - destruct (byte_eqb_spec x c) as [->|]; [|discriminate]. inv H.
    exists [], s. repeat split. apply strrchr_none. exact E.
Qed.

Lemma strrchr_app_last (p t : list byte) (c : byte) :
  ~ In c t -> strrchr (p ++ c :: t) c = Some (c :: t).
Proof.
  intros Hn. induction p as [|x p IH]; simpl.
  - apply strrchr_none in Hn. rewrite Hn. rewrite byte_eqb_refl. reflexivity.
  - rewrite IH. reflexivity.
Qed.

(** On C strings, [strcmp] returns 0 exactly on equal strings. *)
Lemma strcmp_eq_0 (s t : list byte) :
  nul_free s = true -> nul_free t = true -> (strcmp s t = 0%Z <-> s = t).
Proof.
  revert t; induction s as [|x s IH]; intros [|y t] Hs Ht; simpl in *.
  - tauto.
  - apply andb_prop in Ht as [Hy _].
    destruct (byte_eqb_spec y Byte.x00) as [->|Hy']; [discriminate|].
    split; [|discriminate]. intros H. exfalso. apply Hy'.
    apply byte.unsigned_inj. change (byte.unsigned Byte.x00) with 0%Z. lia.
  - apply andb_prop in Hs as [Hx _].
    destruct (byte_eqb_spec x Byte.x00) as [->|Hx']; [discriminate|].
    split; [|discriminate]. intros H. exfalso. apply Hx'.
    apply byte.unsigned_inj. change (byte.unsigned Byte.x00) with 0%Z. exact H.
  - apply andb_prop in Hs as [Hx Hs]; apply andb_prop in Ht as [_ Ht].
    destruct (byte_eqb_spec x y) as [->|Hne]; simpl.
    + destruct (byte_eqb_spec y Byte.x00) as [->|_]; [discriminate|].
      rewrite IH by assumption. split; [intros ->|intros H; inv H]; reflexivity.
    + split; [|intros H; inv H; congruence].
      intros H. exfalso. apply Hne. apply byte.unsigned_inj. lia.
Qed.

Lemma snprintf_fits (n : nat) (out : list byte) :
  length out < n -> snprintf n out = out.
Proof. intros H. unfold snprintf. apply firstn_all2. lia. Qed.

Lemma snprintf_length (n : nat) (out : list byte) :
  length (snprintf n out) = Nat.min (n - 1) (length out).
Proof. unfold snprintf. apply length_firstn. Qed.

Lemma split_on_not_nil (delims s : list byte) : split_on delims s <> [].
Proof.
  induction s as [|b s IH]; simpl; [discriminate|].
  destruct (is_delim delims b); [discriminate|].
  destruct (split_on delims s); discriminate.
Qed.

Lemma tokens_skip_delims (delims s : list byte) :
  tokens delims (skip_delims delims s) = tokens delims s.
Proof.
  induction s as [|b s IH]; simpl; [reflexivity|].
  destruct (is_delim delims b) eqn:E; [|reflexivity].
  rewrite IH. unfold tokens. simpl. rewrite E. reflexivity.
Qed.

Lemma tokens_span (delims s : list byte) (b : byte) :
  is_delim delims b = false ->
  tokens delims (b :: s) =
  fst (span_token delims (b :: s)) :: tokens delims (snd (span_token delims (b :: s))).
Proof.
  revert b; induction s as [|c s IH]; intros b Hb; unfold tokens in *; simpl in *; rewrite Hb.
  - reflexivity.
  - destruct (is_delim delims c) eqn:Ec; simpl.
    + reflexivity.
    + specialize (IH c Ec). simpl in IH. rewrite Ec in IH.
      destruct (split_on delims s) as [|t ts]; simpl in *.
      * destruct (span_token delims s). simpl in *. inv IH. reflexivity.
      * destruct (span_token delims s) as [tk rest]. simpl in *. inv IH. reflexivity.
Qed.

(** One [strtok_r] call peels the first token of the reference split. *)
Lemma strtok_r_tokens (delims s : list byte) :
  match strtok_r delims s with
  | None => tokens delims s = []
  | Some (t, rest) => tokens delims s = t :: tokens delims rest /\ t <> []
  end.
Proof.
  unfold strtok_r. rewrite <- (tokens_skip_delims delims s).
  assert (Hsk : forall s', skip_delims delims s' = [] \/
                  exists b r, skip_delims delims s' = b :: r /\ is_delim delims b = false).
  { induction s' as [|c s' IH]; simpl; [left; reflexivity|].
    destruct (is_delim delims c) eqn:E; [exact IH|right; eauto]. }
  destruct (Hsk s) as [-> | (b & r & -> & Hb)].
  - reflexivity.
  - rewrite (tokens_span delims r b Hb). simpl. rewrite Hb.
    destruct (span_token delims r) as [tk rest]. simpl. split; [reflexivity|discriminate].
Qed.

Lemma strtok_r_shorter (delims s t rest : list byte) :
  strtok_r delims s = Some (t, rest) -> length rest < length s.
Proof.
  unfold strtok_r. intros H.
  assert (Hsk : forall s', length (skip_delims delims s') <= length s').
  { induction s' as [|c s' IH]; simpl; [lia|]. destruct (is_delim delims c); simpl; lia. }
  assert (Hsp_gen : forall s', length (snd (span_token delims s')) <= length s').
  { induction s' as [|c s' IH]; simpl; [lia|].
    destruct (is_delim delims c); [simpl; lia|].
    destruct (span_token delims s'); simpl in *; lia. }
  specialize (Hsk s).
  destruct (skip_delims delims s) as [|b r] eqn:E; [discriminate|].
  injection H as H.
  assert (length rest <= length r).
  { simpl in H. destruct (is_delim delims b).
    - inv H. lia.
    - specialize (Hsp_gen r). destruct (span_token delims r) as [tk rs].
      inv H. simpl in Hsp_gen. lia. }
  simpl in Hsk. lia.
Qed.

(** A string without delimiters is one run. *)
Lemma split_on_no_delim (delims name : list byte) :
  forallb (fun b => negb (is_delim delims b)) name = true -> split_on delims name = [name].
Proof.
  induction name as [|b name IH]; intros H; [reflexivity|].
  cbn [forallb] in H. apply andb_prop in H as [Hb H]. apply negb_true_iff in Hb.
  cbn [split_on]. rewrite Hb, (IH H). reflexivity.
Qed.

(** The last token of a string that ends with a delimiter and a run
    without delimiters is that run. *)
Lemma tokens_last_after_delim (delims pre name : list byte) (d : byte) :
  is_delim delims d = true -> name <> [] ->
  forallb (fun b => negb (is_delim delims b)) name = true ->
  exists ts, tokens delims (pre ++ d :: name) = ts ++ [name].
Proof.
  intros Hd Hne Hn.
  assert (S : exists t ts, split_on delims (pre ++ d :: name) = t :: ts ++ [name]).
  { induction pre as [|b pre IH].
    - exists [], []. cbn [app split_on]. rewrite Hd, (split_on_no_delim _ _ Hn). reflexivity.
    - destruct IH as (t & ts & E). cbn [app split_on]. rewrite E.
      destruct (is_delim delims b); [exists [], (t :: ts) | exists (b :: t), ts]; reflexivity. }
  destruct S as (t & ts & E). unfold tokens. rewrite E, app_comm_cons, filter_app.
  exists (filter (fun t => match t with [] => false | _ => true end) (t :: ts)).
  destruct name; [congruence|reflexivity].
Qed.

End CStr.
