(* ===== verification/Io.v ===== *)
(** * Io: the program's interactions with its environment

    Every component of [src/main.c] talks to the operating system: it prints
    to standard output or standard error, exits, makes inotify system calls,
    checks a file with [access], runs an HTTP transfer through libcurl,
    starts [wl-copy] with [popen], and sleeps.  The models return, next to
    their result, the trace of these calls in the order the code makes them,
    as a [list Io.event].  A [printf]-family call is recorded with its
    format string and its arguments, as the code writes them; [perror(s)]
    is recorded as such, its [strerror] text being outside the model.

    The HTTP request is recorded as the options the code sets on the curl
    handle ([http_request]), which is also what the transport model of
    [Uploader] receives. *)

From S2P Require Import Prelude.
From Stdlib Require Import String List ZArith.
From coqutil Require Import Byte.
Import ListNotations.

Module Io.

Inductive stream := Stdout | Stderr.

(** An argument of a [printf]-family call. *)
Inductive fmt_arg :=
| ArgStr (s : list byte)
| ArgInt (z : Z).

(** The data of one part of a [curl_mime] body. *)
Inductive mime_data :=
| MimeFile (path : list byte)     (** [curl_mime_filedata] *)
| MimeBytes (data : list byte)    (** [curl_mime_data] *)
| MimeEmpty.                      (** a part with no data set *)

Record mime_part := mk_part {
  part_name : option (list byte);  (** [curl_mime_name], [None] if not set *)
  part_data : mime_data
}.

(** The options of the easy handle when [curl_easy_perform] runs. *)
Record http_request := mk_request {
  req_custom_request : list byte;   (** [CURLOPT_CUSTOMREQUEST] *)
  req_url : list byte;              (** [CURLOPT_URL] *)
  req_follow_location : Z;          (** [CURLOPT_FOLLOWLOCATION] *)
  req_default_protocol : list byte; (** [CURLOPT_DEFAULT_PROTOCOL] *)
  req_headers : list (list byte);   (** [CURLOPT_HTTPHEADER] *)
  req_mime : list mime_part;        (** [CURLOPT_MIMEPOST] *)
  req_timeout : Z                   (** [CURLOPT_TIMEOUT], seconds *)
}.

Inductive event :=
| Printf (s : stream) (fmt : list byte) (args : list fmt_arg)
| Perror (s : list byte)
| Exit (status : Z)
| InotifyInit
| InotifyAddWatch (path : list byte) (mask : Z)
| InotifyRead
| InotifyRmWatch
| Close
| Access (path : list byte)
| HttpPerform (req : http_request)
| Popen (cmd : list byte)
| PipeWrite (data : list byte)
| Pclose
| Sleep (seconds : Z)
| Stat (path : list byte)
| Getenv (name : list byte)
| CurlGlobalInit.

(** A format string that ends with a newline ([\n] in the source). *)
Definition line (fmt : list byte) : list byte := fmt ++ [Byte.x0a].

(** [EXIT_FAILURE] of [<stdlib.h>]. *)
Definition EXIT_FAILURE : Z := 1.

(** The HTTP transfers of a trace, in order. *)
Definition http_requests (t : list event) : list http_request :=
  flat_map (fun e => match e with HttpPerform r => [r] | _ => [] end) t.

(** The data written to clipboard pipes in a trace, in order. *)
Definition pipe_writes (t : list event) : list (list byte) :=
  flat_map (fun e => match e with PipeWrite d => [d] | _ => [] end) t.

Lemma http_requests_app (t u : list event) :
  http_requests (t ++ u) = http_requests t ++ http_requests u.
Proof. apply flat_map_app. Qed.

Lemma pipe_writes_app (t u : list event) :
  pipe_writes (t ++ u) = pipe_writes t ++ pipe_writes u.
Proof. apply flat_map_app. Qed.

End Io.

#[export] Hint Rewrite Io.http_requests_app Io.pipe_writes_app : autoimgur_rw.
