(* ===== verification/Watcher.v ===== *)
(** * Watcher: [watch_directory] ([src/main.c], lines 167-213)

    The DirectoryWatcher of the program.  [watch_directory(path,
    new_file_path)] creates an inotify instance, watches [path] for
    [IN_CREATE], and reads batches of events into a byte buffer of
    [EVENT_BUF_LEN] bytes.  Each batch is walked event by event at byte
    offset [i] ([struct inotify_event] is a 16-byte header followed by
    [len] bytes of NUL-padded name); the first event that is a creation, not
    of a directory, and whose name ends in [.png], [.jpg] or [.jpeg] ends the
    call: the path is joined into [new_file_path], the watch is removed and
    the descriptor closed.

    The buffer is modelled as the [list byte] that [read] returned; the
    header fields are decoded little-endian with coqutil's [le_combine] and
    the kernel side (how the kernel lays out a batch) with [le_split].  The
    offset [i] is the C [int] it is in the code: [i += EVENT_SIZE +
    event->len] is computed in [size_t] and converted back to [int].  The
    inner loop is a [Fixpoint] with fuel; the theorems show that the fuel
    of one step per event is enough on every batch the kernel writes. *)

From S2P Require Import Prelude CString Io.
From Stdlib Require Import String List ZArith Lia Bool.
From coqutil Require Import Byte Word.LittleEndianList.
Import ListNotations.

Module Inotify.

Local Open Scope Z_scope.

(** ** Constants of [<sys/inotify.h>] and [<limits.h>] and the macros of
    lines 11-12. *)
Definition IN_CREATE : Z := 256.          (* 0x00000100 *)
Definition IN_ISDIR : Z := 1073741824.    (* 0x40000000 *)
Definition EVENT_SIZE : Z := 16.          (* sizeof(struct inotify_event) *)
Definition EVENT_BUF_LEN : Z := 1024 * (EVENT_SIZE + 16).
Definition PATH_MAX : nat := 4096.

(** Conversion of a [size_t] value to [int] (two's complement, as GCC
    defines it). *)
Definition int_of_size (z : Z) : Z :=
  let w := wrap 32 z in if w <? 2 ^ 31 then w else w - 2 ^ 32.

(** ** Decoding one event of the buffer, line 191

    [(struct inotify_event * )&buffer[i]]: the 16-byte header at offset [i]
    read as four little-endian 32-bit fields [wd], [mask], [cookie],
    [len].  An offset outside the bytes [read] returned reads stale or
    uninitialised memory; the model returns [None] there. *)
Definition event_header (buf : list byte) (i : Z) : option (Z * Z) :=
  if i <? 0 then None
  else
    let hdr := firstn 16 (skipn (Z.to_nat i) buf) in
    if (List.length hdr <? 16)%nat then None
    else Some (le_combine (firstn 4 (skipn 4 hdr)), le_combine (skipn 12 hdr)).

(** [event->name] used as a C string: the bytes from offset [i + 16] up to
    the first NUL. *)
Definition event_name (buf : list byte) (i : Z) : option (list byte) :=
  CStr.read_cstring (skipn (Z.to_nat i + 16) buf).

(** Lines 195-196: the extension test.  [strrchr(event->name, '.')] and an
    exact [strcmp] against the three extensions. *)
Definition is_image_ext (name : list byte) : bool :=
  match CStr.strrchr name Byte.x2e with
  | None => false
  | Some ext =>
      (CStr.strcmp ext bytes:(".png") =? 0)
      || (CStr.strcmp ext bytes:(".jpg") =? 0)
      || (CStr.strcmp ext bytes:(".jpeg") =? 0)
  end.

(** Lines 197-201: joining the watched directory and the file name into
    [new_file_path] with [snprintf(new_file_path, PATH_MAX, ...)].  The
    code reads [path[strlen(path) - 1]], which for an empty [path] is an
    out-of-bounds read; the model returns [None] there. *)
Definition join_path (path name : list byte) : option (list byte) :=
  match List.rev path with
  | [] => None
  | last :: _ =>
      if Byte.eqb last Byte.x2f then Some (CStr.snprintf PATH_MAX (path ++ name))
      else Some (CStr.snprintf PATH_MAX (path ++ Byte.x2f :: name))
  end.

(** ** The inner loop, lines 190-210 *)

Inductive scan_result :=
| ScanFound (name : list byte)   (** a qualifying event: its name *)
| ScanDone                       (** [i >= length]: read the next batch *)
| ScanFault                      (** a read outside the bytes of the batch *)
| ScanOutOfFuel.                 (** the model's fuel ran out *)

(** One pass of [while (i < length)] over the batch [buf] from offset [i].
    The three nested tests of lines 192-194 guard the name read of line
    195; every event that does not end the call advances [i] by
    [EVENT_SIZE + event->len]. *)
Fixpoint scan (fuel : nat) (buf : list byte) (i : Z) : scan_result :=
  match fuel with
  | O => ScanOutOfFuel
  | S fuel' =>
      if i <? Z.of_nat (List.length buf) then
        match event_header buf i with
        | None => ScanFault
        | Some (mask, len) =>
            let next := int_of_size (wrap 64 (i + EVENT_SIZE + len)) in
            if negb (len =? 0) && negb (Z.land mask IN_CREATE =? 0)
               && (Z.land mask IN_ISDIR =? 0) then
              match event_name buf i with
              | None => ScanFault
              | Some name =>
                  if is_image_ext name then ScanFound name else scan fuel' buf next
              end
            else scan fuel' buf next
        end
      else ScanDone
  end.

(** ** The kernel side: how a batch of events is laid out

    An event as the kernel reports it: the watch descriptor, the event
    mask, the cookie, the file name (empty when the event has none) and the
    length [len] of the NUL-padded name field. *)
Record inotify_event := mk_event {
  ev_wd : Z;
  ev_mask : Z;
  ev_cookie : Z;
  ev_name : list byte;
  ev_len : nat
}.

Definition name_field (e : inotify_event) : list byte :=
  if (ev_len e =? 0)%nat then []
  else ev_name e ++ repeat Byte.x00 (ev_len e - List.length (ev_name e)).

Definition header_bytes (e : inotify_event) : list byte :=
  le_split 4 (ev_wd e) ++ le_split 4 (ev_mask e) ++ le_split 4 (ev_cookie e)
  ++ le_split 4 (Z.of_nat (ev_len e)).

Definition event_bytes (e : inotify_event) : list byte := header_bytes e ++ name_field e.

Definition batch_bytes (es : list inotify_event) : list byte :=
  concat (map event_bytes es).

(** The events the kernel writes: fields fit their 32-bit slots, a name is
    a C string followed by at least one NUL, and an event without a name
    has [len = 0]. *)
Definition wf_event (e : inotify_event) : Prop :=
  0 <= ev_wd e < 2 ^ 32 /\ 0 <= ev_mask e < 2 ^ 32 /\ 0 <= ev_cookie e < 2 ^ 32
  /\ CStr.nul_free (ev_name e) = true
  /\ ((ev_len e = 0%nat /\ ev_name e = []) \/ (List.length (ev_name e) < ev_len e)%nat).

(** The same check as a boolean test, to decide it on concrete events. *)
Definition wf_event_b (e : inotify_event) : bool :=
  (0 <=? ev_wd e) && (ev_wd e <? 2 ^ 32) && (0 <=? ev_mask e) && (ev_mask e <? 2 ^ 32)
  && (0 <=? ev_cookie e) && (ev_cookie e <? 2 ^ 32) && CStr.nul_free (ev_name e)
  && (((ev_len e =? 0)%nat && match ev_name e with [] => true | _ => false end)
      || (List.length (ev_name e) <? ev_len e)%nat).

(** The specification's "qualifying file" (spec 4.1 and the glossary): a
    creation event of a non-directory whose name has one of the three
    extensions. *)
Definition ev_qualifies (e : inotify_event) : bool :=
  negb (ev_len e =? 0)%nat && negb (Z.land (ev_mask e) IN_CREATE =? 0)
  && (Z.land (ev_mask e) IN_ISDIR =? 0) && is_image_ext (ev_name e).

Fixpoint first_qualifying (es : list inotify_event) : option (list byte) :=
  match es with
  | [] => None
  | e :: es' => if ev_qualifies e then Some (ev_name e) else first_qualifying es'
  end.

(** ** Decoding the kernel's layout *)

Lemma wf_event_b_sound (e : inotify_event) : wf_event_b e = true -> wf_event e.
Proof.
  unfold wf_event_b, wf_event. intros H.
  repeat match goal with
  | H : (_ && _) = true |- _ => apply andb_prop in H as [? ?]
  end.
  repeat match goal with
  | H : (_ <=? _) = true |- _ => apply Z.leb_le in H
  | H : (_ <? _) = true |- _ => apply Z.ltb_lt in H
  end.
  repeat split; try assumption.
  match goal with H : (_ || _) = true |- _ => apply orb_prop in H as [Hz|Hl] end.
  - apply andb_prop in Hz as [Hz1 Hz2]. apply Nat.eqb_eq in Hz1.
    left. split; [exact Hz1|]. destruct (ev_name e); [reflexivity|discriminate].
  - right. apply Nat.ltb_lt. exact Hl.
Qed.

Lemma le_combine_split4 (z : Z) : 0 <= z < 2 ^ 32 -> le_combine (le_split 4 z) = z.
Proof. intros H. rewrite le_combine_split. apply Z.mod_small. exact H. Qed.

Lemma length_name_field (e : inotify_event) :
  wf_event e -> List.length (name_field e) = ev_len e.
Proof.
  intros (_ & _ & _ & _ & [[Hl _] | Hlt]); unfold name_field.
  - rewrite Hl. reflexivity.
  - destruct (Nat.eqb_spec (ev_len e) 0); [lia|].
    rewrite length_app, repeat_length. lia.
Qed.

Lemma length_event_bytes (e : inotify_event) :
  wf_event e -> List.length (event_bytes e) = (16 + ev_len e)%nat.
Proof.
  intros He. unfold event_bytes, header_bytes.
  rewrite !length_app, !length_le_split, length_name_field by exact He. lia.
Qed.

(** The header at an event boundary decodes to the event's mask and
    [len]. *)
Lemma event_header_at (buf rest : list byte) (i : Z) (e : inotify_event) :
  wf_event e -> 0 <= i -> Z.of_nat (ev_len e) < 2 ^ 32 ->
  skipn (Z.to_nat i) buf = event_bytes e ++ rest ->
  event_header buf i = Some (ev_mask e, Z.of_nat (ev_len e)).
Proof.
  intros He Hi Hlen Hskip. pose proof He as (Hwd & Hm & Hc & _).
  unfold event_header. rewrite Hskip.
  destruct (Z.ltb_spec i 0); [lia|].
  assert (L : forall z, List.length (le_split 4 z) = 4%nat) by (intros; apply length_le_split).
  unfold event_bytes. rewrite <- app_assoc.
  rewrite (firstn_app_len 16) by (unfold header_bytes; rewrite !length_app, !L; reflexivity).
  unfold header_bytes.
  rewrite (skipn_app_len 4) by apply L. rewrite (firstn_app_len 4) by apply L.
  rewrite !app_assoc. rewrite (skipn_app_len 12) by (rewrite !length_app, !L; reflexivity).
  rewrite !le_combine_split4 by lia. reflexivity.
Qed.

(** The name of an event with a name reads back as the C string. *)
Lemma event_name_at (buf rest : list byte) (i : Z) (e : inotify_event) :
  wf_event e -> 0 <= i -> ev_len e <> 0%nat ->
  skipn (Z.to_nat i) buf = event_bytes e ++ rest ->
  event_name buf i = Some (ev_name e).
Proof.
  intros He Hi Hl Hskip. pose proof He as (_ & _ & _ & Hnf & Hn).
  unfold event_name. rewrite Nat.add_comm, <- skipn_skipn, Hskip.
  unfold event_bytes. rewrite <- app_assoc.
  rewrite (skipn_app_len 16)
    by (unfold header_bytes; rewrite !length_app, !length_le_split; reflexivity).
  unfold name_field. destruct (Nat.eqb_spec (ev_len e) 0); [contradiction|].
  destruct Hn as [[? _]|Hlt]; [contradiction|].
  destruct (ev_len e - List.length (ev_name e))%nat as [|k] eqn:Ek; [lia|].
  simpl. rewrite <- app_assoc. simpl. apply CStr.read_cstring_app. exact Hnf.
Qed.

Lemma int_of_size_small (z : Z) : 0 <= z < 2 ^ 31 -> int_of_size (wrap 64 z) = z.
Proof.
  intros H. unfold int_of_size.
  rewrite (wrap_small 64) by lia. rewrite (wrap_small 32) by lia.
  destruct (Z.ltb_spec z (2 ^ 31)); lia.
Qed.

Lemma skipn_nonempty_lt {A} (n : nat) (l r : list A) (x : A) :
  skipn n l = x :: r -> (n < List.length l)%nat.
Proof.
  intros H. pose proof (length_skipn n l) as L. rewrite H in L. simpl in L. lia.
Qed.

(** One iteration of the inner loop at an event boundary: a qualifying
    event ends the pass with its name, any other event moves [i] to the next
    header. *)
Lemma scan_event (fuel : nat) (buf rest : list byte) (i : Z) (e : inotify_event) :
  wf_event e -> 0 <= i -> i + EVENT_SIZE + Z.of_nat (ev_len e) < 2 ^ 31 ->
  skipn (Z.to_nat i) buf = event_bytes e ++ rest ->
  scan (S fuel) buf i =
  if ev_qualifies e then ScanFound (ev_name e)
  else scan fuel buf (i + EVENT_SIZE + Z.of_nat (ev_len e)).
Proof.
  intros He Hi Hb Hskip. unfold EVENT_SIZE in *.
  assert (Hlt : i < Z.of_nat (List.length buf)).
  { destruct (event_bytes e ++ rest) as [|x r] eqn:E.
    - apply (f_equal (@List.length byte)) in E.
      rewrite length_app, length_event_bytes in E by exact He. simpl in E. lia.
    - apply skipn_nonempty_lt in Hskip. lia. }
  simpl. destruct (Z.ltb_spec i (Z.of_nat (List.length buf))); [|lia].
  rewrite (event_header_at buf rest i e) by (auto; lia).
  rewrite int_of_size_small by (unfold EVENT_SIZE; lia).
  unfold ev_qualifies.
  destruct (Nat.eqb_spec (ev_len e) 0) as [E0|E0].
  - rewrite E0. reflexivity.
  - replace (Z.of_nat (ev_len e) =? 0) with false by lia. simpl.
    destruct (negb (Z.land (ev_mask e) IN_CREATE =? 0) && (Z.land (ev_mask e) IN_ISDIR =? 0));
      [|reflexivity].
    rewrite (event_name_at buf rest i e) by auto. reflexivity.
Qed.

Lemma batch_bytes_cons (e : inotify_event) (es : list inotify_event) :
  batch_bytes (e :: es) = event_bytes e ++ batch_bytes es.
Proof. reflexivity. Qed.

Lemma scan_batch_from (es : list inotify_event) (pre : list byte) (fuel : nat) :
  Forall wf_event es -> (List.length es < fuel)%nat ->
  Z.of_nat (List.length (pre ++ batch_bytes es)) < 2 ^ 31 ->
  scan fuel (pre ++ batch_bytes es) (Z.of_nat (List.length pre)) =
  match first_qualifying es with Some n => ScanFound n | None => ScanDone end.
Proof.
  revert pre fuel. induction es as [|e es IH]; intros pre fuel Hwf Hf Hlen;
    (destruct fuel as [|fuel]; [simpl in Hf; lia|]).
  - simpl. rewrite app_nil_r.
    destruct (Z.ltb_spec (Z.of_nat (List.length pre)) (Z.of_nat (List.length pre))); [lia|].
    reflexivity.
  - inv Hwf. rewrite batch_bytes_cons in *. simpl first_qualifying.
    assert (Hl : List.length (pre ++ event_bytes e ++ batch_bytes es)
                 = (List.length pre + 16 + ev_len e + List.length (batch_bytes es))%nat).
    { rewrite !length_app, length_event_bytes by assumption. lia. }
    rewrite (scan_event fuel _ (batch_bytes es) _ e);
      [| assumption | lia | unfold EVENT_SIZE; rewrite Hl in Hlen; lia
       | rewrite Nat2Z.id; apply skipn_app_exact].
    destruct (ev_qualifies e); [reflexivity|].
    rewrite app_assoc.
    replace (Z.of_nat (List.length pre) + EVENT_SIZE + Z.of_nat (ev_len e))
      with (Z.of_nat (List.length (pre ++ event_bytes e)))
      by (rewrite length_app, length_event_bytes by assumption; unfold EVENT_SIZE; lia).
    apply IH; auto; [simpl in Hf; lia|]. rewrite <- app_assoc. exact Hlen.
Qed.

(** A header's [len] field keeps the offset an [int]: the whole buffer, a
    header and the name field fit below [INT_MAX]. *)
Definition lens_fit (buf : list byte) : Prop :=
  forall j mask len, event_header buf j = Some (mask, len) ->
  Z.of_nat (List.length buf) + EVENT_SIZE + len < 2 ^ 31.

(** The same condition checked at every offset of the buffer. *)
Definition lens_fit_b (buf : list byte) : bool :=
  forallb (fun j => match event_header buf (Z.of_nat j) with
                    | Some (_, len) => Z.of_nat (List.length buf) + EVENT_SIZE + len <? 2 ^ 31
                    | None => true
                    end) (seq 0 (List.length buf)).

Lemma event_header_some_lt (buf : list byte) (j mask len : Z) :
  event_header buf j = Some (mask, len) -> 0 <= j /\ (Z.to_nat j < List.length buf)%nat.
Proof.
  unfold event_header. destruct (Z.ltb_spec j 0); [discriminate|].
  destruct (Nat.ltb_spec (List.length (firstn 16 (skipn (Z.to_nat j) buf))) 16); [discriminate|].
  intros _. split; [lia|]. rewrite length_firstn, length_skipn in *. lia.
Qed.

Lemma lens_fit_b_sound (buf : list byte) : lens_fit_b buf = true -> lens_fit buf.
Proof.
  intros H j mask len E. destruct (event_header_some_lt _ _ _ _ E) as [Hj Hl].
  unfold lens_fit_b in H. rewrite forallb_forall in H.
  specialize (H (Z.to_nat j)). rewrite Z2Nat.id, E in H by exact Hj.
  apply Z.ltb_lt, H, in_seq. lia.
Qed.

Lemma event_header_len_nonneg (buf : list byte) (i mask len : Z) :
  event_header buf i = Some (mask, len) -> 0 <= len.
Proof.
  unfold event_header. destruct (i <? 0); [discriminate|].
  destruct (_ <? 16)%nat; [discriminate|]. intros H. inv H.
  apply le_combine_bound.
Qed.

(** Every pass of the inner loop that does not stop moves [i] forward by
    at least [EVENT_SIZE] bytes, so [fuel] passes cover [16 * (fuel - 1)]
    bytes and the last one sees [i >= length]. *)
Lemma scan_no_out_of_fuel (fuel : nat) (buf : list byte) (i : Z) :
  lens_fit buf -> 0 <= i -> (0 < fuel)%nat ->
  Z.of_nat (List.length buf) - i <= 16 * (Z.of_nat fuel - 1) ->
  scan fuel buf i <> ScanOutOfFuel.
Proof.
  intros Hfit. revert i. induction fuel as [|f IH]; intros i Hi Hf Hm; [lia|].
  cbn [scan]. destruct (Z.ltb_spec i (Z.of_nat (List.length buf))); [|discriminate].
  destruct (event_header buf i) as [[mask len]|] eqn:Eh; [|discriminate].
  pose proof (Hfit _ _ _ Eh) as Hb. pose proof (event_header_len_nonneg _ _ _ _ Eh).
  pose proof (Nat2Z.is_nonneg (List.length buf)).
  unfold EVENT_SIZE in *.
  rewrite int_of_size_small by lia.
  assert (Hn : scan f buf (i + 16 + len) <> ScanOutOfFuel) by (apply IH; lia).
  destruct (_ && _ && _); [|exact Hn].
  destruct (event_name buf i); [|discriminate].
  destruct (is_image_ext _); [discriminate|exact Hn].
Qed.

End Inotify.

(** ** [watch_directory], lines 167-213 *)

Module WatchDir.
Import Inotify.
Local Open Scope Z_scope.

(** What one [read(fd, buffer, EVENT_BUF_LEN)] returns. *)
Inductive read_result :=
| ReadOk (bytes : list byte)   (** [length >= 0]: the bytes of a batch *)
| ReadErr.                     (** [length < 0] *)

(** The kernel's answers to the calls of one [watch_directory] call:
    whether [inotify_init] and [inotify_add_watch] succeed, and the results
    of the successive [read]s. *)
Record watch_env := mk_watch_env {
  init_ok : bool;
  add_watch_ok : bool;
  reads : list read_result
}.

Inductive watch_outcome :=
| WatchReturned (new_file_path : list byte)  (** the function returns *)
| WatchExited                                (** [exit(EXIT_FAILURE)] *)
| WatchBlocked                               (** [read] waits for events that never come *)
| WatchUndefined.                            (** a read outside the batch, or a loop that does not end *)

(** The outer [while (1)] loop, lines 183-212: one [read] per iteration; the
    inner loop is given one step per byte of the batch (each step of a
    kernel batch consumes at least [EVENT_SIZE] bytes). *)
Fixpoint read_loop (path : list byte) (rs : list read_result) : watch_outcome * list Io.event :=
  match rs with
  | [] => (WatchBlocked, [])
  | ReadErr :: _ => (WatchExited, [Io.InotifyRead; Io.Perror bytes:("read"); Io.Exit Io.EXIT_FAILURE])
  | ReadOk buf :: rs' =>
      match scan (S (List.length buf)) buf 0 with
      | ScanFound name =>
          match join_path path name with
          | Some p => (WatchReturned p, [Io.InotifyRead; Io.InotifyRmWatch; Io.Close])
          | None => (WatchUndefined, [Io.InotifyRead])
          end
      | ScanDone => let '(o, t) := read_loop path rs' in (o, Io.InotifyRead :: t)
      | ScanFault | ScanOutOfFuel => (WatchUndefined, [Io.InotifyRead])
      end
  end.

Definition watch_directory (env : watch_env) (path : list byte) : watch_outcome * list Io.event :=
  if negb (init_ok env) then
    (WatchExited, [Io.InotifyInit; Io.Perror bytes:("inotify_init"); Io.Exit Io.EXIT_FAILURE])
  else if negb (add_watch_ok env) then
    (WatchExited, [Io.InotifyInit; Io.InotifyAddWatch path IN_CREATE;
                   Io.Printf Io.Stderr (Io.line bytes:("Cannot watch '%s'")) [Io.ArgStr path];
                   Io.Exit Io.EXIT_FAILURE])
  else
    let '(o, t) := read_loop path (reads env) in
    (o, Io.InotifyInit :: Io.InotifyAddWatch path IN_CREATE :: t).

(** The reference: the name of the first qualifying event of the first
    batch that has one. *)
Fixpoint first_in_batches (bs : list (list inotify_event)) : option (list byte) :=
  match bs with
  | [] => None
  | b :: bs' =>
      match first_qualifying b with
      | Some n => Some n
      | None => first_in_batches bs'
      end
  end.

(** A batch the kernel can return from one [read]: well-formed events whose
    bytes fit the buffer. *)
Definition kernel_batch (b : list inotify_event) : Prop :=
  Forall wf_event b /\ Z.of_nat (List.length (batch_bytes b)) <= EVENT_BUF_LEN.

Definition kernel_batch_b (b : list inotify_event) : bool :=
  forallb wf_event_b b && (Z.of_nat (List.length (batch_bytes b)) <=? EVENT_BUF_LEN).

(** ** Lemmas *)

Lemma kernel_batches_b_sound (bs : list (list inotify_event)) :
  forallb kernel_batch_b bs = true -> Forall kernel_batch bs.
Proof.
  intros H. apply Forall_forall. intros b Hb. eapply forallb_forall in H; [|exact Hb].
  unfold kernel_batch_b in H. apply andb_prop in H as [H1 H2]. split.
  - apply Forall_forall. intros e He. apply wf_event_b_sound.
    eapply forallb_forall in H1; [exact H1|exact He].
  - apply Z.leb_le. exact H2.
Qed.

Lemma length_batch_bytes (es : list inotify_event) :
  Forall wf_event es -> (16 * List.length es <= List.length (batch_bytes es))%nat.
Proof.
  induction 1 as [|e es He _ IH]; [simpl; lia|].
  rewrite batch_bytes_cons, length_app, length_event_bytes by exact He. simpl. lia.
Qed.

(** The inner loop on a batch the kernel wrote: one step per byte is
    enough fuel, no read leaves the batch, and the pass stops at the first
    qualifying event, or reaches the end of the batch when there is none. *)
Lemma scan_kernel_batch (b : list inotify_event) :
  kernel_batch b ->
  scan (S (List.length (batch_bytes b))) (batch_bytes b) 0 =
  match first_qualifying b with Some n => ScanFound n | None => ScanDone end.
Proof.
  intros [Hwf Hlen]. pose proof (length_batch_bytes b Hwf).
  apply (scan_batch_from b [] _ Hwf); simpl; unfold EVENT_BUF_LEN, EVENT_SIZE in *; lia.
Qed.

Lemma join_path_some (path name : list byte) :
  path <> [] -> exists p, join_path path name = Some p.
Proof.
  intros H. unfold join_path. destruct (List.rev path) as [|c r] eqn:E.
  - apply (f_equal (@List.rev byte)) in E. rewrite rev_involutive in E. simpl in E. congruence.
  - destruct (Byte.eqb c Byte.x2f); eexists; reflexivity.
Qed.

Lemma read_loop_batches (path : list byte) (bs : list (list inotify_event)) :
  Forall kernel_batch bs -> path <> [] ->
  match first_in_batches bs with
  | Some n =>
      exists p k, join_path path n = Some p /\
        read_loop path (map (fun b => ReadOk (batch_bytes b)) bs)
        = (WatchReturned p, repeat Io.InotifyRead k ++ [Io.InotifyRead; Io.InotifyRmWatch; Io.Close])
  | None =>
      read_loop path (map (fun b => ReadOk (batch_bytes b)) bs)
      = (WatchBlocked, repeat Io.InotifyRead (List.length bs))
  end.
Proof.
  intros Hbs Hp. induction Hbs as [|b bs Hb _ IH]; [reflexivity|].
  cbn [read_loop map first_in_batches]. rewrite (scan_kernel_batch b Hb).
  destruct (first_qualifying b) as [n|].
  - destruct (join_path_some path n Hp) as [p Hj]. rewrite Hj.
    exists p, 0%nat. auto.
  - destruct (first_in_batches bs) as [n|].
    + destruct IH as (p & k & Hj & ->). exists p, (S k). auto.
    + rewrite IH. reflexivity.
Qed.

(** ** Properties of [watch_directory] *)

(** C20: the file-name test of lines 195-196 accepts exactly the names
    that end in [.png], [.jpg] or [.jpeg], compared byte for byte (so
    [shot.PNG] is rejected): [strrchr] finds the last dot and [strcmp]
    compares the whole suffix from it. *)
Theorem is_image_ext_spec (name : list byte) :
  CStr.nul_free name = true ->
  is_image_ext name = true <->
  exists stem ext, In ext [bytes:(".png"); bytes:(".jpg"); bytes:(".jpeg")] /\ name = stem ++ ext.
Proof.
  intros Hnf. unfold is_image_ext. split.
  - destruct (CStr.strrchr name Byte.x2e) as [r|] eqn:E; [|discriminate].
    apply CStr.strrchr_some in E as (p & t & -> & -> & _).
    rewrite CStr.nul_free_app in Hnf. apply andb_prop in Hnf as [_ Ht].
    intros H. exists p, (Byte.x2e :: t). split; [|reflexivity].
    repeat match goal with
    | H : (_ || _) = true |- _ => apply orb_prop in H as [H|H]
    | H : (_ =? 0)%Z = true |- _ =>
        apply Z.eqb_eq, CStr.strcmp_eq_0 in H; [|exact Ht|reflexivity]
    end; rewrite H; simpl; tauto.
  - intros (stem & ext & Hin & ->).
    cbn in Hin. destruct Hin as [<-|[<-|[<-|[]]]];
      (rewrite CStr.strrchr_app_last; [reflexivity|simpl; intuition discriminate]).
Qed.

(** When the joined path fits [PATH_MAX], [new_file_path] is the
    directory, a ['/'] unless the directory already ends with one, and the
    file name. *)
Theorem join_path_spec (dir name : list byte) (c : byte) :
  (List.length dir + 2 + List.length name < PATH_MAX)%nat ->
  join_path (dir ++ [c]) name =
  Some (if Byte.eqb c Byte.x2f then dir ++ c :: name else dir ++ c :: Byte.x2f :: name).
Proof.
  intros H. unfold join_path. rewrite rev_app_distr. simpl.
  destruct (Byte.eqb c Byte.x2f); f_equal; rewrite <- app_assoc; simpl;
    apply CStr.snprintf_fits; rewrite length_app; simpl; lia.
Qed.

(** [new_file_path] never holds more than [PATH_MAX - 1] bytes: a
    longer path is truncated by [snprintf], never written past the buffer. *)
Theorem join_path_bounded (path name r : list byte) :
  join_path path name = Some r -> (List.length r < PATH_MAX)%nat.
Proof.
  unfold join_path. destruct (List.rev path); [discriminate|].
  destruct (Byte.eqb _ _); intros H; inv H; rewrite CStr.snprintf_length;
    unfold PATH_MAX; lia.
Qed.

(** C4: on batches the kernel writes, [watch_directory] returns the path
    of the first qualifying event of the first batch that has one, after
    removing the watch and closing the descriptor; all events of a batch are
    examined in order, not only the first. *)
Theorem watch_directory_first_qualifying (env : watch_env) (path n : list byte)
    (bs : list (list inotify_event)) :
  init_ok env = true -> add_watch_ok env = true ->
  reads env = map (fun b => ReadOk (batch_bytes b)) bs ->
  Forall kernel_batch bs -> path <> [] ->
  first_in_batches bs = Some n ->
  exists p t, join_path path n = Some p /\
    watch_directory env path = (WatchReturned p, t ++ [Io.InotifyRmWatch; Io.Close]).
Proof.
  intros Hi Ha Hr Hbs Hp Hn. pose proof (read_loop_batches path bs Hbs Hp) as L.
  rewrite Hn in L. destruct L as (p & k & Hj & Hl).
  exists p, (Io.InotifyInit :: Io.InotifyAddWatch path IN_CREATE
             :: repeat Io.InotifyRead k ++ [Io.InotifyRead]).
  split; [exact Hj|]. unfold watch_directory. rewrite Hi, Ha, Hr, Hl. simpl.
  rewrite <- app_assoc. reflexivity.
Qed.

(** C18: creations of files with other extensions, of directories, and
    events that are not creations never make [watch_directory] return: with
    no qualifying event in the batches, the call keeps reading. *)
Theorem watch_directory_ignores_others (env : watch_env) (path : list byte)
    (bs : list (list inotify_event)) :
  init_ok env = true -> add_watch_ok env = true ->
  reads env = map (fun b => ReadOk (batch_bytes b)) bs ->
  Forall kernel_batch bs -> path <> [] ->
  first_in_batches bs = None ->
  fst (watch_directory env path) = WatchBlocked.
Proof.
  intros Hi Ha Hr Hbs Hp Hn. pose proof (read_loop_batches path bs Hbs Hp) as L.
  rewrite Hn in L. unfold watch_directory. rewrite Hi, Ha, Hr, L. reflexivity.
Qed.

(** C19: a failure to set up the monitor ([inotify_init] or
    [inotify_add_watch]) or to read from it is fatal: the process exits
    with [EXIT_FAILURE] and the call never returns a path. *)
Theorem watch_directory_fatal (env : watch_env) (path : list byte) (rs : list read_result) :
  (init_ok env = false \/ add_watch_ok env = false \/ reads env = ReadErr :: rs) ->
  exists t, watch_directory env path = (WatchExited, t ++ [Io.Exit Io.EXIT_FAILURE]).
Proof.
  unfold watch_directory. intros H.
  destruct (init_ok env) eqn:Ei; simpl.
  2:{ exists [Io.InotifyInit; Io.Perror bytes:("inotify_init")]. reflexivity. }
  destruct (add_watch_ok env) eqn:Ea; simpl.
  2:{ eexists [_; _; _]. reflexivity. }
  destruct H as [H|[H|H]]; try discriminate. rewrite H. simpl.
  exists [Io.InotifyInit; Io.InotifyAddWatch path IN_CREATE; Io.InotifyRead;
          Io.Perror bytes:("read")].
  reflexivity.
Qed.

Lemma first_qualifying_app (pre post : list inotify_event) :
  first_qualifying pre = None -> first_qualifying (pre ++ post) = first_qualifying post.
Proof.
  induction pre as [|e pre IH]; [reflexivity|]. simpl.
  destruct (ev_qualifies e); [discriminate|exact IH].
Qed.

(** C12: when one read delivers two qualifying creations, only the first
    is returned: the call removes the watch and closes the descriptor after
    that single read, and the second creation is never reported (the
    spec's section 8 asks for it to be surfaced). *)
Theorem watch_directory_drops_second (env : watch_env) (path : list byte)
    (pre post : list inotify_event) (e1 e2 : inotify_event) (rest : list read_result) :
  init_ok env = true -> add_watch_ok env = true ->
  reads env = ReadOk (batch_bytes (pre ++ e1 :: post)) :: rest ->
  kernel_batch (pre ++ e1 :: post) -> path <> [] ->
  first_qualifying pre = None -> ev_qualifies e1 = true ->
  In e2 post -> ev_qualifies e2 = true ->
  exists p, join_path path (ev_name e1) = Some p /\
    watch_directory env path
    = (WatchReturned p, [Io.InotifyInit; Io.InotifyAddWatch path IN_CREATE; Io.InotifyRead;
                         Io.InotifyRmWatch; Io.Close]).
Proof.
  intros Hi Ha Hr Hk Hp Hpre H1 _ _.
  destruct (join_path_some path (ev_name e1) Hp) as [p Hj]. exists p. split; [exact Hj|].
  unfold watch_directory. rewrite Hi, Ha, Hr. cbn [negb read_loop].
  rewrite (scan_kernel_batch _ Hk), first_qualifying_app by exact Hpre.
  simpl. rewrite H1, Hj. reflexivity.
Qed.

(** C35: the inner loop of lines 190-210 terminates: on every buffer whose
    [len] fields keep the offset an [int], one pass per byte is enough, from
    any starting offset, so the pass ends by finding a name, reaching the
    end of the batch, or reading outside it. *)
Theorem scan_terminates (buf : list byte) (i : Z) :
  lens_fit buf -> 0 <= i -> scan (S (List.length buf)) buf i <> ScanOutOfFuel.
Proof. intros Hfit Hi. apply scan_no_out_of_fuel; [exact Hfit | exact Hi | lia | lia]. Qed.

(** After a header with [len = 2^32 - 16], [i + EVENT_SIZE + len] is
    [i + 2^32] as a [size_t], which the conversion to [int] of line 209
    brings back to [i]. *)
Lemma int_of_size_wraps_back (i : Z) :
  0 <= i < 2 ^ 31 -> int_of_size (wrap 64 (i + EVENT_SIZE + (2 ^ 32 - 16))) = i.
Proof.
  intros Hi. unfold int_of_size, EVENT_SIZE.
  replace (i + 16 + (2 ^ 32 - 16)) with (i + 1 * 2 ^ 32) by lia.
  rewrite (wrap_small 64) by lia. unfold wrap. rewrite Z.mod_add, Z.mod_small by lia.
  replace (i <? 2 ^ 31) with true by (symmetry; apply Z.ltb_lt; lia). reflexivity.
Qed.

(** C36: the loop trusts [event->len]: when the header at an offset [i]
    of the batch has [len = 2^32 - 16], so that [i += EVENT_SIZE +
    event->len] leaves [i] where it was, and the event does not end the
    call (it is not a creation, is a directory's, or names a file without
    an image extension), the loop comes back to the same header for ever:
    no amount of fuel ends it. *)
Theorem scan_wrapping_len_loops (buf : list byte) (i mask : Z) (fuel : nat) :
  0 <= i < 2 ^ 31 -> event_header buf i = Some (mask, 2 ^ 32 - 16) ->
  (Z.land mask IN_CREATE = 0 \/ Z.land mask IN_ISDIR <> 0
   \/ exists name, event_name buf i = Some name /\ is_image_ext name = false) ->
  scan fuel buf i = ScanOutOfFuel.
Proof.
  intros Hi Hh Hq. destruct (event_header_some_lt buf i mask _ Hh) as [_ Hlt].
  induction fuel as [|f IH]; [reflexivity|]. cbn [scan].
  replace (i <? Z.of_nat (List.length buf)) with true by (symmetry; apply Z.ltb_lt; lia).
  rewrite Hh, int_of_size_wraps_back by exact Hi.
  destruct (_ && _ && _) eqn:G; [|exact IH].
  apply andb_prop in G as [G Hd]. apply andb_prop in G as [_ Hc].
  destruct Hq as [Hm|[Hd'|(name & En & Hn)]].
  - rewrite Hm in Hc. discriminate.
  - apply Z.eqb_eq in Hd. contradiction.
  - rewrite En, Hn. exact IH.
Qed.

End WatchDir.

(** ** Concrete runs

    A watched screenshot directory receives first a batch with a text file
    and a directory named like an image, then a batch with the text file
    again, a screenshot and a second screenshot. *)

Module WatchExamples.
Import Inotify WatchDir.
Local Open Scope Z_scope.

Definition ev_txt := mk_event 1 IN_CREATE 0 bytes:("notes.txt") 16.
Definition ev_dir := mk_event 1 (Z.lor IN_CREATE IN_ISDIR) 0 bytes:("album.png") 16.
Definition ev_png := mk_event 1 IN_CREATE 0 bytes:("screenshot1.png") 16.
Definition ev_jpg := mk_event 1 IN_CREATE 0 bytes:("screenshot2.jpg") 16.
Definition ex_path := bytes:("/home/u/Pictures/Screenshots").

(** A header of a non-creation event ([mask = 0]) with [len = 2^32 - 16]. *)
Definition wrap_len_buf : list byte :=
  le_split 4 1 ++ le_split 4 0 ++ le_split 4 0 ++ le_split 4 (2 ^ 32 - 16).

Lemma scan_wrapping_len_loops_witness : scan 1000 wrap_len_buf 0 = ScanOutOfFuel.
Proof.
  apply (scan_wrapping_len_loops wrap_len_buf 0 0 1000);
    [lia | vm_compute; reflexivity | left; reflexivity].
Defined.
Definition ex_batches := [[ev_txt; ev_dir]; [ev_txt; ev_png; ev_jpg]].
Definition ex_env := mk_watch_env true true (map (fun b => ReadOk (batch_bytes b)) ex_batches).

Lemma ex_batches_kernel : Forall kernel_batch ex_batches.
Proof. apply kernel_batches_b_sound. vm_compute. reflexivity. Qed.

Definition ex_env_quiet := mk_watch_env true true [ReadOk (batch_bytes [ev_txt; ev_dir])].
Definition ex_long_dir := repeat Byte.x61 5000.

Lemma is_image_ext_spec_witness :
  is_image_ext bytes:("shot.png") = true <->
  exists stem ext, In ext [bytes:(".png"); bytes:(".jpg"); bytes:(".jpeg")]
                   /\ bytes:("shot.png") = stem ++ ext.
Proof. apply (is_image_ext_spec bytes:("shot.png")). reflexivity. Defined.

Lemma join_path_spec_witness :
  join_path (bytes:("/home/u/Screenshot") ++ [Byte.x73]) bytes:("a.png") =
  Some (if Byte.eqb Byte.x73 Byte.x2f then bytes:("/home/u/Screenshot") ++ Byte.x73 :: bytes:("a.png")
        else bytes:("/home/u/Screenshot") ++ Byte.x73 :: Byte.x2f :: bytes:("a.png")).
Proof.
  apply (join_path_spec bytes:("/home/u/Screenshot") bytes:("a.png") Byte.x73).
  unfold PATH_MAX. simpl. lia.
Defined.

Lemma join_path_bounded_witness :
  (List.length (firstn 4095 (ex_long_dir ++ Byte.x2f :: bytes:("a.png"))) < PATH_MAX)%nat.
Proof.
  apply (join_path_bounded ex_long_dir bytes:("a.png")). vm_compute. reflexivity.
Defined.

Lemma watch_directory_first_qualifying_witness :
  exists p t, join_path ex_path bytes:("screenshot1.png") = Some p /\
    watch_directory ex_env ex_path = (WatchReturned p, t ++ [Io.InotifyRmWatch; Io.Close]).
Proof.
  apply (watch_directory_first_qualifying ex_env ex_path bytes:("screenshot1.png") ex_batches);
    [reflexivity | reflexivity | reflexivity | exact ex_batches_kernel | discriminate
    | vm_compute; reflexivity].
Defined.

Lemma watch_directory_ignores_others_witness :
  fst (watch_directory ex_env_quiet ex_path) = WatchBlocked.
Proof.
  apply (watch_directory_ignores_others ex_env_quiet ex_path [[ev_txt; ev_dir]]);
    [reflexivity | reflexivity | reflexivity
    | apply kernel_batches_b_sound; vm_compute; reflexivity | discriminate
    | vm_compute; reflexivity].
Defined.

Lemma watch_directory_fatal_witness :
  exists t, watch_directory (mk_watch_env true true [ReadErr]) ex_path
            = (WatchExited, t ++ [Io.Exit Io.EXIT_FAILURE]).
Proof.
  apply (watch_directory_fatal _ ex_path []). right. right. reflexivity.
Defined.

Lemma watch_directory_drops_second_witness :
  exists p, join_path ex_path (ev_name ev_png) = Some p /\
    watch_directory (mk_watch_env true true [ReadOk (batch_bytes [ev_txt; ev_png; ev_jpg])]) ex_path
    = (WatchReturned p, [Io.InotifyInit; Io.InotifyAddWatch ex_path IN_CREATE; Io.InotifyRead;
                         Io.InotifyRmWatch; Io.Close]).
Proof.
  apply (watch_directory_drops_second _ ex_path [ev_txt] [ev_jpg] ev_png ev_jpg []);
    first [reflexivity | discriminate | now left
          | apply (Forall_inv (kernel_batches_b_sound [[ev_txt; ev_png; ev_jpg]] eq_refl))].
Defined.

(** A two-event batch read whole; [len] of every header is at most 16. *)
Lemma scan_terminates_witness :
  scan (S (List.length (batch_bytes [ev_txt; ev_png]))) (batch_bytes [ev_txt; ev_png]) 0
  <> ScanOutOfFuel.
Proof.
  apply scan_terminates; [apply lens_fit_b_sound; vm_compute; reflexivity | lia].
Defined.

End WatchExamples.
