(* ===== verification/Json.v ===== *)
(** * Json: the ResponseParser, [extract_link_from_response]
    ([src/main.c], lines 27-45)

    [extract_link_from_response(json_string)] parses the response body with
    cJSON, looks up the member ["data"] of the document and the member
    ["link"] of that, and returns a [strdup] of the link when it is a
    string; a parse failure prints ["Error before: %s"] with the text where
    cJSON stopped and returns NULL.

    cJSON is a library the program links, not code of the repository.  Its
    item tree is modelled as the inductive [json]; [cJSON_Parse] as a parser
    over the bytes of the C string ([parse_value] and its helpers follow
    cJSON 1.7's [parse_value], [parse_string], [parse_number],
    [parse_array] and [parse_object]: whitespace is every byte [<= 32], the
    nesting limit is [CJSON_NESTING_LIMIT = 1000], a number is the longest
    prefix that [strtod] accepts of a run of at most 63 characters of
    [0-9+-eE.], [\uXXXX] escapes are converted to UTF-8, and text after the
    first value is ignored).  [cJSON_GetObjectItemCaseSensitive] compares
    member names with [strcmp], so a name is read up to its first NUL. *)

From S2P Require Import Prelude CString Io.
From Stdlib Require Import String List ZArith Lia Bool.
From coqutil Require Import Byte.
Import ListNotations.

Module CJson.

Local Open Scope Z_scope.
Local Set Warnings "-register-all".

(** ** The item tree *)

Inductive json :=
| JNull
| JFalse
| JTrue
| JNumber (lexeme : list byte)
| JString (s : list byte)
| JArray (items : list json)
| JObject (members : list (list byte * json)).

(** ** [cJSON_GetObjectItemCaseSensitive] and [cJSON_IsString] *)

(** The members are scanned in order and the first whose name compares
    equal with [strcmp] is returned; an array's children have no name,
    which stops the scan, and other items have no children. *)
Fixpoint find_member (name : list byte) (ms : list (list byte * json)) : option json :=
  match ms with
  | [] => None
  | (k, v) :: ms' =>
      if CStr.strcmp name (CStr.c_prefix k) =? 0 then Some v else find_member name ms'
  end.

Definition get_object_item (o : option json) (name : list byte) : option json :=
  match o with
  | Some (JObject ms) => find_member name ms
  | _ => None
  end.

Definition is_string (o : option json) : bool :=
  match o with Some (JString _) => true | _ => false end.

(** Lines 37-44 on a parsed document: the two lookups, the string test,
    and [strdup(link->valuestring)], which copies the C string, i.e. the
    bytes before the first NUL of the value. *)
Definition link_of_document (doc : json) : option (list byte) :=
  let data := get_object_item (Some doc) bytes:("data") in
  let link := get_object_item data bytes:("link") in
  match link with
  | Some (JString s) => Some (CStr.c_prefix s)
  | _ => None
  end.

(** ** The parser *)

(** A parse either succeeds with a value and the input after it, or fails
    at a position, given as the input from there on. *)
Inductive presult (A : Type) :=
| POk (a : A) (rest : list byte)
| PErr (at_ : list byte).
Arguments POk {A} a rest.
Arguments PErr {A} at_.

Definition CJSON_NESTING_LIMIT : nat := 1000.

Definition in_range (lo hi : Z) (b : byte) : bool :=
  (lo <=? byte.unsigned b) && (byte.unsigned b <=? hi).

Definition is_digit (b : byte) : bool := in_range 48 57 b.

Definition is_ws (b : byte) : bool := byte.unsigned b <=? 32.

(** [buffer_skip_whitespace] *)
Fixpoint skip_ws (s : list byte) : list byte :=
  match s with
  | b :: r => if is_ws b then skip_ws r else s
  | [] => []
  end.

(** [skip_utf8_bom]: a BOM is skipped when at least one byte follows it. *)
Definition skip_bom (s : list byte) : list byte :=
  match s with
  | a :: b :: c :: d :: r =>
      if Byte.eqb a Byte.xef && Byte.eqb b Byte.xbb && Byte.eqb c Byte.xbf then d :: r else s
  | _ => s
  end.

Fixpoint strip_prefix (p s : list byte) : option (list byte) :=
  match p, s with
  | [], _ => Some s
  | x :: p', y :: s' => if Byte.eqb x y then strip_prefix p' s' else None
  | _ :: _, [] => None
  end.

(** [parse_hex4]: four hexadecimal digits; any other character makes the
    whole value 0. *)
Definition hex_val (b : byte) : option Z :=
  if in_range 48 57 b then Some (byte.unsigned b - 48)
  else if in_range 65 70 b then Some (byte.unsigned b - 55)
  else if in_range 97 102 b then Some (byte.unsigned b - 87)
  else None.

Definition parse_hex4 (h : list byte) : Z :=
  match h with
  | [a; b; c; d] =>
      match hex_val a, hex_val b, hex_val c, hex_val d with
      | Some a, Some b, Some c, Some d => ((a * 16 + b) * 16 + c) * 16 + d
      | _, _, _, _ => 0
      end
  | _ => 0
  end.

(** The UTF-8 encoding of a code point, as [utf16_literal_to_utf8] writes it. *)
Definition cont (cp : Z) : byte := byte.of_Z (Z.land (Z.lor cp 128) 191).

Definition utf8_encode (cp : Z) : option (list byte) :=
  if cp <? 128 then Some [byte.of_Z (Z.land cp 127)]
  else if cp <? 2048 then
    Some [byte.of_Z (Z.land (Z.lor (Z.shiftr cp 6) 192) 255); cont cp]
  else if cp <? 65536 then
    Some [byte.of_Z (Z.land (Z.lor (Z.shiftr cp 12) 224) 255);
          cont (Z.shiftr cp 6); cont cp]
  else if cp <=? 1114111 then
    Some [byte.of_Z (Z.land (Z.lor (Z.shiftr cp 18) 240) 255);
          cont (Z.shiftr cp 12); cont (Z.shiftr cp 6); cont cp]
  else None.

(** [utf16_literal_to_utf8] on the escape that starts at [s] (its
    backslash), inside the string body: the bytes written and the length of
    the escape sequence, 6 or 12 with a surrogate pair. *)
Definition utf16_literal (s : list byte) : option (list byte * nat) :=
  if (List.length s <? 6)%nat then None
  else
    let first := parse_hex4 (firstn 4 (skipn 2 s)) in
    if (56320 <=? first) && (first <=? 57343) then None
    else if (55296 <=? first) && (first <=? 56319) then
      let s2 := skipn 6 s in
      if (List.length s2 <? 6)%nat then None
      else
        match s2 with
        | x :: y :: _ =>
            if Byte.eqb x Byte.x5c && Byte.eqb y Byte.x75 then
              let second := parse_hex4 (firstn 4 (skipn 2 s2)) in
              if (second <? 56320) || (57343 <? second) then None
              else
                option_map (fun o => (o, 12%nat))
                  (utf8_encode (65536 + Z.lor (Z.shiftl (Z.land first 1023) 10)
                                              (Z.land second 1023)))
            else None
        | _ => None
        end
    else option_map (fun o => (o, 6%nat)) (utf8_encode first).

(** The first loop of [parse_string]: the raw body up to the closing quote;
    a backslash takes the next byte with it. *)
Fixpoint scan_string (s : list byte) : option (list byte * list byte) :=
  match s with
  | [] => None
  | b :: r =>
      if Byte.eqb b Byte.x22 then Some ([], r)
      else if Byte.eqb b Byte.x5c then
        match r with
        | [] => None
        | c :: r' => option_map (fun '(body, rest) => (b :: c :: body, rest)) (scan_string r')
        end
      else option_map (fun '(body, rest) => (b :: body, rest)) (scan_string r)
  end.

(** The second loop of [parse_string]: the escapes of the body decoded. *)
Definition simple_escape (c : byte) : option byte :=
  if Byte.eqb c Byte.x62 then Some Byte.x08
  else if Byte.eqb c Byte.x66 then Some Byte.x0c
  else if Byte.eqb c Byte.x6e then Some Byte.x0a
  else if Byte.eqb c Byte.x72 then Some Byte.x0d
  else if Byte.eqb c Byte.x74 then Some Byte.x09
  else if Byte.eqb c Byte.x22 || Byte.eqb c Byte.x5c || Byte.eqb c Byte.x2f then Some c
  else None.

Fixpoint unescape (fuel : nat) (s : list byte) : option (list byte) :=
  match fuel with
  | O => None
  | S f =>
      match s with
      | [] => Some []
      | b :: r =>
          if negb (Byte.eqb b Byte.x5c) then option_map (cons b) (unescape f r)
          else
            match r with
            | [] => None
            | c :: r' =>
                match simple_escape c with
                | Some o => option_map (cons o) (unescape f r')
                | None =>
                    if Byte.eqb c Byte.x75 then
                      match utf16_literal s with
                      | Some (o, n) => option_map (app o) (unescape f (skipn n s))
                      | None => None
                      end
                    else None
                end
            end
      end
  end.

Definition parse_string (s : list byte) : presult (list byte) :=
  match s with
  | q :: r =>
      if Byte.eqb q Byte.x22 then
        match scan_string r with
        | Some (body, rest) =>
            match unescape (S (List.length body)) body with
            | Some out => POk out rest
            | None => PErr r
            end
        | None => PErr r
        end
      else PErr s
  | [] => PErr s
  end.

(** [parse_number]: the run of number characters (at most 63 are copied)
    and the longest prefix of it that [strtod] converts. *)
Definition is_number_char (b : byte) : bool :=
  is_digit b || Byte.eqb b Byte.x2b || Byte.eqb b Byte.x2d || Byte.eqb b Byte.x65
  || Byte.eqb b Byte.x45 || Byte.eqb b Byte.x2e.

Fixpoint number_run (n : nat) (s : list byte) : list byte :=
  match n, s with
  | S n', b :: r => if is_number_char b then b :: number_run n' r else []
  | _, _ => []
  end.

(** The states of [strtod]'s decimal syntax
    [[+-]? (digits [. digits*]? | . digits) ([eE] [+-]? digits)?]. *)
Inductive fstate := FStart | FSign | FInt | FIntDot | FDot | FFrac | FExp | FExpSign | FExpDig.

Definition faccepting (st : fstate) : bool :=
  match st with FInt | FIntDot | FFrac | FExpDig => true | _ => false end.

Definition is_sign (b : byte) : bool := Byte.eqb b Byte.x2b || Byte.eqb b Byte.x2d.
Definition is_e (b : byte) : bool := Byte.eqb b Byte.x65 || Byte.eqb b Byte.x45.
Definition is_dot (b : byte) : bool := Byte.eqb b Byte.x2e.

Definition fstep (st : fstate) (b : byte) : option fstate :=
  match st with
  | FStart => if is_sign b then Some FSign else if is_digit b then Some FInt
              else if is_dot b then Some FDot else None
  | FSign => if is_digit b then Some FInt else if is_dot b then Some FDot else None
  | FInt => if is_digit b then Some FInt else if is_dot b then Some FIntDot
            else if is_e b then Some FExp else None
  | FIntDot | FFrac => if is_digit b then Some FFrac else if is_e b then Some FExp else None
  | FDot => if is_digit b then Some FFrac else None
  | FExp => if is_sign b then Some FExpSign else if is_digit b then Some FExpDig else None
  | FExpSign | FExpDig => if is_digit b then Some FExpDig else None
  end.

(** The length of the longest accepted prefix, [last] being the best so far. *)
Fixpoint strtod_len (st : fstate) (s : list byte) (pos : nat) (last : option nat) : option nat :=
  match s with
  | [] => last
  | b :: r =>
      match fstep st b with
      | None => last
      | Some st' => strtod_len st' r (S pos) (if faccepting st' then Some (S pos) else last)
      end
  end.

Definition parse_number (s : list byte) : presult json :=
  let run := number_run 63 s in
  match strtod_len FStart run 0 None with
  | Some (S _ as n) => POk (JNumber (firstn n run)) (skipn n s)
  | _ => PErr s
  end.

(** [parse_value], [parse_array] and [parse_object].  [fuel] bounds the
    recursion of the model (every call consumes input, so the input's length
    is enough); [depth] is what is left of the nesting limit. *)
Fixpoint parse_value (fuel depth : nat) (s : list byte) {struct fuel} : presult json :=
  match fuel with
  | O => PErr s
  | S f =>
      match strip_prefix bytes:("null") s with
      | Some r => POk JNull r
      | None =>
      match strip_prefix bytes:("false") s with
      | Some r => POk JFalse r
      | None =>
      match strip_prefix bytes:("true") s with
      | Some r => POk JTrue r
      | None =>
      match s with
      | [] => PErr s
      | c :: r =>
          if Byte.eqb c Byte.x22 then
            match parse_string s with
            | POk str rest => POk (JString str) rest
            | PErr e => PErr e
            end
          else if Byte.eqb c Byte.x2d || is_digit c then parse_number s
          else if Byte.eqb c Byte.x5b then
            match depth with
            | O => PErr s
            | S d =>
                match skip_ws r with
                | [] => PErr []
                | c' :: r' =>
                    if Byte.eqb c' Byte.x5d then POk (JArray []) r'
                    else parse_elements f d (skip_ws r) []
                end
            end
          else if Byte.eqb c Byte.x7b then
            match depth with
            | O => PErr s
            | S d =>
                match skip_ws r with
                | [] => PErr []
                | c' :: r' =>
                    if Byte.eqb c' Byte.x7d then POk (JObject []) r'
                    else parse_members f d (skip_ws r) []
                end
            end
          else PErr s
      end end end end
  end
with parse_elements (fuel depth : nat) (s : list byte) (acc : list json) {struct fuel}
    : presult json :=
  match fuel with
  | O => PErr s
  | S f =>
      match parse_value f depth s with
      | PErr e => PErr e
      | POk v r =>
          match skip_ws r with
          | c :: r' =>
              if Byte.eqb c Byte.x2c then parse_elements f depth (skip_ws r') (acc ++ [v])
              else if Byte.eqb c Byte.x5d then POk (JArray (acc ++ [v])) r'
              else PErr (skip_ws r)
          | [] => PErr []
          end
      end
  end
with parse_members (fuel depth : nat) (s : list byte) (acc : list (list byte * json))
    {struct fuel} : presult json :=
  match fuel with
  | O => PErr s
  | S f =>
      match parse_string s with
      | PErr e => PErr e
      | POk k r =>
          match skip_ws r with
          | c :: r' =>
              if Byte.eqb c Byte.x3a then
                match parse_value f depth (skip_ws r') with
                | PErr e => PErr e
                | POk v r2 =>
                    match skip_ws r2 with
                    | c2 :: r3 =>
                        if Byte.eqb c2 Byte.x2c then
                          parse_members f depth (skip_ws r3) (acc ++ [(k, v)])
                        else if Byte.eqb c2 Byte.x7d then POk (JObject (acc ++ [(k, v)])) r3
                        else PErr (skip_ws r2)
                    | [] => PErr []
                    end
                end
              else PErr (skip_ws r)
          | [] => PErr []
          end
      end
  end.

(** [cJSON_Parse(value)]: [require_null_terminated] is false, so the text
    after the first value is not looked at. *)
Definition cJSON_Parse (s : list byte) : presult json :=
  parse_value (S (List.length s)) CJSON_NESTING_LIMIT (skip_ws (skip_bom s)).

(** ** [extract_link_from_response], lines 27-45 *)
Definition extract_link_from_response (json_string : list byte) : option (list byte) * list Io.event :=
  match cJSON_Parse json_string with
  | PErr at_ => (None, [Io.Printf Io.Stderr (Io.line bytes:("Error before: %s")) [Io.ArgStr at_]])
  | POk doc _ => (link_of_document doc, [])
  end.

(** ** Printing a document

    The inverse direction, used to state what the parser returns on a
    given document: compact JSON, where a quote and a backslash inside a
    string are written after a backslash and a control byte as a
    [\u00XX] escape. *)

Definition hex_digit (n : Z) : byte :=
  if n <? 10 then byte.of_Z (48 + n) else byte.of_Z (87 + n).

Definition escape_byte (b : byte) : list byte :=
  if Byte.eqb b Byte.x22 then [Byte.x5c; Byte.x22]
  else if Byte.eqb b Byte.x5c then [Byte.x5c; Byte.x5c]
  else if byte.unsigned b <? 32 then
    [Byte.x5c; Byte.x75; Byte.x30; Byte.x30;
     hex_digit (byte.unsigned b / 16); hex_digit (byte.unsigned b mod 16)]
  else [b].

Definition escape (s : list byte) : list byte := flat_map escape_byte s.

Definition render_string (s : list byte) : list byte := Byte.x22 :: escape s ++ [Byte.x22].

Fixpoint join (xs : list (list byte)) : list byte :=
  match xs with
  | [] => []
  | [x] => x
  | x :: xs' => x ++ Byte.x2c :: join xs'
  end.

Fixpoint render (v : json) : list byte :=
  match v with
  | JNull => bytes:("null")
  | JFalse => bytes:("false")
  | JTrue => bytes:("true")
  | JNumber l => l
  | JString s => render_string s
  | JArray vs => Byte.x5b :: join (map render vs) ++ [Byte.x5d]
  | JObject ms =>
      Byte.x7b :: join (map (fun '(k, v) => render_string k ++ Byte.x3a :: render v) ms)
      ++ [Byte.x7d]
  end.

Definition render_member (kv : list byte * json) : list byte :=
  let '(k, v) := kv in render_string k ++ Byte.x3a :: render v.

(** Nesting depth of arrays and objects, as cJSON counts it. *)
Fixpoint json_depth (v : json) : nat :=
  match v with
  | JArray vs => S (fold_right (fun v acc => Nat.max (json_depth v) acc) 0%nat vs)
  | JObject ms => S (fold_right (fun '(_, v) acc => Nat.max (json_depth v) acc) 0%nat ms)
  | _ => 0%nat
  end.

(** A number lexeme that cJSON reads back whole: it starts a value, it is a
    run of number characters short enough to be copied, and [strtod]
    accepts all of it. *)
Definition valid_number (l : list byte) : bool :=
  match l with
  | [] => false
  | c :: _ =>
      (Byte.eqb c Byte.x2d || is_digit c) && forallb is_number_char l
      && (List.length l <=? 63)%nat
      && match strtod_len FStart l 0 None with
         | Some n => (n =? List.length l)%nat
         | None => false
         end
  end.

Fixpoint wf_json (v : json) : bool :=
  match v with
  | JNumber l => valid_number l
  | JArray vs => forallb wf_json vs
  | JObject ms => forallb (fun '(_, v) => wf_json v) ms
  | _ => true
  end.

(** What the parser reads back from the printed text of a document. *)
Definition parses_back (v : json) : Prop :=
  forall fuel d rest,
    wf_json v = true -> (List.length (render v) < fuel)%nat -> (json_depth v <= d)%nat ->
    (match rest with [] => True | c :: _ => is_number_char c = false end) ->
    parse_value fuel d (render v ++ rest) = POk v rest.

(** The text after a value does not continue a number. *)
Definition stops (rest : list byte) : Prop :=
  match rest with [] => True | c :: _ => is_number_char c = false end.

(** Induction on documents, with a hypothesis for every item of an array
    and every member of an object. *)
Definition json_ind_nested (P : json -> Prop)
    (fnull : P JNull) (ffalse : P JFalse) (ftrue : P JTrue)
    (fnum : forall l, P (JNumber l)) (fstr : forall s, P (JString s))
    (farr : forall vs, Forall P vs -> P (JArray vs))
    (fobj : forall ms, Forall (fun kv => P (snd kv)) ms -> P (JObject ms)) : forall v, P v :=
  fix F (v : json) : P v :=
    match v with
    | JNull => fnull
    | JFalse => ffalse
    | JTrue => ftrue
    | JNumber l => fnum l
    | JString s => fstr s
    | JArray vs =>
        farr vs ((fix G (l : list json) : Forall P l :=
                    match l with
                    | [] => Forall_nil _
                    | x :: l' => Forall_cons _ (F x) (G l')
                    end) vs)
    | JObject ms =>
        fobj ms ((fix G (l : list (list byte * json)) : Forall (fun kv => P (snd kv)) l :=
                    match l with
                    | [] => Forall_nil _
                    | x :: l' => Forall_cons _ (F (snd x)) (G l')
                    end) ms)
    end.

(** ** Lemmas on strings *)

Lemma scan_string_escape_byte (b : byte) (r : list byte) :
  scan_string (escape_byte b ++ r) =
  option_map (fun '(body, rest) => (escape_byte b ++ body, rest)) (scan_string r).
Proof.
  destruct (scan_string r) as [[body rest]|] eqn:E; destruct b; simpl; rewrite ?E; reflexivity.
Qed.

Lemma scan_string_escape (s rest : list byte) :
  scan_string (escape s ++ Byte.x22 :: rest) = Some (escape s, rest).
Proof.
  induction s as [|b s IH]; [reflexivity|].
  unfold escape in *. simpl flat_map. rewrite <- app_assoc, scan_string_escape_byte, IH.
  reflexivity.
Qed.

Lemma unescape_escape_byte (b : byte) (r : list byte) (f : nat) :
  unescape (S f) (escape_byte b ++ r) = option_map (cons b) (unescape f r).
Proof. destruct b; reflexivity. Qed.

Lemma unescape_escape (s : list byte) (f : nat) :
  (List.length s < f)%nat -> unescape f (escape s) = Some s.
Proof.
  revert f; induction s as [|b s IH]; intros [|f] Hf; simpl in Hf; try lia.
  - reflexivity.
  - unfold escape. simpl flat_map. rewrite unescape_escape_byte.
    fold (escape s). rewrite IH by lia. reflexivity.
Qed.

Lemma length_escape (s : list byte) : (List.length s <= List.length (escape s))%nat.
Proof.
  induction s as [|b s IH]; [simpl; lia|].
  unfold escape. simpl flat_map. rewrite length_app. fold (escape s).
  assert (1 <= List.length (escape_byte b))%nat.
  { unfold escape_byte.
    repeat match goal with |- context [if ?c then _ else _] => destruct c end; simpl; lia. }
  change (List.length (b :: s)) with (S (List.length s)). lia.
Qed.

Lemma parse_string_render (s rest : list byte) :
  parse_string (render_string s ++ rest) = POk s rest.
Proof.
  unfold render_string.
  replace ((Byte.x22 :: escape s ++ [Byte.x22]) ++ rest) with (Byte.x22 :: escape s ++ Byte.x22 :: rest)
    by (simpl; rewrite <- app_assoc; reflexivity).
  unfold parse_string. change (Byte.eqb Byte.x22 Byte.x22) with true. cbv beta iota.
  rewrite scan_string_escape, unescape_escape by (pose proof (length_escape s); lia).
  reflexivity.
Qed.

(** ** Lemmas on numbers *)

Lemma number_run_all (l rest : list byte) (n : nat) :
  forallb is_number_char l = true -> (List.length l <= n)%nat -> stops rest ->
  number_run n (l ++ rest) = l.
Proof.
  revert n; induction l as [|b l IH]; intros n Hl Hn Hr; simpl in *.
  - destruct n, rest as [|c r]; simpl in *; try reflexivity. rewrite Hr. reflexivity.
  - apply andb_prop in Hl as [Hb Hl]. destruct n as [|n]; [lia|].
    simpl. rewrite Hb, IH by (auto; lia). reflexivity.
Qed.

Lemma parse_number_render (l rest : list byte) :
  valid_number l = true -> stops rest -> parse_number (l ++ rest) = POk (JNumber l) rest.
Proof.
  intros Hv Hr. unfold valid_number in Hv. destruct l as [|c l']; [discriminate|].
  set (l := c :: l') in *.
  repeat match goal with H : (_ && _) = true |- _ => apply andb_prop in H as [? ?] end.
  unfold parse_number. rewrite number_run_all by (auto; apply Nat.leb_le; assumption).
  destruct (strtod_len FStart l 0 None) as [n|]; [|discriminate].
  apply Nat.eqb_eq in H0. subst n.
  assert (Hf : firstn (List.length l) l = l) by apply firstn_all.
  assert (Hs : skipn (List.length l) (l ++ rest) = rest) by apply skipn_app_exact.
  unfold l in *. cbn [List.length] in *. rewrite Hf, Hs. reflexivity.
Qed.

(** ** Lemmas on documents *)

Lemma strip_prefix_app (p r : list byte) : strip_prefix p (p ++ r) = Some r.
Proof. induction p as [|x p IH]; simpl; [reflexivity|]. rewrite byte_eqb_refl. exact IH. Qed.

(** The printed text of a document starts with a byte that is neither
    whitespace nor a closing bracket. *)
Lemma render_head (v : json) :
  wf_json v = true ->
  exists c r, render v = c :: r /\ is_ws c = false
              /\ Byte.eqb c Byte.x5d = false /\ Byte.eqb c Byte.x7d = false.
Proof.
  destruct v as [| | |l|s|vs|ms]; simpl; intros Hwf;
    try (eexists _, _; split; [reflexivity|]; split; [reflexivity|]; split; reflexivity).
  unfold valid_number in Hwf. destruct l as [|c r]; [discriminate|].
  apply andb_prop in Hwf as [Hwf _]. repeat (apply andb_prop in Hwf as [Hwf _]).
  exists c, r. apply orb_prop in Hwf as [Hc|Hc].
  - apply Byte.byte_dec_bl in Hc. subst c. split; [reflexivity|]. split; [reflexivity|].
    split; reflexivity.
  - unfold is_digit, in_range in Hc. apply andb_prop in Hc as [H1 H2].
    apply Z.leb_le in H1. apply Z.leb_le in H2. unfold is_ws.
    split; [reflexivity|]. split; [apply Z.leb_gt; lia|]. split.
    + destruct (byte_eqb_spec c Byte.x5d) as [->|]; [|reflexivity].
      change (byte.unsigned Byte.x5d) with 93 in H2. lia.
    + destruct (byte_eqb_spec c Byte.x7d) as [->|]; [|reflexivity].
      change (byte.unsigned Byte.x7d) with 125 in H2. lia.
Qed.

Lemma skip_ws_nonws (c : byte) (r : list byte) : is_ws c = false -> skip_ws (c :: r) = c :: r.
Proof. intros H. simpl. rewrite H. reflexivity. Qed.

Lemma skip_ws_render (v : json) (r : list byte) :
  wf_json v = true -> skip_ws (render v ++ r) = render v ++ r.
Proof.
  intros Hwf. destruct (render_head v Hwf) as (c & t & -> & Hws & _ & _).
  simpl. rewrite Hws. reflexivity.
Qed.

Lemma depth_item {A} (f : A -> nat) (x : A) (xs : list A) :
  In x xs -> (f x <= fold_right (fun y acc => Nat.max (f y) acc) 0 xs)%nat.
Proof.
  induction xs as [|y xs IH]; simpl; [tauto|]. intros [->|H]; [lia|]. specialize (IH H). lia.
Qed.

Lemma parse_value_S (f d : nat) (s : list byte) :
  parse_value (S f) d s =
  match strip_prefix bytes:("null") s with
  | Some r => POk JNull r
  | None =>
  match strip_prefix bytes:("false") s with
  | Some r => POk JFalse r
  | None =>
  match strip_prefix bytes:("true") s with
  | Some r => POk JTrue r
  | None =>
  match s with
  | [] => PErr s
  | c :: r =>
      if Byte.eqb c Byte.x22 then
        match parse_string s with POk str rest => POk (JString str) rest | PErr e => PErr e end
      else if Byte.eqb c Byte.x2d || is_digit c then parse_number s
      else if Byte.eqb c Byte.x5b then
        match d with
        | O => PErr s
        | S d' =>
            match skip_ws r with
            | [] => PErr []
            | c' :: r' => if Byte.eqb c' Byte.x5d then POk (JArray []) r'
                          else parse_elements f d' (skip_ws r) []
            end
        end
      else if Byte.eqb c Byte.x7b then
        match d with
        | O => PErr s
        | S d' =>
            match skip_ws r with
            | [] => PErr []
            | c' :: r' => if Byte.eqb c' Byte.x7d then POk (JObject []) r'
                          else parse_members f d' (skip_ws r) []
            end
        end
      else PErr s
  end end end end.
Proof. reflexivity. Qed.

Lemma parse_value_string (f d : nat) (r : list byte) :
  parse_value (S f) d (Byte.x22 :: r) =
  match parse_string (Byte.x22 :: r) with POk str rest => POk (JString str) rest | PErr e => PErr e end.
Proof. reflexivity. Qed.

Lemma parse_value_array (f d : nat) (r : list byte) :
  parse_value (S f) (S d) (Byte.x5b :: r) =
  match skip_ws r with
  | [] => PErr []
  | c' :: r' => if Byte.eqb c' Byte.x5d then POk (JArray []) r' else parse_elements f d (skip_ws r) []
  end.
Proof. reflexivity. Qed.

Lemma parse_value_object (f d : nat) (r : list byte) :
  parse_value (S f) (S d) (Byte.x7b :: r) =
  match skip_ws r with
  | [] => PErr []
  | c' :: r' => if Byte.eqb c' Byte.x7d then POk (JObject []) r' else parse_members f d (skip_ws r) []
  end.
Proof. reflexivity. Qed.

Lemma parse_value_number (f d : nat) (c : byte) (r : list byte) :
  (Byte.eqb c Byte.x2d || is_digit c) = true -> parse_value (S f) d (c :: r) = parse_number (c :: r).
Proof. destruct c; first [discriminate | reflexivity]. Qed.

Lemma join_map_head {A} (f : A -> list byte) (v : A) (vs : list A) (r : list byte) :
  (exists c t, f v = c :: t /\ is_ws c = false /\ Byte.eqb c Byte.x5d = false
               /\ Byte.eqb c Byte.x7d = false) ->
  exists c t, join (map f (v :: vs)) ++ r = c :: t /\ is_ws c = false
              /\ Byte.eqb c Byte.x5d = false /\ Byte.eqb c Byte.x7d = false.
Proof.
  intros (c & t & E & H). exists c.
  destruct vs as [|v' vs']; simpl; rewrite E; eexists; split; [reflexivity| |reflexivity|]; exact H.
Qed.

(** A printed member starts with the quote of its name. *)
Lemma render_member_head (k : list byte) (v : json) :
  exists c t, render_member (k, v) = c :: t /\ is_ws c = false
              /\ Byte.eqb c Byte.x5d = false /\ Byte.eqb c Byte.x7d = false.
Proof.
  exists Byte.x22, (escape k ++ [Byte.x22] ++ Byte.x3a :: render v).
  split; [simpl; rewrite <- app_assoc; reflexivity|]. split; [reflexivity|]. split; reflexivity.
Qed.

(** The items of an array read back from their printed text, followed
    either by the closing bracket or by the end of the input. *)
Lemma parse_elements_render (vs : list json) :
  Forall parses_back vs -> vs <> [] ->
  forall fuel d tail acc,
    forallb wf_json vs = true ->
    (List.length (join (map render vs)) + 1 < fuel)%nat ->
    (forall v, In v vs -> json_depth v <= d)%nat ->
    (tail = [] \/ exists rest, tail = Byte.x5d :: rest) ->
    parse_elements fuel d (join (map render vs) ++ tail) acc
    = match tail with [] => PErr [] | _ :: rest => POk (JArray (acc ++ vs)) rest end.
Proof.
  induction 1 as [|v vs Hv Hvs IH]; intros Hne fuel d tail acc Hwf Hf Hd Ht; [congruence|].
  simpl in Hwf. apply andb_prop in Hwf as [Hwv Hwvs].
  destruct fuel as [|f]; [lia|]. cbn [parse_elements].
  destruct vs as [|v' vs'].
  - simpl join in *.
    destruct Ht as [->|[rest ->]];
      (rewrite (Hv f d _ Hwv); [reflexivity | lia | apply Hd; left; reflexivity | reflexivity]).
  - change (join (map render (v :: v' :: vs'))) with (render v ++ Byte.x2c :: join (map render (v' :: vs'))) in *.
    rewrite <- app_assoc, <- app_comm_cons.
    rewrite length_app in Hf. cbn [List.length] in Hf.
    rewrite (Hv f d _ Hwv); [| lia | apply Hd; left; reflexivity | reflexivity].
    destruct (join_map_head render v' vs' tail) as (c & t & E & Hws & _ & _).
    { apply render_head. simpl in Hwvs. apply andb_prop in Hwvs as [? _]. assumption. }
    rewrite E, (skip_ws_nonws Byte.x2c) by reflexivity. cbv iota beta.
    change (Byte.eqb Byte.x2c Byte.x2c) with true. cbv iota beta.
    rewrite skip_ws_nonws by exact Hws. rewrite <- E.
    rewrite IH; [| discriminate | exact Hwvs | lia | intros u Hu; apply Hd; right; exact Hu
                | exact Ht].
    rewrite <- app_assoc. reflexivity.
Qed.

Lemma render_object (ms : list (list byte * json)) :
  render (JObject ms) = Byte.x7b :: join (map render_member ms) ++ [Byte.x7d].
Proof. reflexivity. Qed.

(** The members of an object read back from their printed text, followed
    either by the closing brace or by the end of the input. *)
Lemma parse_members_render (ms : list (list byte * json)) :
  Forall (fun kv => parses_back (snd kv)) ms -> ms <> [] ->
  forall fuel d tail acc,
    forallb (fun '(_, v) => wf_json v) ms = true ->
    (List.length (join (map render_member ms)) < fuel)%nat ->
    (forall kv, In kv ms -> json_depth (snd kv) <= d)%nat ->
    (tail = [] \/ exists rest, tail = Byte.x7d :: rest) ->
    parse_members fuel d (join (map render_member ms) ++ tail) acc
    = match tail with [] => PErr [] | _ :: rest => POk (JObject (acc ++ ms)) rest end.
Proof.
  induction 1 as [|[k v] ms Hv Hms IH]; intros Hne fuel d tail acc Hwf Hf Hd Ht; [congruence|].
  simpl in Hwf. apply andb_prop in Hwf as [Hwv Hwms]. simpl snd in Hv.
  destruct fuel as [|f]; [lia|]. cbn [parse_members].
  assert (Hdv : (json_depth v <= d)%nat) by (apply (Hd (k, v)); left; reflexivity).
  destruct ms as [|[k' v'] ms'].
  - change (join (map render_member [(k, v)])) with (render_string k ++ Byte.x3a :: render v) in *.
    rewrite length_app in Hf. cbn [List.length] in Hf.
    rewrite <- app_assoc, <- app_comm_cons, parse_string_render.
    rewrite (skip_ws_nonws Byte.x3a) by reflexivity. cbv iota beta.
    change (Byte.eqb Byte.x3a Byte.x3a) with true. cbv iota beta.
    rewrite skip_ws_render by exact Hwv.
    destruct Ht as [->|[rest ->]];
      (rewrite (Hv f d _ Hwv); [reflexivity | lia | exact Hdv | reflexivity]).
  - change (join (map render_member ((k, v) :: (k', v') :: ms')))
      with ((render_string k ++ Byte.x3a :: render v) ++ Byte.x2c
            :: join (map render_member ((k', v') :: ms'))) in *.
    rewrite !length_app in Hf. cbn [List.length] in Hf.
    rewrite <- !app_assoc, <- !app_comm_cons, parse_string_render.
    rewrite (skip_ws_nonws Byte.x3a) by reflexivity. cbv iota beta.
    change (Byte.eqb Byte.x3a Byte.x3a) with true. cbv iota beta.
    rewrite skip_ws_render by exact Hwv.
    rewrite (Hv f d _ Hwv); [| lia | exact Hdv | reflexivity].
    rewrite (skip_ws_nonws Byte.x2c) by reflexivity. cbv iota beta.
    change (Byte.eqb Byte.x2c Byte.x2c) with true. cbv iota beta.
    destruct (join_map_head render_member (k', v') ms' tail) as (c & t & E & Hws & _ & _).
    { apply render_member_head. }
    rewrite E, skip_ws_nonws by exact Hws. rewrite <- E.
    rewrite IH; [| discriminate | exact Hwms | lia
                | intros kv Hkv; apply Hd; right; exact Hkv | exact Ht].
    rewrite <- app_assoc. reflexivity.
Qed.

Lemma depth_items_le (vs : list json) (m : nat) :
  (fold_right (fun v acc => Nat.max (json_depth v) acc) 0 vs <= m)%nat ->
  forall v, In v vs -> (json_depth v <= m)%nat.
Proof.
  intros H v Hv. pose proof (depth_item json_depth v vs Hv). lia.
Qed.

Lemma depth_members_le (ms : list (list byte * json)) (m : nat) :
  (fold_right (fun '(_, v) acc => Nat.max (json_depth v) acc) 0 ms <= m)%nat ->
  forall kv, In kv ms -> (json_depth (snd kv) <= m)%nat.
Proof.
  induction ms as [|[k v] ms IH]; simpl; [tauto|].
  intros H kv [<-|Hkv]; simpl; [lia|]. apply IH; [lia|exact Hkv].
Qed.

(** Printing a well-formed document and parsing the text back gives the
    document and the text that follows, whenever the nesting fits the
    limit and the following text does not continue a number. *)
Lemma parse_value_render (v : json) : parses_back v.
Proof.
  induction v as [| | |l|s|vs IH|ms IH] using json_ind_nested;
    intros fuel d rest Hwf Hf Hd Hr; (destruct fuel as [|f]; [simpl in Hf; lia|]).
  - change (render JNull) with bytes:("null"). rewrite parse_value_S, strip_prefix_app. reflexivity.
  - reflexivity.
  - reflexivity.
  - simpl in Hwf. pose proof Hwf as Hv. unfold valid_number in Hv.
    destruct l as [|c l']; [discriminate|].
    apply andb_prop in Hv as [Hv _]. repeat (apply andb_prop in Hv as [Hv _]).
    change (render (JNumber (c :: l')) ++ rest) with (c :: l' ++ rest).
    rewrite parse_value_number by exact Hv.
    change (c :: l' ++ rest) with ((c :: l') ++ rest). apply parse_number_render; assumption.
  - change (render (JString s) ++ rest) with (Byte.x22 :: (escape s ++ [Byte.x22]) ++ rest).
    rewrite parse_value_string.
    change (Byte.x22 :: (escape s ++ [Byte.x22]) ++ rest) with (render_string s ++ rest).
    rewrite parse_string_render. reflexivity.
  - simpl in Hd. destruct d as [|d]; [lia|]. apply le_S_n in Hd.
    change (render (JArray vs)) with (Byte.x5b :: join (map render vs) ++ [Byte.x5d]) in *.
    cbn [List.length] in Hf. rewrite length_app in Hf. cbn [List.length] in Hf.
    rewrite <- app_comm_cons, <- app_assoc. change ([Byte.x5d] ++ rest) with (Byte.x5d :: rest).
    rewrite parse_value_array.
    destruct vs as [|v vs'].
    + simpl. reflexivity.
    + simpl in Hwf. pose proof Hwf as Hw. apply andb_prop in Hw as [Hw _].
      destruct (join_map_head render v vs' (Byte.x5d :: rest)) as (c & t & E & Hws & H5d & _).
      { apply render_head. exact Hw. }
      rewrite E, skip_ws_nonws by exact Hws. cbv iota beta. rewrite H5d. rewrite <- E.
      rewrite (parse_elements_render (v :: vs')); [reflexivity | exact IH | discriminate
        | exact Hwf | lia | apply depth_items_le; exact Hd | right; eauto].
  - simpl in Hd. destruct d as [|d]; [lia|]. apply le_S_n in Hd.
    rewrite render_object in *.
    cbn [List.length] in Hf. rewrite length_app in Hf. cbn [List.length] in Hf.
    rewrite <- app_comm_cons, <- app_assoc. change ([Byte.x7d] ++ rest) with (Byte.x7d :: rest).
    rewrite parse_value_object.
    destruct ms as [|[k v] ms'].
    + simpl. reflexivity.
    + destruct (join_map_head render_member (k, v) ms' (Byte.x7d :: rest))
        as (c & t & E & Hws & _ & H7d).
      { apply render_member_head. }
      rewrite E, skip_ws_nonws by exact Hws. cbv iota beta. rewrite H7d. rewrite <- E.
      rewrite (parse_members_render ((k, v) :: ms')); [reflexivity | exact IH | discriminate
        | exact Hwf | lia | apply depth_members_le; exact Hd | right; eauto].
Qed.

Lemma render_not_bom (v : json) :
  wf_json v = true -> exists c r, render v = c :: r /\ Byte.eqb c Byte.xef = false.
Proof.
  intros Hwf. destruct (render_head v Hwf) as (c & r & E & _).
  exists c, r. split; [exact E|].
  destruct (byte_eqb_spec c Byte.xef) as [->|]; [|reflexivity]. exfalso.
  destruct v as [| | |l|s|vs|ms]; simpl in E; try discriminate.
  subst l. simpl in Hwf. discriminate.
Qed.

Lemma skip_bom_nonbom (c : byte) (r : list byte) :
  Byte.eqb c Byte.xef = false -> skip_bom (c :: r) = c :: r.
Proof. intros H. destruct r as [|b [|c' [|d r']]]; simpl; rewrite ?H; reflexivity. Qed.

(** [cJSON_Parse] reads a printed document back, and leaves the text after
    it unread when that text does not continue a number. *)
Lemma cJSON_Parse_render_app (v : json) (rest : list byte) :
  wf_json v = true -> (json_depth v <= CJSON_NESTING_LIMIT)%nat -> stops rest ->
  cJSON_Parse (render v ++ rest) = POk v rest.
Proof.
  intros Hwf Hd Hr. unfold cJSON_Parse.
  destruct (render_not_bom v Hwf) as (c & r & E & Hc).
  rewrite E. simpl app. rewrite skip_bom_nonbom by exact Hc.
  change (c :: r ++ rest) with ((c :: r) ++ rest). rewrite <- E.
  rewrite skip_ws_render by exact Hwf.
  apply parse_value_render; [exact Hwf | rewrite length_app; lia | exact Hd | exact Hr].
Qed.

Lemma cJSON_Parse_render (v : json) :
  wf_json v = true -> (json_depth v <= CJSON_NESTING_LIMIT)%nat ->
  cJSON_Parse (render v) = POk v [].
Proof.
  intros Hwf Hd. rewrite <- (app_nil_r (render v)) at 1.
  apply cJSON_Parse_render_app; [exact Hwf | exact Hd | exact I].
Qed.

(** An object whose closing brace is cut off does not parse; the failure is
    reported at the end of the input. *)
Lemma cJSON_Parse_truncated (ms : list (list byte * json)) :
  wf_json (JObject ms) = true -> (json_depth (JObject ms) <= CJSON_NESTING_LIMIT)%nat ->
  cJSON_Parse (removelast (render (JObject ms))) = PErr [].
Proof.
  intros Hwf Hd. rewrite render_object, app_comm_cons, removelast_last.
  unfold cJSON_Parse. rewrite skip_bom_nonbom, skip_ws_nonws by reflexivity.
  unfold CJSON_NESTING_LIMIT. rewrite parse_value_object.
  destruct ms as [|[k v] ms']; [reflexivity|].
  destruct (join_map_head render_member (k, v) ms' []) as (c & t & E & Hws & _ & H7d).
  { apply render_member_head. }
  rewrite app_nil_r in E. rewrite E, skip_ws_nonws by exact Hws. cbv iota beta. rewrite H7d.
  rewrite <- E, <- (app_nil_r (join _)).
  rewrite (parse_members_render ((k, v) :: ms')); [reflexivity | | discriminate | exact Hwf
    | rewrite ?app_nil_r; cbn [List.length]; lia | | left; reflexivity].
  - apply Forall_forall. intros kv _. apply parse_value_render.
  - apply depth_members_le. unfold CJSON_NESTING_LIMIT in Hd. simpl in Hd |- *. lia.
Qed.

(** ** Properties of [extract_link_from_response] *)

(** Side conditions of the round trip on a concrete document. *)
Ltac doc_side := first [reflexivity | unfold CJSON_NESTING_LIMIT; simpl; lia].

(** The document of the specification's first testable property. *)
Definition data_link_doc (s : list byte) : json :=
  JObject [(bytes:("data"), JObject [(bytes:("link"), JString s)])].

Lemma escape_byte_nul_free (b : byte) : CStr.nul_free (escape_byte b) = true.
Proof. destruct b; reflexivity. Qed.

Lemma escape_nul_free (s : list byte) : CStr.nul_free (escape s) = true.
Proof.
  induction s as [|b s IH]; [reflexivity|].
  unfold escape. simpl flat_map. rewrite CStr.nul_free_app, escape_byte_nul_free. exact IH.
Qed.

(** The text of [{"data":{"link":S}}] holds no NUL: it is read whole as a
    C string. *)
Lemma render_data_link_nul_free (s : list byte) :
  CStr.nul_free (render (data_link_doc s)) = true.
Proof.
  unfold data_link_doc. cbn [render map join]. unfold render_string.
  rewrite ?app_nil_r, <- ?app_assoc. simpl app.
  repeat (rewrite ?CStr.nul_free_app; cbn [CStr.nul_free forallb]).
  rewrite escape_nul_free. reflexivity.
Qed.

(** C5: for every C string [S], the body [{"data":{"link":S}}] (with the
    JSON escapes of [S]) makes [extract_link_from_response] return exactly
    [S]. *)
Theorem extract_link_data_link (s : list byte) :
  CStr.nul_free s = true ->
  extract_link_from_response (render (data_link_doc s)) = (Some s, []).
Proof.
  intros Hs. unfold extract_link_from_response. rewrite cJSON_Parse_render by doc_side.
  unfold link_of_document. simpl. rewrite CStr.c_prefix_nul_free by exact Hs. reflexivity.
Qed.

(** C16: a well-formed body without a string at [data.link] (no [data],
    [data] not an object, no [link], or [link] not a string) yields no link
    and no parse diagnostic. *)
Theorem extract_link_missing (doc : json) :
  wf_json doc = true -> (json_depth doc <= CJSON_NESTING_LIMIT)%nat ->
  (forall s, get_object_item (get_object_item (Some doc) bytes:("data")) bytes:("link")
             <> Some (JString s)) ->
  extract_link_from_response (render doc) = (None, []).
Proof.
  intros Hwf Hd Hn. unfold extract_link_from_response. rewrite cJSON_Parse_render by assumption.
  unfold link_of_document.
  destruct (get_object_item (get_object_item (Some doc) bytes:("data")) bytes:("link"))
    as [[| | | |s| |]|]; try reflexivity.
  exfalso. exact (Hn s eq_refl).
Qed.

(** C17: a truncated body (an object whose closing brace is cut off) is a
    parse failure: no link, and the ["Error before: %s"] diagnostic, unlike a
    missing field. *)
Theorem extract_link_truncated (ms : list (list byte * json)) :
  wf_json (JObject ms) = true -> (json_depth (JObject ms) <= CJSON_NESTING_LIMIT)%nat ->
  extract_link_from_response (removelast (render (JObject ms)))
  = (None, [Io.Printf Io.Stderr (Io.line bytes:("Error before: %s")) [Io.ArgStr []]]).
Proof.
  intros Hwf Hd. unfold extract_link_from_response. rewrite cJSON_Parse_truncated by assumption.
  reflexivity.
Qed.

(** C28: a link whose JSON text holds the escape [\u0000] is cut at that
    point: cJSON stores the NUL in the value and [strdup] copies only the
    bytes before it. *)
Theorem extract_link_nul_escape (p q : list byte) :
  CStr.nul_free p = true ->
  extract_link_from_response (render (data_link_doc (p ++ Byte.x00 :: q))) = (Some p, []).
Proof.
  intros Hp. unfold extract_link_from_response. rewrite cJSON_Parse_render by doc_side.
  unfold link_of_document. simpl. rewrite CStr.c_prefix_app_nul by exact Hp. reflexivity.
Qed.

(** The bytes a JSON value can start with: a string, a number, an array,
    an object, or one of the literals. *)
Definition value_start (c : byte) : bool :=
  Byte.eqb c Byte.x22 || Byte.eqb c Byte.x2d || is_digit c || Byte.eqb c Byte.x5b
  || Byte.eqb c Byte.x7b || Byte.eqb c Byte.x6e || Byte.eqb c Byte.x66 || Byte.eqb c Byte.x74.

(** C33: a body that is not JSON at all (an HTML error page, plain text)
    is a parse failure, reported with the text from where the value should
    start; unlike a well-formed body without a link (C16), it prints a
    diagnostic. *)
Theorem extract_link_not_json (s r : list byte) (c : byte) :
  skip_ws (skip_bom s) = c :: r -> value_start c = false ->
  extract_link_from_response s
  = (None, [Io.Printf Io.Stderr (Io.line bytes:("Error before: %s")) [Io.ArgStr (c :: r)]]).
Proof.
  intros Hs Hc. unfold extract_link_from_response, cJSON_Parse. rewrite Hs.
  destruct c; (discriminate || reflexivity).
Qed.

(** C31: text after the document is ignored ([cJSON_Parse] does not
    require the input to end after the value): a body made of a valid
    document followed by anything that does not continue a number is
    accepted, and its link returned, though the whole text is not valid
    JSON. *)
Theorem extract_link_trailing_text (doc : json) (junk : list byte) :
  wf_json doc = true -> (json_depth doc <= CJSON_NESTING_LIMIT)%nat -> stops junk ->
  extract_link_from_response (render doc ++ junk) = (link_of_document doc, []).
Proof.
  intros Hwf Hd Hj. unfold extract_link_from_response.
  rewrite cJSON_Parse_render_app by assumption. reflexivity.
Qed.

(** When [data] has two members named [link], the first one counts:
    [cJSON_GetObjectItemCaseSensitive] returns the first match. *)
Theorem extract_link_duplicate_first (s1 s2 : list byte) :
  CStr.nul_free s1 = true ->
  extract_link_from_response
    (render (JObject [(bytes:("data"), JObject [(bytes:("link"), JString s1);
                                                (bytes:("link"), JString s2)])]))
  = (Some s1, []).
Proof.
  intros Hs. unfold extract_link_from_response. rewrite cJSON_Parse_render by doc_side.
  unfold link_of_document. cbn. rewrite CStr.c_prefix_nul_free by exact Hs. reflexivity.
Qed.

End CJson.

(** ** Concrete runs *)

Module JsonExamples.
Import CJson.

(** The shape of an upload answer of the image host. *)
Definition ex_answer : json :=
  JObject [(bytes:("data"), JObject [(bytes:("id"), JString bytes:("abc"));
                                    (bytes:("link"), JString bytes:("https://i.imgur.com/abc.png"))]);
           (bytes:("success"), JTrue); (bytes:("status"), JNumber bytes:("200"))].

Lemma extract_link_data_link_witness :
  extract_link_from_response (render (data_link_doc bytes:("https://imgur.com/abc")))
  = (Some bytes:("https://imgur.com/abc"), []).
Proof. apply (extract_link_data_link bytes:("https://imgur.com/abc")). reflexivity. Defined.

Lemma extract_link_missing_witness :
  extract_link_from_response (render (JObject [])) = (None, []).
Proof.
  apply (extract_link_missing (JObject [])); [reflexivity | doc_side |].
  intros s. simpl. discriminate.
Defined.

Lemma extract_link_truncated_witness :
  extract_link_from_response (removelast (render (data_link_doc bytes:("x"))))
  = (None, [Io.Printf Io.Stderr (Io.line bytes:("Error before: %s")) [Io.ArgStr []]]).
Proof. apply (extract_link_truncated [(bytes:("data"), JObject [(bytes:("link"), JString bytes:("x"))])]); doc_side. Defined.

Lemma extract_link_nul_escape_witness :
  extract_link_from_response (render (data_link_doc (bytes:("ab") ++ Byte.x00 :: bytes:("cd"))))
  = (Some bytes:("ab"), []).
Proof. apply (extract_link_nul_escape bytes:("ab") bytes:("cd")). reflexivity. Defined.

Lemma extract_link_trailing_text_witness :
  extract_link_from_response (render ex_answer ++ bytes:("<html>"))
  = (Some bytes:("https://i.imgur.com/abc.png"), []).
Proof. apply (extract_link_trailing_text ex_answer bytes:("<html>")); doc_side. Defined.

Lemma extract_link_duplicate_first_witness :
  extract_link_from_response
    (render (JObject [(bytes:("data"), JObject [(bytes:("link"), JString bytes:("first"));
                                                (bytes:("link"), JString bytes:("second"))])]))
  = (Some bytes:("first"), []).
Proof. apply (extract_link_duplicate_first bytes:("first") bytes:("second")). reflexivity. Defined.

Lemma extract_link_not_json_witness :
  extract_link_from_response bytes:(" <html>Over capacity</html>")
  = (None, [Io.Printf Io.Stderr (Io.line bytes:("Error before: %s"))
              [Io.ArgStr bytes:("<html>Over capacity</html>")]]).
Proof. apply extract_link_not_json; reflexivity. Defined.

End JsonExamples.
