(* ===== verification/ResponseBuffer.v ===== *)
(** * ResponseBuffer: [struct memory_struct] and [get_response]
    ([src/main.c], lines 22-25 and 65-81)

    The HTTP response body is accumulated in a heap block [memory] of which
    [size] bytes are used; libcurl hands each received piece of the body to
    the write callback [get_response], which grows the block with [realloc]
    to [size + realsize + 1] bytes, copies the piece at offset [size], and
    writes a NUL after it.

    The heap block is modelled as a list of cells, [None] for a byte never
    written (as [malloc] leaves it) and [Some b] for a written byte; a NULL
    pointer is [None] in place of the block.  [size] and the callback's
    arithmetic are [size_t], 64-bit and wrapping.  A write outside the block
    is undefined behaviour, and the model returns [CbUndefined] there.

    libcurl's side, calling the callback once per received piece and
    aborting the transfer with [CURLE_WRITE_ERROR] when the callback returns
    less than the piece's length, is [deliver] (modelled from libcurl's
    documented contract, not from code of the repository). *)

From S2P Require Import Prelude CString Io.
From Stdlib Require Import String List ZArith Lia Bool.
From coqutil Require Import Byte.
Import ListNotations.

Module RespBuf.

Local Open Scope Z_scope.

(** ** The buffer *)

Record memory_struct := mk_mem {
  memory : option (list (option byte));   (** the block, [None] for NULL *)
  size : Z                                (** [size_t] *)
}.

(** [realloc(ptr, n)]: a block of [n] bytes that keeps the first
    [min(old, n)] bytes; [realloc(NULL, n)] is [malloc(n)]. *)
Definition realloc_cells (old : option (list (option byte))) (n : nat) : list (option byte) :=
  let cells := match old with Some c => c | None => [] end in
  firstn n (cells ++ repeat None n).

(** [memcpy(&block[off], data, length data)]: [None] when the bytes do not
    fit in the block. *)
Definition write_at (cells : list (option byte)) (off : nat) (data : list byte)
    : option (list (option byte)) :=
  if (off + List.length data <=? List.length cells)%nat then
    Some (firstn off cells ++ map Some data ++ skipn (off + List.length data) cells)
  else None.

Inductive cb_result :=
| CbOk (mem : memory_struct) (ret : Z)
| CbUndefined.

(** [get_response(buffer, size, nmemb, userp)], lines 65-81, on the piece
    [data] ([size * nmemb] bytes); [realloc_ok] is whether [realloc]
    succeeds. *)
Definition get_response (data : list byte) (sz nmemb : Z) (mem : memory_struct)
    (realloc_ok : bool) : cb_result * list Io.event :=
  let realsize := wrap 64 (sz * nmemb) in
  let newlen := wrap 64 (size mem + realsize + 1) in
  if negb realloc_ok then
    (CbOk mem 0,
     [Io.Printf Io.Stderr (Io.line bytes:("Not enough memory (realloc returned NULL)")) []])
  else
    let block := realloc_cells (memory mem) (Z.to_nat newlen) in
    match write_at block (Z.to_nat (size mem)) (firstn (Z.to_nat realsize) data) with
    | None => (CbUndefined, [])
    | Some block' =>
        let size' := wrap 64 (size mem + realsize) in
        match write_at block' (Z.to_nat size') [Byte.x00] with
        | None => (CbUndefined, [])
        | Some block'' => (CbOk (mk_mem (Some block'') size') realsize, [])
        end
    end.

(** Lines 92-94: [chunk.memory = malloc(1); chunk.size = 0;] *)
Definition init_chunk (malloc_ok : bool) : memory_struct :=
  mk_mem (if malloc_ok then Some [None] else None) 0.

(** ** libcurl calling the write callback *)

Inductive deliver_result :=
| Delivered (mem : memory_struct)    (** every piece accepted *)
| WriteError (mem : memory_struct)   (** a short return: [CURLE_WRITE_ERROR] *)
| DeliverUndefined.

(** One call per piece, with [size = 1] and [nmemb] the piece's length;
    [allocs] are the outcomes of the successive [realloc]s (success when
    the list is exhausted). *)
Fixpoint deliver (pieces : list (list byte)) (mem : memory_struct) (allocs : list bool)
    : deliver_result * list Io.event :=
  match pieces with
  | [] => (Delivered mem, [])
  | p :: ps =>
      let ok := match allocs with [] => true | a :: _ => a end in
      let '(r, t) := get_response p 1 (Z.of_nat (List.length p)) mem ok in
      match r with
      | CbUndefined => (DeliverUndefined, t)
      | CbOk mem' ret =>
          if ret =? Z.of_nat (List.length p) then
            let '(r', t') := deliver ps mem' (tl allocs) in (r', t ++ t')
          else (WriteError mem', t)
      end
  end.

(** ** Reading the buffer as a C string

    [extract_link_from_response(chunk.memory)] reads the block up to its
    first NUL; reading a cell never written, or past the block, is
    undefined. *)
Inductive cread := CStr (s : list byte) | CNull | CUndefined.

Fixpoint read_cells (cells : list (option byte)) : cread :=
  match cells with
  | [] => CUndefined
  | None :: _ => CUndefined
  | Some b :: r =>
      if Byte.eqb b Byte.x00 then CStr []
      else match read_cells r with CStr s => CStr (b :: s) | o => o end
  end.

Definition read_memory (mem : memory_struct) : cread :=
  match memory mem with
  | None => CNull
  | Some cells => read_cells cells
  end.

(** The buffer's invariant once the callback has run: the block holds the
    body received so far and a NUL after it, and [size] is the body's
    length. *)
Definition holds (mem : memory_struct) (body : list byte) : Prop :=
  memory mem = Some (map Some body ++ [Some Byte.x00]) /\ size mem = Z.of_nat (List.length body).

(** ** Lemmas *)

Lemma realloc_cells_grow (cells : list (option byte)) (n : nat) :
  (List.length cells <= n)%nat ->
  realloc_cells (Some cells) n = cells ++ repeat None (n - List.length cells).
Proof.
  intros H. unfold realloc_cells. rewrite firstn_app, firstn_all2 by lia.
  rewrite firstn_repeat_le by lia. reflexivity.
Qed.

Lemma write_at_exact (pre mid post : list (option byte)) (data : list byte) :
  List.length mid = List.length data ->
  write_at (pre ++ mid ++ post) (List.length pre) data = Some (pre ++ map Some data ++ post).
Proof.
  intros H. unfold write_at. rewrite !length_app.
  destruct (Nat.leb_spec (List.length pre + List.length data)
                         (List.length pre + (List.length mid + List.length post))); [|lia].
  rewrite firstn_app_exact, <- H, (app_assoc pre mid post).
  rewrite (skipn_app_len _ (pre ++ mid) post) by apply length_app.
  reflexivity.
Qed.

(** One call of the callback on a block that holds the body received so far
    and one more cell: the block then holds the longer body and a NUL. *)
Lemma get_response_step (mem : memory_struct) (body data : list byte) (c : option byte) :
  memory mem = Some (map Some body ++ [c]) -> size mem = Z.of_nat (List.length body) ->
  Z.of_nat (List.length body + List.length data) + 1 < 2 ^ 64 ->
  get_response data 1 (Z.of_nat (List.length data)) mem true =
  (CbOk (mk_mem (Some (map Some (body ++ data) ++ [Some Byte.x00]))
                (Z.of_nat (List.length body + List.length data)))
        (Z.of_nat (List.length data)), []).
Proof.
  intros Hm Hs Hb. unfold get_response. rewrite Hm, Hs. simpl negb. cbv iota.
  rewrite Z.mul_1_l, (wrap_small 64 (Z.of_nat (List.length data))) by lia.
  rewrite (wrap_small 64 (_ + _ + 1)) by lia.
  rewrite (wrap_small 64 (_ + _)) by lia.
  replace (Z.to_nat (Z.of_nat (List.length body) + Z.of_nat (List.length data) + 1))
    with (List.length body + List.length data + 1)%nat by lia.
  rewrite realloc_cells_grow by (rewrite length_app, length_map; simpl; lia).
  rewrite length_app, length_map. simpl List.length.
  replace (List.length body + List.length data + 1 - (List.length body + 1))%nat
    with (List.length data) by lia.
  rewrite !Nat2Z.id, firstn_all, <- app_assoc. simpl app.
  destruct (cons_repeat_snoc c None (List.length data)) as (mid & x & E & L).
  rewrite E.
  pose proof (write_at_exact (map Some body) mid [x] data) as W.
  rewrite length_map in W. rewrite W by (rewrite L; reflexivity).
  replace (Z.to_nat (Z.of_nat (List.length body) + Z.of_nat (List.length data)))
    with (List.length (map Some body ++ map Some data)) by (rewrite length_app, !length_map; lia).
  rewrite app_assoc, <- (app_nil_r [x]), write_at_exact by reflexivity.
  rewrite app_nil_r, <- map_app, Nat2Z.inj_add. reflexivity.
Qed.

(** C7: the callback keeps the buffer's invariant: after it has run on a
    piece, the block holds the body received so far followed by a NUL and
    [size] is the body's length (as long as the length stays below
    [SIZE_MAX]). *)
Theorem get_response_holds (mem : memory_struct) (body data : list byte) :
  holds mem body ->
  Z.of_nat (List.length body + List.length data) + 1 < 2 ^ 64 ->
  exists mem', get_response data 1 (Z.of_nat (List.length data)) mem true
               = (CbOk mem' (Z.of_nat (List.length data)), [])
               /\ holds mem' (body ++ data).
Proof.
  intros [Hm Hs] Hb. eexists. split.
  - apply (get_response_step mem body data (Some Byte.x00)); assumption.
  - split; [reflexivity|]. simpl. rewrite length_app. lia.
Qed.

Lemma read_cells_body (body : list byte) (rest : list (option byte)) :
  read_cells (map Some body ++ Some Byte.x00 :: rest) = CStr (CStr.c_prefix body).
Proof.
  induction body as [|b body IH]; simpl; [reflexivity|].
  destruct (Byte.eqb b Byte.x00); [reflexivity|]. rewrite IH. reflexivity.
Qed.

(** Reading a buffer that holds a body gives the body up to its first NUL. *)
Lemma read_memory_holds (mem : memory_struct) (body : list byte) :
  holds mem body -> read_memory mem = CStr (CStr.c_prefix body).
Proof. intros [Hm _]. unfold read_memory. rewrite Hm. apply read_cells_body. Qed.

(** libcurl's calls on a block that holds [body] and one more cell, with
    every [realloc] succeeding. *)
Lemma deliver_all (ps : list (list byte)) (mem : memory_struct) (body : list byte)
    (c : option byte) (allocs : list bool) :
  memory mem = Some (map Some body ++ [c]) -> size mem = Z.of_nat (List.length body) ->
  Forall (eq true) allocs ->
  Z.of_nat (List.length body + List.length (concat ps)) + 1 < 2 ^ 64 ->
  exists mem', deliver ps mem allocs = (Delivered mem', [])
    /\ (ps = [] /\ mem' = mem \/ ps <> [] /\ holds mem' (body ++ concat ps)).
Proof.
  revert mem body c allocs. induction ps as [|p ps IH]; intros mem body c allocs Hm Hs Ha Hb.
  - exists mem. auto.
  - simpl concat in Hb. rewrite length_app in Hb. simpl deliver.
    assert (Hok : match allocs with [] => true | a :: _ => a end = true)
      by (destruct Ha; auto).
    rewrite Hok, (get_response_step mem body p c Hm Hs) by lia.
    rewrite Z.eqb_refl.
    destruct (IH (mk_mem (Some (map Some (body ++ p) ++ [Some Byte.x00]))
                         (Z.of_nat (List.length body + List.length p)))
                 (body ++ p) (Some Byte.x00) (tl allocs))
      as (mem' & E & H); [reflexivity | simpl; rewrite length_app; reflexivity
                         | destruct Ha; simpl; auto | rewrite length_app; lia |].
    rewrite E. exists mem'. split; [reflexivity|]. right. split; [discriminate|].
    simpl concat. rewrite app_assoc.
    destruct H as [[-> ->]|[_ H]]; [|exact H].
    cbn [concat]. rewrite !app_nil_r. split; [reflexivity|]. simpl. rewrite length_app. lia.
Qed.

End RespBuf.

Module RespBufExamples.
Import RespBuf.

(** The block of [malloc(1)] after a first piece [abc]: the block holds
    [abc] and a NUL. *)
Lemma get_response_holds_witness :
  exists mem', get_response bytes:("abc") 1 (Z.of_nat (List.length bytes:("abc")))
                 (mk_mem (Some [Some Byte.x00]) 0) true
               = (CbOk mem' (Z.of_nat (List.length bytes:("abc"))), [])
               /\ holds mem' ([] ++ bytes:("abc")).
Proof.
  apply (get_response_holds (mk_mem (Some [Some Byte.x00]) 0) [] bytes:("abc"));
    [split; reflexivity | vm_compute; reflexivity].
Defined.

End RespBufExamples.
