(* ===== verification/Uploader.v ===== *)
(** * Uploader: [file_exists], [upload_image] and [get_image_name]
    ([src/main.c], lines 61-63 and 83-165)

    The ImageUploader.  [upload_image(image_path, client_id)] checks the
    file with [access], computes a display name it does not use, sets up a
    libcurl easy handle (a [POST] of a three-part MIME body to the image
    host, an [Authorization] header, a 30 s timeout, the write callback of
    [ResponseBuffer]), performs the transfer and, when it succeeds, extracts
    the link from the response body with [Json].

    The network is an oracle: [server] gives, for the request the code
    built, the pieces of the response body libcurl receives and the
    [CURLcode] the transfer ends with when every piece is accepted.  The
    request itself is recorded in the trace as [Io.HttpPerform], with the
    options the code set ([upload_request]).  Allocation outcomes
    ([malloc], [realloc], [strdup]) and [curl_easy_init]'s are fields of the
    environment too. *)

From S2P Require Import Prelude CString Io Watcher Json ResponseBuffer.
From Stdlib Require Import String List ZArith Lia Bool.
From coqutil Require Import Byte.
Import ListNotations.

Module Upload.
Import RespBuf.

Local Open Scope Z_scope.

(** [CURLE_OK] and [CURLE_WRITE_ERROR] of [<curl/curl.h>]. *)
Definition CURLE_OK : Z := 0.
Definition CURLE_WRITE_ERROR : Z := 23.

(** ** [file_exists], lines 61-63: [access(filename, F_OK) != -1]. *)
Definition file_exists (fs : list byte -> bool) (filename : list byte) : bool * list Io.event :=
  (fs filename, [Io.Access filename]).

(** ** [get_image_name], lines 137-165

    The [strtok_r] loop over a copy of the path with the delimiters ['/']
    and ['\\'], keeping the last token, and a [strdup] of it.  [alloc_ok]
    is whether the two [strdup]s succeed.  The loop is given one step per
    byte of the path (every call consumes at least one byte). *)
Definition path_delims : list byte := [Byte.x2f; Byte.x5c].

Fixpoint last_token (fuel : nat) (s : list byte) (last : option (list byte)) : option (list byte) :=
  match fuel with
  | O => last
  | S f =>
      match CStr.strtok_r path_delims s with
      | None => last
      | Some (tok, rest) => last_token f rest (Some tok)
      end
  end.

Definition get_image_name (alloc_ok : bool) (image_path : list byte) : option (list byte) :=
  match image_path with
  | [] => None
  | _ => if negb alloc_ok then None else last_token (S (List.length image_path)) image_path None
  end.

(** ** The request, lines 95-117 *)

Definition IMGUR_URL : list byte := bytes:("https://api.imgur.com/3/image").

(** [snprintf(auth_header, sizeof(auth_header), "Authorization: Client-ID %s", client_id)]
    into a 256-byte array. *)
Definition auth_header (client_id : list byte) : list byte :=
  CStr.snprintf 256 (bytes:("Authorization: Client-ID ") ++ client_id).

(** The MIME body: the file under ["image"], the text ["image"] under
    ["type"], and the third part added by [curl_mime_addpart] whose name
    and data are commented out, left without either. *)
Definition upload_request (image_path client_id : list byte) : Io.http_request :=
  Io.mk_request bytes:("POST") IMGUR_URL 1 bytes:("https") [auth_header client_id]
    [Io.mk_part (Some bytes:("image")) (Io.MimeFile image_path);
     Io.mk_part (Some bytes:("type")) (Io.MimeBytes bytes:("image"));
     Io.mk_part None Io.MimeEmpty]
    30.

(** ** The environment of one call *)

Record transfer := mk_transfer {
  t_pieces : list (list byte);   (** the pieces of the body, in order *)
  t_code : Z                     (** the [CURLcode] when every piece is accepted *)
}.

Record upload_env := mk_upload_env {
  fs : list byte -> bool;                  (** [access(path, F_OK) != -1] *)
  strdup_ok : bool;
  easy_init_ok : bool;                     (** [curl_easy_init() != NULL] *)
  malloc_ok : bool;                        (** [malloc(1) != NULL] *)
  server : Io.http_request -> transfer;
  reallocs : list bool                     (** the outcomes of the callback's [realloc]s *)
}.

Inductive upload_result :=
| UploadLink (link : list byte)   (** a non-NULL link *)
| UploadNull                      (** NULL *)
| UploadUndefined.                (** undefined behaviour on the way *)

(** [curl_easy_perform]: the body's pieces go through the write callback; a
    short return ends the transfer with [CURLE_WRITE_ERROR]. *)
Definition perform (env : upload_env) (req : Io.http_request) (chunk : memory_struct)
    : option (Z * memory_struct) * list Io.event :=
  let tr := server env req in
  let '(d, t) := deliver (t_pieces tr) chunk (reallocs env) in
  match d with
  | Delivered m => (Some (t_code tr, m), t)
  | WriteError m => (Some (CURLE_WRITE_ERROR, m), t)
  | DeliverUndefined => (None, t)
  end.

(** [extract_link_from_response]'s result as the pointer [upload_image]
    returns. *)
Definition result_of_link (l : option (list byte)) : upload_result :=
  match l with Some x => UploadLink x | None => UploadNull end.

(** Lines 129-130 on the finished buffer: [extract_link_from_response]
    reads the block as a C string.  A NULL block (when [malloc(1)] failed
    and no piece arrived) makes [cJSON_Parse] return NULL. *)
Definition link_of_chunk (m : memory_struct) : upload_result * list Io.event :=
  match read_memory m with
  | CUndefined => (UploadUndefined, [])
  | CNull => (UploadNull, [])
  | CStr body =>
      let '(l, t) := CJson.extract_link_from_response body in
      (result_of_link l, t)
  end.

(** ** [upload_image], lines 83-135 *)
Definition upload_image (env : upload_env) (image_path client_id : list byte)
    : upload_result * list Io.event :=
  let '(exists_, t0) := file_exists (fs env) image_path in
  if negb exists_ then
    (UploadNull, t0 ++ [Io.Printf Io.Stderr (Io.line bytes:("File provided does not exist")) []])
  else
    let image_name := get_image_name (strdup_ok env) image_path in
    if negb (easy_init_ok env) then (UploadNull, t0)
    else
      let req := upload_request image_path client_id in
      let '(r, t1) := perform env req (init_chunk (malloc_ok env)) in
      let t := t0 ++ Io.HttpPerform req :: t1 in
      match r with
      | None => (UploadUndefined, t)
      | Some (res, m) =>
          let t' := t ++ [Io.Printf Io.Stdout (Io.line bytes:("Response code: %d")) [Io.ArgInt res]] in
          if negb (res =? CURLE_OK) then
            (UploadNull,
             t' ++ [Io.Printf Io.Stderr (Io.line bytes:("Image upload failed: %d")) [Io.ArgInt res]])
          else
            let '(l, t2) := link_of_chunk m in (l, t' ++ t2)
      end.

(** ** Lemmas *)

Lemma fold_last {A} (l : list A) (acc : option A) :
  fold_left (fun _ x => Some x) l acc = match l with [] => acc | x :: _ => Some (List.last l x) end.
Proof.
  revert acc; induction l as [|x l IH]; intros acc; [reflexivity|].
  simpl fold_left. rewrite IH. destruct l as [|y l]; [reflexivity|].
  change (Some (last (y :: l) y) = Some (last (y :: l) x)). f_equal. apply last_default. discriminate.
Qed.

(** The loop keeps the last token the reference split gives. *)
Lemma last_token_tokens (fuel : nat) (s : list byte) (acc : option (list byte)) :
  (List.length s < fuel)%nat ->
  last_token fuel s acc = fold_left (fun _ x => Some x) (CStr.tokens path_delims s) acc.
Proof.
  revert s acc; induction fuel as [|f IH]; intros s acc Hf; [lia|].
  simpl last_token. pose proof (CStr.strtok_r_tokens path_delims s) as T.
  destruct (CStr.strtok_r path_delims s) as [[t rest]|] eqn:E.
  - destruct T as [-> _]. simpl fold_left. apply IH.
    pose proof (CStr.strtok_r_shorter _ _ _ _ E). lia.
  - rewrite T. reflexivity.
Qed.

(** C27: [get_image_name] on a non-empty path, its copies succeeding,
    returns the last of the path's components separated by ['/'] or
    ['\\'] (empty components dropped), and NULL when there is none. *)
Theorem get_image_name_last (image_path : list byte) :
  image_path <> [] ->
  get_image_name true image_path =
  match CStr.tokens path_delims image_path with
  | [] => None
  | t :: _ => Some (List.last (CStr.tokens path_delims image_path) t)
  end.
Proof.
  intros H. unfold get_image_name. destruct image_path as [|b r]; [congruence|].
  simpl negb. cbv iota. rewrite last_token_tokens by lia. apply fold_last.
Qed.

(** The header is the text [Authorization: Client-ID ] followed by
    the client id cut to 230 bytes, the room left in the 256-byte array. *)
Theorem auth_header_firstn (client_id : list byte) :
  auth_header client_id = bytes:("Authorization: Client-ID ") ++ firstn 230 client_id.
Proof. unfold auth_header, CStr.snprintf. rewrite firstn_app. reflexivity. Qed.

(** The transfer when [malloc(1)] and every [realloc] succeed. *)
Lemma perform_ok (env : upload_env) (req : Io.http_request) :
  malloc_ok env = true -> Forall (eq true) (reallocs env) ->
  Z.of_nat (List.length (concat (t_pieces (server env req)))) + 1 < 2 ^ 64 ->
  exists m, perform env req (init_chunk (malloc_ok env)) = (Some (t_code (server env req), m), [])
    /\ (t_pieces (server env req) = [] /\ m = init_chunk true
        \/ t_pieces (server env req) <> [] /\ holds m (concat (t_pieces (server env req)))).
Proof.
  intros Hm Ha Hb. rewrite Hm. unfold perform.
  destruct (deliver_all (t_pieces (server env req)) (init_chunk true) [] None (reallocs env)
              eq_refl eq_refl Ha) as (m & E & H); [simpl; lia|].
  rewrite E. exists m. auto.
Qed.

(** The trace of a call that reaches [curl_easy_perform] with the transfer
    ending on the code [res]. *)
Definition performed_trace (image_path client_id : list byte) (res : Z) : list Io.event :=
  [Io.Access image_path; Io.HttpPerform (upload_request image_path client_id);
   Io.Printf Io.Stdout (Io.line bytes:("Response code: %d")) [Io.ArgInt res]].

Section Performed.
Variables (env : upload_env) (image_path client_id : list byte).
Hypothesis Hfs : fs env image_path = true.
Hypothesis Hinit : easy_init_ok env = true.

(** [upload_image] after the checks, on the result of the transfer. *)
Lemma upload_image_performed :
  upload_image env image_path client_id =
  let '(r, t1) := perform env (upload_request image_path client_id)
                    (init_chunk (malloc_ok env)) in
  let t := Io.Access image_path :: Io.HttpPerform (upload_request image_path client_id) :: t1 in
  match r with
  | None => (UploadUndefined, t)
  | Some (res, m) =>
      let t' := t ++ [Io.Printf Io.Stdout (Io.line bytes:("Response code: %d")) [Io.ArgInt res]] in
      if negb (res =? CURLE_OK) then
        (UploadNull,
         t' ++ [Io.Printf Io.Stderr (Io.line bytes:("Image upload failed: %d")) [Io.ArgInt res]])
      else let '(l, t2) := link_of_chunk m in (l, t' ++ t2)
  end.
Proof. unfold upload_image, file_exists. rewrite Hfs, Hinit. reflexivity. Qed.

Let req := upload_request image_path client_id.
Let tr := server env req.

Ltac performed Hm Ha Hb :=
  destruct (perform_ok env req Hm Ha Hb) as (m & E & [[Hp Hm']|[Hp Hh]]);
  fold req; rewrite E; cbv zeta iota; fold tr in Hp |- *.

(** C14: when the transfer fails with a code other than [CURLE_OK], the
    function prints the code twice, returns NULL, and parses nothing. *)
Theorem upload_transfer_failure :
  malloc_ok env = true -> Forall (eq true) (reallocs env) ->
  Z.of_nat (List.length (concat (t_pieces tr))) + 1 < 2 ^ 64 ->
  t_code tr <> CURLE_OK ->
  upload_image env image_path client_id =
  (UploadNull, performed_trace image_path client_id (t_code tr)
               ++ [Io.Printf Io.Stderr (Io.line bytes:("Image upload failed: %d"))
                     [Io.ArgInt (t_code tr)]]).
Proof.
  intros Hm Ha Hb Hc. rewrite upload_image_performed. performed Hm Ha Hb;
    rewrite (proj2 (Z.eqb_neq _ _) Hc); reflexivity.
Qed.

(** C6: when the transfer succeeds with a non-empty body, the function
    returns the link that [extract_link_from_response] finds in the body
    received (up to its first NUL), all pieces concatenated in order,
    after one request and the line [Response code: 0]. *)
Theorem upload_success :
  malloc_ok env = true -> Forall (eq true) (reallocs env) ->
  Z.of_nat (List.length (concat (t_pieces tr))) + 1 < 2 ^ 64 ->
  t_code tr = CURLE_OK -> t_pieces tr <> [] ->
  upload_image env image_path client_id =
  let '(l, t) := CJson.extract_link_from_response (CStr.c_prefix (concat (t_pieces tr))) in
  (result_of_link l, performed_trace image_path client_id CURLE_OK ++ t).
Proof.
  intros Hm Ha Hb Hc Hne. rewrite upload_image_performed. performed Hm Ha Hb; [congruence|].
  rewrite Hc. simpl negb. cbv iota. unfold link_of_chunk.
  rewrite (read_memory_holds m _ Hh).
  destruct (CJson.extract_link_from_response _). reflexivity.
Qed.

(** C9: when the transfer succeeds with an empty body, the write
    callback never runs, the block of [malloc(1)] is never written, and
    reading it as a string is undefined behaviour. *)
Theorem upload_empty_body_undefined :
  malloc_ok env = true -> Forall (eq true) (reallocs env) ->
  t_code tr = CURLE_OK -> t_pieces tr = [] ->
  upload_image env image_path client_id =
  (UploadUndefined, performed_trace image_path client_id CURLE_OK).
Proof.
  intros Hm Ha Hc He. assert (Hb : Z.of_nat (List.length (concat (t_pieces tr))) + 1 < 2 ^ 64)
    by (rewrite He; reflexivity).
  rewrite upload_image_performed. performed Hm Ha Hb; [|congruence].
  rewrite Hc, Hm'. reflexivity.
Qed.

(** C25: when [realloc] fails on the first non-empty piece, the callback
    reports it and returns 0, libcurl aborts the transfer with
    [CURLE_WRITE_ERROR], and the function returns NULL. *)
Theorem upload_realloc_failure (p : list byte) (ps : list (list byte)) (rs : list bool) :
  t_pieces tr = p :: ps -> p <> [] -> reallocs env = false :: rs ->
  upload_image env image_path client_id =
  (UploadNull,
   [Io.Access image_path; Io.HttpPerform req;
    Io.Printf Io.Stderr (Io.line bytes:("Not enough memory (realloc returned NULL)")) [];
    Io.Printf Io.Stdout (Io.line bytes:("Response code: %d")) [Io.ArgInt CURLE_WRITE_ERROR];
    Io.Printf Io.Stderr (Io.line bytes:("Image upload failed: %d")) [Io.ArgInt CURLE_WRITE_ERROR]]).
Proof.
  intros Hp Hne Hr. rewrite upload_image_performed. unfold perform. fold req tr.
  rewrite Hp, Hr. simpl deliver.
  destruct p as [|b p]; [congruence|]. reflexivity.
Qed.
End Performed.

(** C15: the display name round-trips the watcher's path: when
    [watch_directory] joins the watched directory and a file name that is
    not empty and holds neither ['/'] nor ['\\'], within [PATH_MAX],
    [get_image_name] on the joined path gives back exactly that file
    name. *)
Theorem image_name_of_joined_path (dir name p : list byte) :
  name <> [] -> forallb (fun b => negb (CStr.is_delim path_delims b)) name = true ->
  (List.length dir + 1 + List.length name < Inotify.PATH_MAX)%nat ->
  Inotify.join_path dir name = Some p ->
  get_image_name true p = Some name.
Proof.
  intros Hne Hn Hl Hj. destruct dir as [|c dir'] using rev_ind; [discriminate|].
  rewrite length_app in Hl. cbn [List.length] in Hl.
  rewrite WatchDir.join_path_spec in Hj by lia. injection Hj as <-.
  assert (T : exists pre d, (if Byte.eqb c Byte.x2f then dir' ++ c :: name
                             else dir' ++ c :: Byte.x2f :: name) = pre ++ d :: name
                            /\ CStr.is_delim path_delims d = true).
  { destruct (byte_eqb_spec c Byte.x2f) as [->|Hc].
    - exists dir', Byte.x2f. split; reflexivity.
    - exists (dir' ++ [c]), Byte.x2f. rewrite <- app_assoc. split; reflexivity. }
  destruct T as (pre & d & -> & Hd).
  destruct (CStr.tokens_last_after_delim path_delims pre name d Hd Hne Hn) as (ts & Ets).
  assert (G : forall q, q <> [] -> get_image_name true q = last_token (S (List.length q)) q None)
    by (intros [|b q] Hq; [congruence | reflexivity]).
  rewrite G by (destruct pre; discriminate).
  rewrite last_token_tokens by lia. rewrite fold_last, Ets.
  destruct (ts ++ [name]) as [|x xs] eqn:Ex; [destruct ts; discriminate|].
  rewrite <- Ex, last_last. reflexivity.
Qed.

(** C8: when the file does not exist, the function prints that, returns
    NULL, and makes no request. *)
Theorem upload_missing_file (env : upload_env) (image_path client_id : list byte) :
  fs env image_path = false ->
  upload_image env image_path client_id =
  (UploadNull, [Io.Access image_path;
                Io.Printf Io.Stderr (Io.line bytes:("File provided does not exist")) []]).
Proof. intros H. unfold upload_image, file_exists. rewrite H. reflexivity. Qed.

End Upload.

Module UploadExamples.
Import Upload.

Definition ex_path : list byte := bytes:("/home/user/Pictures/Screenshot.png").
Definition ex_cid : list byte := bytes:("0123456789abcdef").
Definition ex_body : list byte :=
  CJson.render (CJson.JObject [(bytes:("data"), CJson.JObject
                  [(bytes:("link"), CJson.JString bytes:("https://i.imgur.com/abc.png"))])]).

(** The body arrives in two pieces. *)
Definition ex_env (code : Z) (pieces : list (list byte)) (allocs : list bool) : upload_env :=
  mk_upload_env (fun p => bytes_eqb p ex_path) true true true
    (fun _ => mk_transfer pieces code) allocs.

Definition ex_pieces : list (list byte) := [firstn 10 ex_body; skipn 10 ex_body].

Lemma get_image_name_last_witness :
  get_image_name true ex_path = Some bytes:("Screenshot.png").
Proof. rewrite (get_image_name_last ex_path) by discriminate. vm_compute. reflexivity. Defined.

Lemma upload_success_witness :
  fst (upload_image (ex_env 0 ex_pieces [true; true]) ex_path ex_cid)
  = UploadLink bytes:("https://i.imgur.com/abc.png").
Proof.
  rewrite (upload_success (ex_env 0 ex_pieces [true; true]) ex_path ex_cid);
    [| reflexivity | reflexivity | reflexivity | repeat constructor | vm_compute; reflexivity
     | reflexivity | discriminate].
  vm_compute. reflexivity.
Defined.

Lemma upload_transfer_failure_witness :
  snd (upload_image (ex_env 28 [] []) ex_path ex_cid)
  = performed_trace ex_path ex_cid 28
    ++ [Io.Printf Io.Stderr (Io.line bytes:("Image upload failed: %d")) [Io.ArgInt 28]].
Proof.
  rewrite (upload_transfer_failure (ex_env 28 [] []) ex_path ex_cid);
    [reflexivity | reflexivity | reflexivity | reflexivity | constructor | vm_compute; reflexivity
    | discriminate].
Defined.

Lemma upload_empty_body_undefined_witness :
  fst (upload_image (ex_env 0 [] []) ex_path ex_cid) = UploadUndefined.
Proof.
  rewrite (upload_empty_body_undefined (ex_env 0 [] []) ex_path ex_cid);
    reflexivity || constructor.
Defined.

Lemma upload_realloc_failure_witness :
  fst (upload_image (ex_env 0 ex_pieces [false]) ex_path ex_cid) = UploadNull.
Proof.
  rewrite (upload_realloc_failure (ex_env 0 ex_pieces [false]) ex_path ex_cid eq_refl eq_refl
             (firstn 10 ex_body) [skipn 10 ex_body] []);
    reflexivity || (vm_compute; discriminate).
Defined.

Lemma upload_missing_file_witness :
  fst (upload_image (ex_env 0 [] []) bytes:("/tmp/none.png") ex_cid) = UploadNull.
Proof. rewrite (upload_missing_file (ex_env 0 [] []) bytes:("/tmp/none.png") ex_cid); reflexivity. Defined.

(** The watcher's path of [screenshot1.png] in the screenshot directory. *)
Lemma image_name_of_joined_path_witness :
  get_image_name true bytes:("/home/u/Pictures/Screenshots/screenshot1.png")
  = Some bytes:("screenshot1.png").
Proof.
  apply (image_name_of_joined_path bytes:("/home/u/Pictures/Screenshots") bytes:("screenshot1.png"));
    [discriminate | reflexivity | cbn; unfold Inotify.PATH_MAX; lia | vm_compute; reflexivity].
Defined.

End UploadExamples.
