(* ===== verification/Clipboard.v ===== *)
(** * Clipboard: [copy_string_to_clipboard] ([src/main.c], lines 47-59)

    The ClipboardWriter.  The function starts [wl-copy] with [popen], writes
    the link to its standard input with [fprintf(pipe, "%s", string)], and
    waits for it with [pclose]; it reports failure (NULL) when [popen]
    returns NULL or [pclose] returns -1, and success (the string) otherwise.

    The child process is part of the environment: whether [popen] can start
    it, whether [pclose] can wait for it, and the status it exits with.
    The OS clipboard, the state the child changes, is [option (list byte)]:
    [wl-copy] sets it to what it read when it exits with status 0 and
    leaves it unchanged otherwise (status 127 is the shell's "command not
    found").  [clipboard_contract] is the contract of the spec's section
    4.4, which also counts a non-zero exit status as a failure. *)

From S2P Require Import Prelude Io.
From Stdlib Require Import String List ZArith Lia Bool.
From coqutil Require Import Byte.
Import ListNotations.

Module Clipboard.

Local Open Scope Z_scope.

Record clip_env := mk_clip_env {
  popen_ok : bool;      (** [popen("wl-copy", "w") != NULL] *)
  wait_ok : bool;       (** [pclose(pipe) != -1] *)
  wl_copy_exit : Z      (** the exit status of the child, in [0, 255] *)
}.

Definition WL_COPY : list byte := bytes:("wl-copy").

(** What the child does with its input: the clipboard after it exits. *)
Definition wl_copy_effect (env : clip_env) (input : list byte) (clip : option (list byte))
    : option (list byte) :=
  if wl_copy_exit env =? 0 then Some input else clip.

(** [copy_string_to_clipboard(string)], lines 47-59: the returned pointer
    ([None] for NULL), the clipboard afterwards, and the trace. *)
Definition copy_string_to_clipboard (env : clip_env) (clip : option (list byte)) (s : list byte)
    : option (list byte) * option (list byte) * list Io.event :=
  if negb (popen_ok env) then (None, clip, [Io.Popen WL_COPY; Io.Perror bytes:("popen")])
  else
    let clip' := wl_copy_effect env s clip in
    let t := [Io.Popen WL_COPY; Io.PipeWrite s; Io.Pclose] in
    if negb (wait_ok env) then (None, clip', t ++ [Io.Perror bytes:("pclose")])
    else (Some s, clip', t).

(** The spec's contract (section 4.4): success exactly when the process
    starts and exits with status 0. *)
Definition clipboard_contract (env : clip_env) : bool :=
  popen_ok env && wait_ok env && (wl_copy_exit env =? 0).

(** ** Theorems *)

Definition reports_success (r : option (list byte)) : bool :=
  match r with Some _ => true | None => false end.

Lemma copy_result (env : clip_env) (clip : option (list byte)) (s : list byte) :
  let '(r, _, _) := copy_string_to_clipboard env clip s in
  r = if popen_ok env && wait_ok env then Some s else None.
Proof.
  unfold copy_string_to_clipboard.
  destruct (popen_ok env), (wait_ok env); reflexivity.
Qed.

(** C24: whenever the contract of section 4.4 succeeds, the function
    returns the string and the clipboard holds exactly the string; and
    when the function reports failure, so does the contract. *)
Theorem copy_refines_contract (env : clip_env) (clip : option (list byte)) (s : list byte) :
  let '(r, clip', _) := copy_string_to_clipboard env clip s in
  (clipboard_contract env = true -> r = Some s /\ clip' = Some s)
  /\ (r = None -> clipboard_contract env = false).
Proof.
  pose proof (copy_result env clip s) as R. unfold clipboard_contract.
  destruct (copy_string_to_clipboard env clip s) as [[r clip'] t] eqn:E.
  split.
  - intros H. apply andb_prop in H as [H Hx]. rewrite H in R. split; [exact R|].
    unfold copy_string_to_clipboard, wl_copy_effect in E.
    apply andb_prop in H as [Hp Hw]. rewrite Hp, Hw, Hx in E. simpl in E. congruence.
  - intros ->. destruct (popen_ok env && wait_ok env); [discriminate|reflexivity].
Qed.

(** C11: when [wl-copy] starts and is waited for but exits with a
    non-zero status (it failed, or is not installed: status 127), the
    function still returns the string, reporting success, though the
    clipboard is unchanged and the contract of section 4.4 fails. *)
Theorem copy_ignores_exit_status (env : clip_env) (clip : option (list byte)) (s : list byte) :
  popen_ok env = true -> wait_ok env = true -> wl_copy_exit env <> 0 ->
  copy_string_to_clipboard env clip s = (Some s, clip, [Io.Popen WL_COPY; Io.PipeWrite s; Io.Pclose])
  /\ clipboard_contract env = false.
Proof.
  intros Hp Hw Hx. unfold copy_string_to_clipboard, wl_copy_effect, clipboard_contract.
  rewrite Hp, Hw, (proj2 (Z.eqb_neq _ _) Hx). split; reflexivity.
Qed.

End Clipboard.

Module ClipboardExamples.
Import Clipboard.

Lemma copy_ignores_exit_status_witness :
  copy_string_to_clipboard (mk_clip_env true true 127) None bytes:("https://i.imgur.com/abc.png")
  = (Some bytes:("https://i.imgur.com/abc.png"), None,
     [Io.Popen WL_COPY; Io.PipeWrite bytes:("https://i.imgur.com/abc.png"); Io.Pclose])
  /\ clipboard_contract (mk_clip_env true true 127) = false.
Proof. apply copy_ignores_exit_status; reflexivity || discriminate. Defined.

End ClipboardExamples.
