(* ===== verification/Cli.v ===== *)
(** * Cli: the argument handling of [main] ([src/main.c], lines 215-246)

    [main] takes the directory to watch and the client id from its
    arguments: two arguments are used as they are (more are ignored); a
    single argument is the client id, unless [stat] says it names a
    directory, and the directory is then [$HOME/Pictures/Screenshots]
    (formatted with [snprintf] into a [PATH_MAX] array); no argument is a
    usage error.  [stat]'s answer and [HOME] are the environment.  The
    return value of [stat] is not checked: when it fails, [st_mode] is
    read uninitialised, and the model gives [StartUndefined] there. *)

From S2P Require Import Prelude CString Io Watcher.
From Stdlib Require Import String List ZArith Lia Bool.
From coqutil Require Import Byte.
Import ListNotations.

Module Cli.

Local Open Scope Z_scope.

(** The outcome of [stat(argv[1], &path_stat)]: success, with whether
    [S_ISDIR(path_stat.st_mode)] holds, or failure (-1). *)
Inductive stat_result := StatOk (is_dir : bool) | StatFail.

Record cli_env := mk_cli_env {
  argv : list (list byte);
  stat : list byte -> stat_result;
  home : option (list byte)          (** [getenv("HOME")] *)
}.

Inductive startup :=
| Started (directory_to_watch client_id : list byte)
| StartExit (status : Z)           (** [return EXIT_FAILURE] *)
| StartUndefined.

Definition SCREENSHOTS : list byte := bytes:("/Pictures/Screenshots").

(** Lines 245-246. *)
Definition announce (dir client_id : list byte) : list Io.event :=
  [Io.Printf Io.Stdout (Io.line bytes:("Screenshot directory set as: %s")) [Io.ArgStr dir];
   Io.Printf Io.Stdout (Io.line bytes:("Using Client ID: %s")) [Io.ArgStr client_id]].

Definition fail_with (msg : list byte) (args : list Io.fmt_arg) : startup * list Io.event :=
  (StartExit Io.EXIT_FAILURE, [Io.Printf Io.Stderr (Io.line msg) args; Io.Exit Io.EXIT_FAILURE]).

(** Lines 215-246.  With no argument at all, [argv[0]] is NULL and is
    passed to [%s]: undefined. *)
Definition parse_args (env : cli_env) : startup * list Io.event :=
  match argv env with
  | [] => (StartUndefined, [])
  | [a0] => fail_with bytes:("Usage: %s <directory_to_watch> <client_id>") [Io.ArgStr a0]
  | [_; a1] =>
      match stat env a1 with
      | StatFail => (StartUndefined, [Io.Stat a1])
      | StatOk true =>
          let '(r, t) := fail_with bytes:("Error: Only one argument provided and it is a directory. Please provide a Client ID.") [] in
          (r, Io.Stat a1 :: t)
      | StatOk false =>
          match home env with
          | Some h =>
              let dir := CStr.snprintf Inotify.PATH_MAX (h ++ SCREENSHOTS) in
              (Started dir a1, Io.Stat a1 :: Io.Getenv bytes:("HOME") :: announce dir a1)
          | None =>
              let '(r, t) := fail_with bytes:("HOME environment variable is not set.") [] in
              (r, Io.Stat a1 :: Io.Getenv bytes:("HOME") :: t)
          end
      end
  | _ :: a1 :: a2 :: _ => (Started a1 a2, announce a1 a2)
  end.

(** ** Theorems *)

(** With two arguments or more, the first is the directory and the
    second the client id; further arguments are ignored without a
    diagnostic. *)
Theorem parse_args_explicit (env : cli_env) (a0 dir client_id : list byte)
    (rest : list (list byte)) :
  argv env = a0 :: dir :: client_id :: rest ->
  parse_args env = (Started dir client_id, announce dir client_id).
Proof. intros H. unfold parse_args. rewrite H. reflexivity. Qed.

(** C29: with one argument that [stat] reports as not a directory, the
    argument is the client id and the directory is
    [$HOME/Pictures/Screenshots], when that path fits [PATH_MAX]. *)
Theorem parse_args_default_directory (env : cli_env) (a0 client_id h : list byte) :
  argv env = [a0; client_id] -> stat env client_id = StatOk false -> home env = Some h ->
  (List.length h + List.length SCREENSHOTS < Inotify.PATH_MAX)%nat ->
  fst (parse_args env) = Started (h ++ SCREENSHOTS) client_id.
Proof.
  intros Ha Hs Hh Hl. unfold parse_args. rewrite Ha, Hs, Hh. simpl fst.
  rewrite CStr.snprintf_fits by (rewrite length_app; exact Hl). reflexivity.
Qed.

(** C10: with one argument that [stat] cannot examine (a client id that
    names no file, the intended use), the return value of [stat] is not
    checked and [S_ISDIR] reads the uninitialised [st_mode]: undefined
    behaviour on the program's main path. *)
Theorem parse_args_stat_failure (env : cli_env) (a0 client_id : list byte) :
  argv env = [a0; client_id] -> stat env client_id = StatFail ->
  fst (parse_args env) = StartUndefined.
Proof. intros Ha Hs. unfold parse_args. rewrite Ha, Hs. reflexivity. Qed.

(** C30: every way [main] stops during argument handling returns
    [EXIT_FAILURE] after a diagnostic on standard error. *)
Theorem parse_args_exit_failure (env : cli_env) (z : Z) :
  fst (parse_args env) = StartExit z ->
  z = Io.EXIT_FAILURE /\ exists t fmt args,
    snd (parse_args env) = t ++ [Io.Printf Io.Stderr fmt args; Io.Exit Io.EXIT_FAILURE].
Proof.
  unfold parse_args, fail_with.
  destruct (argv env) as [|a0 [|a1 [|a2 rest]]]; simpl; try discriminate.
  - intros H. inv H. split; [reflexivity|]. do 3 eexists. rewrite app_nil_l. reflexivity.
  - destruct (stat env a1) as [[|]|]; simpl; try discriminate.
    + intros H. inv H. split; [reflexivity|]. exists [Io.Stat a1]. do 2 eexists. reflexivity.
    + destruct (home env); simpl; try discriminate.
      intros H. inv H. split; [reflexivity|].
      exists [Io.Stat a1; Io.Getenv bytes:("HOME")]. do 2 eexists. reflexivity.
Qed.

End Cli.

Module CliExamples.
Import Cli.

Definition ex_cli (args : list (list byte)) (st : stat_result) : cli_env :=
  mk_cli_env args (fun _ => st) (Some bytes:("/home/user")).

Lemma parse_args_explicit_witness :
  parse_args (ex_cli [bytes:("autoimgur"); bytes:("/tmp/shots"); bytes:("cid"); bytes:("extra")] StatFail)
  = (Started bytes:("/tmp/shots") bytes:("cid"), announce bytes:("/tmp/shots") bytes:("cid")).
Proof. apply (parse_args_explicit _ bytes:("autoimgur") _ _ [bytes:("extra")]). reflexivity. Defined.

Lemma parse_args_default_directory_witness :
  fst (parse_args (ex_cli [bytes:("autoimgur"); bytes:("cid")] (StatOk false)))
  = Started bytes:("/home/user/Pictures/Screenshots") bytes:("cid").
Proof.
  apply (parse_args_default_directory _ bytes:("autoimgur") bytes:("cid") bytes:("/home/user"));
    [reflexivity | reflexivity | reflexivity | vm_compute; lia].
Defined.

Lemma parse_args_stat_failure_witness :
  fst (parse_args (ex_cli [bytes:("autoimgur"); bytes:("cid")] StatFail)) = StartUndefined.
Proof. apply (parse_args_stat_failure _ bytes:("autoimgur") bytes:("cid")); reflexivity. Defined.

Lemma parse_args_exit_failure_witness :
  Io.EXIT_FAILURE = Io.EXIT_FAILURE /\ exists t fmt args,
    snd (parse_args (ex_cli [bytes:("autoimgur")] StatFail))
    = t ++ [Io.Printf Io.Stderr fmt args; Io.Exit Io.EXIT_FAILURE].
Proof. apply (parse_args_exit_failure (ex_cli [bytes:("autoimgur")] StatFail)). reflexivity. Defined.

End CliExamples.
