(* ===== verification/Resources.v ===== *)
(** * Resources: what each function acquires and releases

    The functions of [src/main.c] allocate heap blocks ([strdup],
    [malloc], [realloc], [cJSON_Parse], [curl_slist_append]), libcurl
    handles ([curl_easy_init], [curl_mime_init]), an inotify descriptor and
    watch, and a [wl-copy] pipe, and give some of them back ([free],
    [cJSON_Delete], [curl_mime_free], [curl_easy_cleanup],
    [inotify_rm_watch], [close], [pclose]).

    [Res] models these calls as a ledger: each function's model [*_ops]
    lists, in the order the code makes them, the [Acquire] and [Release]
    operations along the path the function's model takes (its branches
    are decided by the same models: [perform], [read_memory],
    [cJSON_Parse], [read_loop]).  [exec] runs a ledger on the multiset of
    live resources, a list newest first, and fails on a release of a
    resource that is not live (a double [free]).  A [free(NULL)] and a
    [curl_easy_cleanup(NULL)] release nothing.  On a path that ends in
    undefined behaviour the ledger stops there. *)

From S2P Require Import Prelude CString Io Watcher Json ResponseBuffer Uploader Clipboard.
From Stdlib Require Import String List ZArith Lia Bool.
From coqutil Require Import Byte.
Import ListNotations.

Module Res.
Import RespBuf Upload.

Inductive resource :=
| PathCopy       (** [strdup(image_path)], line 142 *)
| ImageName      (** [strdup(last_token)], line 159 *)
| EasyHandle     (** [curl_easy_init()], line 90 *)
| ChunkBlock     (** [malloc(1)] at line 93, or [realloc(NULL, n)] at line 69 *)
| HeaderList     (** [curl_slist_append], line 102 *)
| MimeHandle     (** [curl_mime_init], line 104 *)
| JsonTree       (** [cJSON_Parse], line 28 *)
| LinkString     (** [strdup(link->valuestring)], line 41 *)
| InotifyFd      (** [inotify_init()], line 171 *)
| InotifyWatch   (** [inotify_add_watch], line 177 *)
| WlCopyPipe     (** [popen("wl-copy", "w")], line 48 *)
| CurlGlobal.    (** [curl_global_init], line 248 *)

Definition resource_eq_dec (r s : resource) : {r = s} + {r <> s}.
Proof. decide equality. Defined.

Inductive op := Acquire (r : resource) | Release (r : resource).

(** The live resources, newest first. *)
Definition heap := list resource.

(** Give back one live instance of [r]; [None] when there is none. *)
Fixpoint release (r : resource) (h : heap) : option heap :=
  match h with
  | [] => None
  | s :: h' => if resource_eq_dec r s then Some h' else option_map (cons s) (release r h')
  end.

Definition exec_op (h : heap) (o : op) : option heap :=
  match o with Acquire r => Some (r :: h) | Release r => release r h end.

Fixpoint exec (h : heap) (os : list op) : option heap :=
  match os with
  | [] => Some h
  | o :: os' => match exec_op h o with Some h' => exec h' os' | None => None end
  end.

(** How many instances of [r] are live. *)
Definition live (r : resource) (h : heap) : nat := count_occ resource_eq_dec h r.

(** The resources the program acquires and never gives back: the display
    name of [get_image_name] (never used, never freed), the header list
    (no [curl_slist_free_all]) and libcurl's global state (no
    [curl_global_cleanup]). *)
Definition leaked (r : resource) : bool :=
  match r with ImageName | HeaderList | CurlGlobal => true | _ => false end.

Definition only_leaks (h : heap) : bool := forallb leaked h.

(** ** The ledgers of the functions *)

(** [get_image_name], lines 137-165: the copy of the path, the copy of
    the last token when there is one, and the [free] of the first. *)
Definition get_image_name_ops (alloc_ok : bool) (image_path : list byte) : list op :=
  match image_path with
  | [] => []
  | _ =>
      if negb alloc_ok then []
      else Acquire PathCopy
           :: match last_token (S (List.length image_path)) image_path None with
              | Some _ => [Acquire ImageName]
              | None => []
              end ++ [Release PathCopy]
  end.

(** [extract_link_from_response], lines 27-45: the tree of a successful
    parse, the [strdup] of the link, and [cJSON_Delete]. *)
Definition extract_link_ops (json_string : list byte) : list op :=
  match CJson.cJSON_Parse json_string with
  | CJson.PErr _ => []
  | CJson.POk doc _ =>
      Acquire JsonTree
      :: match CJson.link_of_document doc with Some _ => [Acquire LinkString] | None => [] end
      ++ [Release JsonTree]
  end.

(** [free(chunk.memory)]: nothing when the block is NULL. *)
Definition free_chunk_ops (m : memory_struct) : list op :=
  match memory m with Some _ => [Release ChunkBlock] | None => [] end.

(** When [malloc(1)] failed, the callback's [realloc(NULL, n)] allocates
    the block during the transfer. *)
Definition grown_chunk_ops (malloc_ok : bool) (m : memory_struct) : list op :=
  if malloc_ok then [] else match memory m with Some _ => [Acquire ChunkBlock] | None => [] end.

(** [upload_image], lines 83-135.  The early return at line 126 skips the
    [free] of line 130 and the cleanup of line 133; [headers] is never
    released. *)
Definition upload_image_ops (env : upload_env) (image_path client_id : list byte) : list op :=
  if negb (fs env image_path) then []
  else
    get_image_name_ops (strdup_ok env) image_path
    ++ if negb (easy_init_ok env) then []
       else
         let req := upload_request image_path client_id in
         Acquire EasyHandle
         :: (if malloc_ok env then [Acquire ChunkBlock] else [])
         ++ [Acquire HeaderList; Acquire MimeHandle]
         ++ match fst (perform env req (init_chunk (malloc_ok env))) with
            | None => []
            | Some (res, m) =>
                grown_chunk_ops (malloc_ok env) m ++ [Release MimeHandle]
                ++ if negb (res =? CURLE_OK)%Z then Release EasyHandle :: free_chunk_ops m
                   else match read_memory m with
                        | CUndefined => []
                        | CNull => free_chunk_ops m ++ [Release EasyHandle]
                        | CStr body => extract_link_ops body ++ free_chunk_ops m ++ [Release EasyHandle]
                        end
            end.

(** [copy_string_to_clipboard], lines 47-59: [pclose] closes the pipe
    whatever it returns. *)
Definition copy_string_to_clipboard_ops (env : Clipboard.clip_env) : list op :=
  if negb (Clipboard.popen_ok env) then [] else [Acquire WlCopyPipe; Release WlCopyPipe].

(** [watch_directory], lines 167-213: the descriptor and the watch, given
    back only on the return of lines 202-204; the [exit]s end the process
    with them open. *)
Definition watch_directory_ops (env : WatchDir.watch_env) (path : list byte) : list op :=
  if negb (WatchDir.init_ok env) then []
  else Acquire InotifyFd
       :: if negb (WatchDir.add_watch_ok env) then []
          else Acquire InotifyWatch
               :: match fst (WatchDir.read_loop path (WatchDir.reads env)) with
                  | WatchDir.WatchReturned _ => [Release InotifyWatch; Release InotifyFd]
                  | _ => []
                  end.

(** ** The ledger *)

Lemma exec_app (h : heap) (a b : list op) :
  exec h (a ++ b) = match exec h a with Some h' => exec h' b | None => None end.
Proof.
  revert h; induction a as [|o a IH]; intros h; [reflexivity|].
  simpl. destruct (exec_op h o); [apply IH | reflexivity].
Qed.

Lemma release_frame (r : resource) (n n' h : heap) :
  release r n = Some n' -> release r (n ++ h) = Some (n' ++ h).
Proof.
  revert n'; induction n as [|s n IH]; intros n' E; [discriminate|].
  simpl in *. destruct (resource_eq_dec r s); [congruence|].
  destruct (release r n) as [m|]; [|discriminate]. cbn in E. inversion E; subst.
  rewrite (IH m eq_refl). reflexivity.
Qed.

(** A ledger that runs on a heap runs the same way with more resources
    live below it. *)
Lemma exec_frame (os : list op) (n n' h : heap) :
  exec n os = Some n' -> exec (n ++ h) os = Some (n' ++ h).
Proof.
  revert n; induction os as [|[r|r] os IH]; intros n E; simpl in *; [now inversion E | apply (IH (r :: n) E) |].
  destruct (release r n) as [m|] eqn:R; [|discriminate].
  rewrite (release_frame r n m h R). apply IH, E.
Qed.

Lemma exec_frame_nil (os : list op) (n h : heap) : exec [] os = Some n -> exec h os = Some (n ++ h).
Proof. apply (exec_frame os [] n h). Qed.

Lemma live_app (r : resource) (a b : heap) : live r (a ++ b) = live r a + live r b.
Proof. apply count_occ_app. Qed.

Lemma only_leaks_app (a b : heap) : only_leaks (a ++ b) = only_leaks a && only_leaks b.
Proof. apply forallb_app. Qed.

(** ** What each function leaves live *)

Definition name_res (o : option (list byte)) : heap :=
  match o with Some _ => [ImageName] | None => [] end.

Definition link_res (r : upload_result) : heap :=
  match r with UploadLink _ => [LinkString] | _ => [] end.

Lemma get_image_name_ops_exec (alloc_ok : bool) (p : list byte) :
  exec [] (get_image_name_ops alloc_ok p) = Some (name_res (get_image_name alloc_ok p)).
Proof.
  unfold get_image_name_ops, get_image_name. destruct p as [|b p]; [reflexivity|].
  destruct alloc_ok; [|reflexivity]. cbn [negb]. destruct (last_token _ _ _); reflexivity.
Qed.

Lemma extract_link_ops_exec (s : list byte) :
  exec [] (extract_link_ops s)
  = Some (match fst (CJson.extract_link_from_response s) with Some _ => [LinkString] | None => [] end).
Proof.
  unfold extract_link_ops, CJson.extract_link_from_response.
  destruct (CJson.cJSON_Parse s) as [doc r|e]; [|reflexivity].
  destruct (CJson.link_of_document doc); reflexivity.
Qed.

(** A block that is not NULL stays so through the callback and the
    transfer: [realloc] either fails and leaves it, or returns a block. *)
Lemma get_response_memory (data : list byte) (sz nmemb : Z) (m m' : memory_struct) (ok : bool) (ret : Z) :
  fst (get_response data sz nmemb m ok) = CbOk m' ret -> memory m <> None -> memory m' <> None.
Proof.
  unfold get_response. destruct ok; cbn [negb].
  - destruct (write_at _ _ _) as [b|]; [|discriminate].
    destruct (write_at b _ _); cbn [fst]; [|discriminate]. intros E _. inversion E. discriminate.
  - cbn [fst]. intros E. inversion E. subst. exact (fun H => H).
Qed.

Lemma deliver_memory (ps : list (list byte)) (m : memory_struct) (allocs : list bool) :
  memory m <> None ->
  match fst (deliver ps m allocs) with
  | Delivered m' | WriteError m' => memory m' <> None
  | DeliverUndefined => True
  end.
Proof.
  revert m allocs; induction ps as [|q ps IH]; intros m allocs Hm; [exact Hm|].
  cbn [deliver]. destruct (get_response _ _ _ _ _) as [[m' ret|] t] eqn:E; [|exact I].
  pose proof (get_response_memory _ _ _ _ _ _ _ (f_equal fst E) Hm) as Hm'.
  destruct (ret =? _)%Z; [|exact Hm'].
  specialize (IH m' (tl allocs) Hm'). destruct (deliver ps m' (tl allocs)) as [r t'].
  exact IH.
Qed.

Lemma perform_memory (env : upload_env) (req : Io.http_request) (m m' : memory_struct) (res : Z) :
  memory m <> None -> fst (perform env req m) = Some (res, m') -> memory m' <> None.
Proof.
  intros Hm. unfold perform. pose proof (deliver_memory (t_pieces (server env req)) m (reallocs env) Hm) as D.
  destruct (deliver _ _ _) as [[m1|m1|] t]; cbn [fst] in *; intros E; inversion E; subst; exact D.
Qed.

Lemma upload_image_no_handle (env : upload_env) (p cid : list byte) :
  fs env p = true -> easy_init_ok env = false -> upload_image env p cid = (UploadNull, [Io.Access p]).
Proof. intros Hfs Hi. unfold upload_image, file_exists. rewrite Hfs, Hi. reflexivity. Qed.

(** What [upload_image] leaves live when it returns: the link it returns,
    the header list once the handle exists, and the display name. *)
Definition upload_leftover (env : upload_env) (p cid : list byte) : heap :=
  if fs env p then
    link_res (fst (upload_image env p cid))
    ++ (if easy_init_ok env then [HeaderList] else []) ++ name_res (get_image_name (strdup_ok env) p)
  else [].

Lemma upload_image_ops_exec (env : upload_env) (p cid : list byte) :
  fst (upload_image env p cid) <> UploadUndefined ->
  exec [] (upload_image_ops env p cid) = Some (upload_leftover env p cid).
Proof.
  intros Hu. unfold upload_image_ops, upload_leftover.
  destruct (fs env p) eqn:Hfs; [|reflexivity]. cbn [negb]. rewrite exec_app, get_image_name_ops_exec.
  destruct (easy_init_ok env) eqn:Hi.
  2: { rewrite (upload_image_no_handle env p cid Hfs Hi). reflexivity. }
  rewrite (upload_image_performed env p cid Hfs Hi) in Hu |- *. cbv zeta.
  destruct (perform _ _ _) as [[[res m]|] t1] eqn:E; cbn [fst] in *; [|contradiction].
  assert (Hmem : malloc_ok env = true -> memory m <> None).
  { intros Hm. apply (perform_memory env (upload_request p cid) (init_chunk (malloc_ok env)) m res);
      [rewrite Hm; discriminate | rewrite E; reflexivity]. }
  unfold link_of_chunk, read_memory, free_chunk_ops, grown_chunk_ops in *.
  destruct (res =? CURLE_OK)%Z; cbn [negb] in *;
    destruct (get_image_name _ _), (malloc_ok env), (memory m) as [cells|];
    try (exfalso; now apply Hmem); try reflexivity.
  all: destruct (read_cells cells) as [body| |]; try reflexivity; try contradiction.
  all: cbn [app name_res]; simpl exec; rewrite exec_app, (exec_frame_nil _ _ _ (extract_link_ops_exec body)).
  all: destruct (CJson.extract_link_from_response body) as [[lk|] te]; reflexivity.
Qed.

(** On every path, [upload_image] leaves one header list live exactly when
    it got past the access check and [curl_easy_init]. *)
Lemma upload_image_ops_live (env : upload_env) (p cid : list byte) :
  exists n, exec [] (upload_image_ops env p cid) = Some n
            /\ live HeaderList n = (if fs env p && easy_init_ok env then 1 else 0)
            /\ (fst (upload_image env p cid) <> UploadUndefined -> n = upload_leftover env p cid).
Proof.
  destruct (fst (upload_image env p cid)) eqn:Hr.
  1, 2: exists (upload_leftover env p cid);
    split; [apply upload_image_ops_exec; rewrite Hr; discriminate|];
    split; [|reflexivity]; unfold upload_leftover; rewrite Hr;
    destruct (fs env p), (easy_init_ok env), (get_image_name (strdup_ok env) p); reflexivity.
  unfold upload_image_ops. destruct (fs env p) eqn:Hfs.
  2: { unfold upload_image, file_exists in Hr. rewrite Hfs in Hr. discriminate. }
  destruct (easy_init_ok env) eqn:Hi.
  2: { rewrite (upload_image_no_handle env p cid Hfs Hi) in Hr. discriminate. }
  rewrite (upload_image_performed env p cid Hfs Hi) in Hr. cbn [negb andb].
  rewrite exec_app, get_image_name_ops_exec. cbv zeta.
  destruct (perform _ _ _) as [[[res m]|] t1]; cbn [fst] in *.
  - destruct (res =? CURLE_OK)%Z; cbn [negb] in *; [|discriminate].
    unfold link_of_chunk in Hr. destruct (read_memory m) as [body| |].
    1, 2: try destruct (CJson.extract_link_from_response body) as [[?|] ?]; discriminate.
    unfold grown_chunk_ops.
    destruct (get_image_name _ _), (malloc_ok env), (memory m);
      eexists; (split; [reflexivity | split; [reflexivity | intros H; contradiction]]).
  - destruct (get_image_name _ _), (malloc_ok env);
      eexists; (split; [reflexivity | split; [reflexivity | intros H; contradiction]]).
Qed.

(** ** The traces have the requests the ledgers count *)

Definition printf_only (t : list Io.event) : bool :=
  forallb (fun e => match e with Io.Printf _ _ _ => true | _ => false end) t.

Lemma http_requests_printf_only (t : list Io.event) : printf_only t = true -> Io.http_requests t = [].
Proof.
  induction t as [|[] t IH]; cbn; intros H; try discriminate; auto.
Qed.

Lemma printf_only_app (t u : list Io.event) : printf_only (t ++ u) = printf_only t && printf_only u.
Proof. apply forallb_app. Qed.

Lemma get_response_printf_only (data : list byte) (sz nmemb : Z) (m : memory_struct) (ok : bool) :
  printf_only (snd (get_response data sz nmemb m ok)) = true.
Proof.
  unfold get_response. destruct ok; [|reflexivity]. cbn [negb].
  destruct (write_at _ _ _) as [b|]; [|reflexivity]. destruct (write_at b _ _); reflexivity.
Qed.

Lemma deliver_printf_only (ps : list (list byte)) (m : memory_struct) (allocs : list bool) :
  printf_only (snd (deliver ps m allocs)) = true.
Proof.
  revert m allocs; induction ps as [|q ps IH]; intros m allocs; [reflexivity|].
  cbn [deliver].
  pose proof (get_response_printf_only q 1 (Z.of_nat (List.length q)) m
                (match allocs with [] => true | a :: _ => a end)) as G.
  destruct (get_response _ _ _ _ _) as [[m' ret|] t]; [|exact G].
  destruct (ret =? _)%Z; [|exact G].
  specialize (IH m' (tl allocs)). destruct (deliver ps m' (tl allocs)).
  cbn [snd] in *. rewrite printf_only_app, G, IH. reflexivity.
Qed.

Lemma link_of_chunk_printf_only (m : memory_struct) : printf_only (snd (link_of_chunk m)) = true.
Proof.
  unfold link_of_chunk, CJson.extract_link_from_response.
  destruct (read_memory m); try reflexivity. destruct (CJson.cJSON_Parse _); reflexivity.
Qed.

(** [upload_image] makes its one request exactly when it gets past the
    access check and [curl_easy_init]. *)
Lemma upload_image_requests (env : upload_env) (p cid : list byte) :
  Io.http_requests (snd (upload_image env p cid))
  = if fs env p && easy_init_ok env then [upload_request p cid] else [].
Proof.
  destruct (fs env p) eqn:Hfs.
  2: { unfold upload_image, file_exists. rewrite Hfs. reflexivity. }
  destruct (easy_init_ok env) eqn:Hi.
  2: { rewrite (upload_image_no_handle env p cid Hfs Hi). reflexivity. }
  rewrite (upload_image_performed env p cid Hfs Hi). unfold perform. cbv zeta.
  pose proof (deliver_printf_only (t_pieces (server env (upload_request p cid)))
                (init_chunk (malloc_ok env)) (reallocs env)) as D.
  destruct (deliver _ _ _) as [[m|m|] t]; cbn [snd fst] in *;
    [destruct (negb (_ =? _)%Z) .. |];
    try (pose proof (link_of_chunk_printf_only m) as L; destruct (link_of_chunk m); cbn [snd] in L;
         apply http_requests_printf_only in L);
    apply http_requests_printf_only in D; cbn [snd andb]; unfold Io.http_requests in *;
    rewrite ?flat_map_app; cbn [flat_map app]; rewrite ?D, ?L; reflexivity.
Qed.

Lemma watch_directory_ops_exec (env : WatchDir.watch_env) (path : list byte) :
  exists n, exec [] (watch_directory_ops env path) = Some n /\ live HeaderList n = 0
            /\ forall q, fst (WatchDir.watch_directory env path) = WatchDir.WatchReturned q -> n = [].
Proof.
  unfold watch_directory_ops, WatchDir.watch_directory.
  destruct (WatchDir.init_ok env), (WatchDir.add_watch_ok env); cbn [negb];
    try destruct (WatchDir.read_loop path (WatchDir.reads env)) as [[q| | |] t]; cbn [fst];
    eexists; (split; [reflexivity | split; [reflexivity | intros ? H; try discriminate; reflexivity]]).
Qed.

Lemma read_loop_requests (path : list byte) (rs : list WatchDir.read_result) :
  Io.http_requests (snd (WatchDir.read_loop path rs)) = [].
Proof.
  induction rs as [|[buf|] rs IH]; [reflexivity| |reflexivity]. cbn [WatchDir.read_loop].
  destruct (Inotify.scan _ _ _); try reflexivity.
  - destruct (Inotify.join_path _ _); reflexivity.
  - destruct (WatchDir.read_loop path rs). exact IH.
Qed.

Lemma watch_directory_requests (env : WatchDir.watch_env) (path : list byte) :
  Io.http_requests (snd (WatchDir.watch_directory env path)) = [].
Proof.
  unfold WatchDir.watch_directory. destruct (WatchDir.init_ok env), (WatchDir.add_watch_ok env);
    try reflexivity. cbn [negb]. pose proof (read_loop_requests path (WatchDir.reads env)) as R.
  destruct (WatchDir.read_loop _ _). exact R.
Qed.

Lemma copy_string_to_clipboard_ops_exec (env : Clipboard.clip_env) :
  exec [] (copy_string_to_clipboard_ops env) = Some [].
Proof. unfold copy_string_to_clipboard_ops. destruct (Clipboard.popen_ok env); reflexivity. Qed.

Lemma copy_string_to_clipboard_requests (env : Clipboard.clip_env) clip s :
  Io.http_requests (snd (Clipboard.copy_string_to_clipboard env clip s)) = [].
Proof.
  unfold Clipboard.copy_string_to_clipboard.
  destruct (Clipboard.popen_ok env), (Clipboard.wait_ok env); reflexivity.
Qed.

(** What [upload_image] leaves live, by its result: the link it returns on
    top of what the program never gives back. *)
Lemma upload_leftover_shape (env : upload_env) (p cid : list byte) :
  match fst (upload_image env p cid) with
  | UploadLink _ => exists n0, upload_leftover env p cid = LinkString :: n0 /\ only_leaks n0 = true
  | UploadNull => only_leaks (upload_leftover env p cid) = true
  | UploadUndefined => True
  end.
Proof.
  unfold upload_leftover. destruct (fs env p) eqn:Hfs.
  - destruct (fst (upload_image env p cid)); cbn [link_res app]; [eexists; split; [reflexivity|] | | exact I];
      destruct (easy_init_ok env), (get_image_name (strdup_ok env) p); reflexivity.
  - unfold upload_image, file_exists. rewrite Hfs. reflexivity.
Qed.

Lemma live_link_string (h : heap) : live HeaderList (LinkString :: h) = live HeaderList h.
Proof. reflexivity. Qed.

(** C32: when the file exists and [curl_easy_init] succeeds, a call of
    [upload_image] that does not hit undefined behaviour gives back, in
    the order the code frees them, the copy of the path, the handle, the
    response block, the MIME body and the parsed tree, never twice; what
    it leaves live is the link it returns (freed by [main]), the header
    list (never passed to [curl_slist_free_all]) and the display name
    (never used, never freed). *)
Theorem upload_image_leaks (env : upload_env) (p cid : list byte) :
  fs env p = true -> easy_init_ok env = true -> fst (upload_image env p cid) <> UploadUndefined ->
  exec [] (upload_image_ops env p cid)
  = Some (link_res (fst (upload_image env p cid)) ++ HeaderList :: name_res (get_image_name (strdup_ok env) p)).
Proof.
  intros Hfs Hi Hu. rewrite (upload_image_ops_exec env p cid Hu). unfold upload_leftover.
  rewrite Hfs, Hi. reflexivity.
Qed.

End Res.

#[export] Hint Rewrite Res.exec_app Res.live_app Res.only_leaks_app : autoimgur_rw.

Module ResExamples.
Import Upload UploadExamples Res.

(** A transfer that fails with [CURLE_OPERATION_TIMEDOUT] (28): the early
    return frees the block and the handle, and leaves the header list and
    the display name. *)
Lemma upload_image_leaks_witness :
  exec [] (upload_image_ops (ex_env 28 [] []) ex_path ex_cid) = Some [HeaderList; ImageName].
Proof.
  rewrite (upload_image_leaks (ex_env 28 [] []) ex_path ex_cid);
    [vm_compute; reflexivity | reflexivity | reflexivity | vm_compute; discriminate].
Defined.

End ResExamples.
