(* ===== verification/MainLoop.v ===== *)
(** * MainLoop: the [while (1)] loop of [main] ([src/main.c], lines 248-268)

    Each iteration calls [watch_directory], prints the new path, sleeps one
    second, calls [upload_image], and, when a link comes back, prints it and
    calls [copy_string_to_clipboard], printing a diagnostic when that fails;
    a failed upload prints a diagnostic and the loop goes on.

    The loop is written against the class [Capabilities]: the three calls it
    makes, on an environment [E] that holds the outside world's answers for
    one iteration.  The section [Loop] defines the loop as a labelled step
    function [step] on a [config] (the phase of the iteration, the
    environments of the iterations still to come, and the OS clipboard) and
    proves, for every implementation of the class, that it refines the
    state machine of the spec's section 4.5 ([sstep]).  The instance
    [code_caps] plugs in the models of the other files, and the section
    [Concrete] proves the end-to-end scenarios of the spec's section 8 on
    it. *)

From S2P Require Import Prelude CString Io Watcher Json ResponseBuffer Uploader Clipboard Cli.
From Stdlib Require Import String List ZArith Lia Bool.
From coqutil Require Import Byte.
Import ListNotations.

Module MainLoop.

(** ** The interface between the loop and the components *)

Class Capabilities (E : Type) := {
  cap_watch : E -> list byte -> WatchDir.watch_outcome * list Io.event;
  cap_upload : E -> list byte -> list byte -> Upload.upload_result * list Io.event;
  cap_copy : E -> option (list byte) -> list byte
             -> option (list byte) * option (list byte) * list Io.event
}.

(** ** The loop *)

Inductive phase (E : Type) :=
| Watching                              (** line 253 *)
| Debouncing (e : E) (p : list byte)    (** line 255 *)
| Uploading (e : E) (p : list byte)     (** line 256 *)
| Publishing (e : E) (link : list byte) (** lines 258-262 *)
| Exited                                (** [exit(EXIT_FAILURE)] in the watcher *)
| Blocked                               (** a [read] that never returns *)
| Undefined.

Arguments Watching {E}.
Arguments Debouncing {E}.
Arguments Uploading {E}.
Arguments Publishing {E}.
Arguments Exited {E}.
Arguments Blocked {E}.
Arguments Undefined {E}.

Record config (E : Type) := mk_config {
  cphase : phase E;
  cenvs : list E;                 (** the iterations still to come *)
  cclip : option (list byte)      (** the OS clipboard *)
}.

Arguments mk_config {E}.
Arguments cphase {E}.
Arguments cenvs {E}.
Arguments cclip {E}.

(** What a step shows of the components' answers. *)
Inductive label :=
| LWatch (p : list byte)
| LFatal
| LBlock
| LSleep
| LUpload (p : list byte) (link : option (list byte))
| LCopy (link : list byte) (ok : bool)
| LUndefined.

Section Loop.
Context {E : Type} `{Capabilities E}.
Variables directory_to_watch client_id : list byte.

(** One statement group of the loop body. *)
Definition step (c : config E) : option (label * list Io.event * config E) :=
  match cphase c with
  | Watching =>
      match cenvs c with
      | [] => None
      | e :: es =>
          let '(o, t) := cap_watch e directory_to_watch in
          match o with
          | WatchDir.WatchReturned p =>
              Some (LWatch p,
                    t ++ [Io.Printf Io.Stdout (Io.line bytes:("New file created: %s")) [Io.ArgStr p]],
                    mk_config (Debouncing e p) es (cclip c))
          | WatchDir.WatchExited => Some (LFatal, t, mk_config Exited es (cclip c))
          | WatchDir.WatchBlocked => Some (LBlock, t, mk_config Blocked es (cclip c))
          | WatchDir.WatchUndefined => Some (LUndefined, t, mk_config Undefined es (cclip c))
          end
      end
  | Debouncing e p => Some (LSleep, [Io.Sleep 1%Z], mk_config (Uploading e p) (cenvs c) (cclip c))
  | Uploading e p =>
      let '(r, t) := cap_upload e p client_id in
      match r with
      | Upload.UploadLink l =>
          Some (LUpload p (Some l),
                t ++ [Io.Printf Io.Stdout (Io.line bytes:("Uploaded: %s")) [Io.ArgStr l]],
                mk_config (Publishing e l) (cenvs c) (cclip c))
      | Upload.UploadNull =>
          Some (LUpload p None,
                t ++ [Io.Printf Io.Stderr (Io.line bytes:("Failed to upload to imgur")) []],
                mk_config Watching (cenvs c) (cclip c))
      | Upload.UploadUndefined => Some (LUndefined, t, mk_config Undefined (cenvs c) (cclip c))
      end
  | Publishing e l =>
      let '(r, clip', t) := cap_copy e (cclip c) l in
      Some (LCopy l (Clipboard.reports_success r),
            t ++ match r with
                 | Some _ => []
                 | None => [Io.Printf Io.Stderr (Io.line bytes:("Failed to copy the link to clipboard")) []]
                 end,
            mk_config Watching (cenvs c) clip')
  | Exited | Blocked | Undefined => None
  end.

(** Runs of the loop from a configuration: the labels and the events, in
    order. *)
Inductive reach (c0 : config E) : list label -> list Io.event -> config E -> Prop :=
| reach_refl : reach c0 [] [] c0
| reach_snoc ls ts c l t c' :
    reach c0 ls ts c -> step c = Some (l, t, c') -> reach c0 (ls ++ [l]) (ts ++ t) c'.

(** [run n c]: at most [n] steps, executable. *)
Fixpoint run (n : nat) (c : config E) : list label * list Io.event * config E :=
  match n with
  | O => ([], [], c)
  | S n' =>
      match step c with
      | None => ([], [], c)
      | Some (l, t, c') => let '(ls, ts, c'') := run n' c' in (l :: ls, t ++ ts, c'')
      end
  end.
End Loop.

Lemma phase_eq_undefined {E} (c : config E) : cphase c = Undefined \/ cphase c <> Undefined.
Proof. destruct (cphase c); (left; reflexivity) || (right; discriminate). Qed.

(** ** The state machine of the spec, section 4.5 *)

Inductive sstate :=
| SWatching
| SDebouncing (p : list byte)
| SUploading (p : list byte)
| SPublishing (link : list byte)
| SHalted.

Inductive sstep : sstate -> label -> sstate -> Prop :=
| s_watch p : sstep SWatching (LWatch p) (SDebouncing p)
| s_fatal : sstep SWatching LFatal SHalted
| s_block : sstep SWatching LBlock SWatching
| s_debounce p : sstep (SDebouncing p) LSleep (SUploading p)
| s_upload_fail p : sstep (SUploading p) (LUpload p None) SWatching
| s_upload_ok p l : sstep (SUploading p) (LUpload p (Some l)) (SPublishing l)
| s_publish l ok : sstep (SPublishing l) (LCopy l ok) SWatching.

Inductive srun (s0 : sstate) : list label -> sstate -> Prop :=
| srun_refl : srun s0 [] s0
| srun_snoc ls s l s' : srun s0 ls s -> sstep s l s' -> srun s0 (ls ++ [l]) s'.

(** The spec state a configuration stands for; a blocked watcher is still
    in [Watching]. *)
Definition abs {E} (c : config E) : sstate :=
  match cphase c with
  | Watching | Blocked => SWatching
  | Debouncing _ p => SDebouncing p
  | Uploading _ p => SUploading p
  | Publishing _ l => SPublishing l
  | Exited | Undefined => SHalted
  end.

(** ** The loop refines the spec's state machine *)

Section Refinement.
Context {E : Type} `{Capabilities E}.
Variables directory_to_watch client_id : list byte.
Local Abbreviation step := (step directory_to_watch client_id).
Local Abbreviation reach := (reach directory_to_watch client_id).

Lemma step_sstep (c c' : config E) (l : label) (t : list Io.event) :
  step c = Some (l, t, c') -> cphase c' <> Undefined -> sstep (abs c) l (abs c').
Proof.
  destruct c as [ph es clip]. unfold step, abs. cbn [cphase cenvs cclip].
  intros Hs Hu. destruct ph as [|e p|e p|e l'| | |]; try discriminate.
  - destruct es as [|e es]; [discriminate|].
    destruct (cap_watch e directory_to_watch) as [[p| | |] t']; inv Hs;
      cbn [cphase] in *; constructor || congruence.
  - inv Hs. constructor.
  - destruct (cap_upload e p client_id) as [[l'| |] t']; inv Hs;
      cbn [cphase] in *; constructor || congruence.
  - destruct (cap_copy e clip l') as [[r clip'] t']. inv Hs. constructor.
Qed.

Lemma step_from_undefined (c : config E) : cphase c = Undefined -> step c = None.
Proof. destruct c as [ph es clip]. cbn. intros ->. reflexivity. Qed.

Lemma reach_undefined (c0 c : config E) (ls : list label) (ts : list Io.event) :
  reach c0 ls ts c -> cphase c = Undefined -> cphase c0 <> Undefined ->
  exists ls' ts' c1, reach c0 ls' ts' c1 /\ cphase c1 <> Undefined /\ ls = ls' ++ [LUndefined].
Proof.
  induction 1 as [|ls ts c l t c' R IH Hs]; intros Hu H0; [congruence|].
  destruct (phase_eq_undefined c) as [Hc|Hc].
  - rewrite step_from_undefined in Hs by exact Hc. discriminate.
  - exists ls, ts, c. repeat split; [exact R|exact Hc|].
    f_equal. f_equal. clear R IH.
    destruct c as [ph es clip]. unfold step in Hs. cbn [cphase cenvs cclip] in *.
    destruct ph as [|e p|e p|e l'| | |]; try discriminate.
    + destruct es as [|e es]; [discriminate|].
      destruct (cap_watch e directory_to_watch) as [[p| | |] t']; inv Hs; cbn in Hu; congruence.
    + inv Hs. discriminate.
    + destruct (cap_upload e p client_id) as [[l'| |] t']; inv Hs; cbn in Hu; congruence.
    + destruct (cap_copy e clip l') as [[r clip'] t']. inv Hs. discriminate.
Qed.

Lemma reach_srun (c0 c : config E) (ls : list label) (ts : list Io.event) :
  reach c0 ls ts c -> cphase c <> Undefined -> srun (abs c0) ls (abs c).
Proof.
  induction 1 as [|ls ts c l t c' R IH Hs]; intros Hu; [constructor|].
  destruct (phase_eq_undefined c) as [Hc|Hc].
  - rewrite step_from_undefined in Hs by exact Hc. discriminate.
  - apply srun_snoc with (abs c); [exact (IH Hc)|]. exact (step_sstep c c' l t Hs Hu).
Qed.

(** C2: every run of the loop that has not hit undefined behaviour is
    a run of the spec's state machine (section 4.5) with the same
    labels: the loop watches, sleeps, uploads and publishes in the order
    the spec gives, whatever the components answer. *)
Theorem loop_refines_spec (c0 c : config E) (ls : list label) (ts : list Io.event) :
  reach c0 ls ts c -> cphase c <> Undefined -> srun (abs c0) ls (abs c).
Proof. exact (reach_srun c0 c ls ts). Qed.

Lemma reach_app (c0 c1 c2 : config E) ls1 ts1 ls2 ts2 :
  reach c0 ls1 ts1 c1 -> reach c1 ls2 ts2 c2 -> reach c0 (ls1 ++ ls2) (ts1 ++ ts2) c2.
Proof.
  intros R1 R2. induction R2 as [|ls ts c l t c' R IH Hs].
  - rewrite !app_nil_r. exact R1.
  - rewrite !app_assoc. econstructor; [exact IH | exact Hs].
Qed.

Lemma run_reach (n : nat) (c c' : config E) ls ts :
  run directory_to_watch client_id n c = (ls, ts, c') -> reach c ls ts c'.
Proof.
  revert c ls ts; induction n as [|n IH]; intros c ls ts Hr; simpl in Hr.
  - inv Hr. constructor.
  - destruct (step c) as [[[l t] c1]|] eqn:Hs; [|inv Hr; constructor].
    destruct (run directory_to_watch client_id n c1) as [[ls1 ts1] c2] eqn:Hr1. inv Hr.
    change (l :: ls1) with ([l] ++ ls1). eapply reach_app; [|exact (IH _ _ _ Hr1)].
    rewrite <- (app_nil_l t). exact (reach_snoc _ _ c [] [] c l t c1 (reach_refl _ _ _) Hs).
Qed.

Lemma run_S (n : nat) (c : config E) :
  run directory_to_watch client_id (S n) c =
  match step c with
  | None => ([], [], c)
  | Some (l, t, c') =>
      let '(ls, ts, c'') := run directory_to_watch client_id n c' in (l :: ls, t ++ ts, c'')
  end.
Proof. reflexivity. Qed.

Lemma run_snoc (n : nat) (c0 c c' : config E) ls ts l t :
  run directory_to_watch client_id n c0 = (ls, ts, c) -> List.length ls = n ->
  step c = Some (l, t, c') ->
  run directory_to_watch client_id (S n) c0 = (ls ++ [l], ts ++ t, c').
Proof.
  revert c0 ls ts. induction n as [|n IH]; intros c0 ls ts Hr Hl Hs.
  - simpl in Hr. inv Hr. simpl. rewrite Hs. rewrite app_nil_r. reflexivity.
  - rewrite run_S in Hr |- *. destruct (step c0) as [[[l0 t0] c1]|] eqn:H0; [|inv Hr; discriminate].
    destruct (run directory_to_watch client_id n c1) as [[ls1 ts1] c2] eqn:Hr1. inv Hr.
    rewrite (IH c1 ls1 ts1 Hr1); [| simpl in Hl; lia | exact Hs].
    rewrite <- app_assoc. reflexivity.
Qed.

(** The runs of the loop are what [run] computes. *)
Lemma reach_run (c0 c : config E) ls ts :
  reach c0 ls ts c -> run directory_to_watch client_id (List.length ls) c0 = (ls, ts, c).
Proof.
  induction 1 as [|ls ts c l t c' R IH Hs]; [reflexivity|].
  rewrite length_app, Nat.add_1_r. exact (run_snoc _ c0 c c' ls ts l t IH eq_refl Hs).
Qed.

Lemma reach_one (c c' : config E) l t :
  step c = Some (l, t, c') -> reach c [l] t c'.
Proof. intros Hs. rewrite <- (app_nil_l t). exact (reach_snoc _ _ c [] [] c l t c' (reach_refl _ _ _) Hs). Qed.
End Refinement.

(** In the spec's machine, the clipboard is only written right after an
    upload that produced the same link. *)
Lemma srun_publish_after_upload (ls : list label) (s : sstate) :
  srun SWatching ls s ->
  (forall pre l ok post, ls = pre ++ LCopy l ok :: post ->
     exists p pre', pre = pre' ++ [LUpload p (Some l)])
  /\ (forall l, s = SPublishing l -> exists p pre', ls = pre' ++ [LUpload p (Some l)]).
Proof.
  induction 1 as [|ls s l s' R [IHc IHp] Hs].
  - split; [intros pre l ok post H; destruct pre; discriminate | discriminate].
  - split.
    + intros pre l' ok post E. apply snoc_eq_app_cons in E as [(-> & <- & ->)|(post' & _ & E)].
      * inv Hs. exact (IHp _ eq_refl).
      * exact (IHc _ _ _ _ E).
    + intros l' ->. inv Hs. eauto.
Qed.

Section Safety.
Context {E : Type} `{Capabilities E}.
Variables directory_to_watch client_id : list byte.
Local Abbreviation step := (step directory_to_watch client_id).
Local Abbreviation reach := (reach directory_to_watch client_id).

(** C3: in every run of the loop from the top of an iteration, the
    clipboard writer is called only right after an upload that returned
    a link, and with that link: a failed upload never reaches it. *)
Theorem copy_only_after_link (c0 c : config E) (ls : list label) (ts : list Io.event)
    (pre post : list label) (l : list byte) (ok : bool) :
  reach c0 ls ts c -> cphase c0 = Watching -> ls = pre ++ LCopy l ok :: post ->
  exists p pre', pre = pre' ++ [LUpload p (Some l)].
Proof.
  intros R H0 Els.
  assert (Hs : forall ls' ts' c', reach c0 ls' ts' c' -> cphase c' <> Undefined ->
                 srun SWatching ls' (abs c')).
  { intros ls' ts' c' R' Hu. replace SWatching with (abs c0) by (unfold abs; rewrite H0; reflexivity).
    exact (reach_srun _ _ c0 c' ls' ts' R' Hu). }
  destruct (phase_eq_undefined c) as [Hc|Hc].
  - destruct (reach_undefined _ _ c0 c ls ts R Hc) as (ls' & ts' & c1 & R1 & Hc1 & ->);
      [rewrite H0; discriminate|].
    apply snoc_eq_app_cons in Els as [(_ & _ & Els)|(post' & _ & Els)]; [discriminate|].
    exact (proj1 (srun_publish_after_upload _ _ (Hs _ _ _ R1 Hc1)) _ _ _ _ Els).
  - exact (proj1 (srun_publish_after_upload _ _ (Hs _ _ _ R Hc)) _ _ _ _ Els).
Qed.

(** A configuration has no next step only at the top of the loop with no
    iteration left to run, or in one of the three stopped phases. *)
Lemma step_none_phase (c : config E) :
  step c = None ->
  (cphase c = Watching /\ cenvs c = []) \/ cphase c = Exited \/ cphase c = Blocked
  \/ cphase c = Undefined.
Proof.
  destruct c as [ph es clip]. unfold step. cbn [cphase cenvs cclip].
  destruct ph as [|e p|e p|e l| | |]; auto; try discriminate.
  - destruct es as [|e es]; [auto|].
    destruct (cap_watch e directory_to_watch) as [[p| | |] t]; discriminate.
  - destruct (cap_upload e p client_id) as [[l| |] t]; discriminate.
  - destruct (cap_copy e clip l) as [[r clip'] t]. discriminate.
Qed.

(** The steps into the stopped phases: [Exited] and [Blocked] are entered
    only from the top of an iteration, when the watcher of its
    environment exits or blocks, and [Undefined] only with the label
    [LUndefined]. *)
Lemma step_into_stopped (c c' : config E) (l : label) (t : list Io.event) :
  step c = Some (l, t, c') ->
  (cphase c' = Exited \/ cphase c' = Blocked ->
   cphase c = Watching /\ exists e, cenvs c = e :: cenvs c'
     /\ (fst (cap_watch e directory_to_watch) = WatchDir.WatchExited /\ l = LFatal
         \/ fst (cap_watch e directory_to_watch) = WatchDir.WatchBlocked /\ l = LBlock))
  /\ (cphase c' = Undefined -> l = LUndefined).
Proof.
  destruct c as [ph es clip]. unfold step. cbn [cphase cenvs cclip].
  destruct ph as [|e p|e p|e lk| | |]; try discriminate.
  - destruct es as [|e es]; [discriminate|].
    destruct (cap_watch e directory_to_watch) as [[p| | |] tw] eqn:W; intros Hs; inv Hs;
      cbn [cphase cenvs fst]; (split; [intros [Hp|Hp]; try discriminate | intros Hp; try discriminate]);
      auto; split; auto; exists e; rewrite W; auto.
  - intros Hs. inv Hs. cbn. split; [intros [Hp|Hp]|intros Hp]; discriminate.
  - destruct (cap_upload e p client_id) as [[lk| |] tu]; intros Hs; inv Hs; cbn;
      (split; [intros [Hp|Hp]|intros Hp]); (discriminate || reflexivity).
  - destruct (cap_copy e clip lk) as [[r clip'] tc]. intros Hs. inv Hs. cbn.
    split; [intros [Hp|Hp]|intros Hp]; discriminate.
Qed.

(** C23: the loop has no exit of its own: a run from the top of an
    iteration stops only when the iterations the model was given are used
    up, right after the watcher of an iteration exited the process
    ([LFatal]) or blocked for ever ([LBlock]), or on undefined behaviour;
    a failed upload or a failed copy never stops it. *)
Theorem loop_stops_only_in_watcher (c0 c : config E) (ls : list label) (ts : list Io.event) :
  reach c0 ls ts c -> cphase c0 = Watching -> step c = None ->
  (cphase c = Watching /\ cenvs c = [])
  \/ (exists ls' ts' c1 e, reach c0 ls' ts' c1 /\ cphase c1 = Watching /\ cenvs c1 = e :: cenvs c
        /\ (fst (cap_watch e directory_to_watch) = WatchDir.WatchExited /\ ls = ls' ++ [LFatal]
            \/ fst (cap_watch e directory_to_watch) = WatchDir.WatchBlocked /\ ls = ls' ++ [LBlock]))
  \/ (exists ls', ls = ls' ++ [LUndefined]).
Proof.
  intros R H0 Hn. pose proof (step_none_phase c Hn) as Ph.
  destruct R as [|ls1 ts1 c1 l t c R1 Hs].
  - left. destruct Ph as [Ph|[Ph|[Ph|Ph]]]; [exact Ph | rewrite H0 in Ph; discriminate ..].
  - destruct (step_into_stopped c1 c l t Hs) as [Hstop Hund].
    destruct Ph as [Ph|[Ph|[Ph|Ph]]]; [left; exact Ph | | | right; right; exists ls1; rewrite (Hund Ph); reflexivity].
    all: destruct (Hstop ltac:(auto)) as (Hc1 & e & He & [[Hw ->]|[Hw ->]]);
      right; left; exists ls1, ts1, c1, e; auto 6.
Qed.

(** An iteration whose watcher returns a path and whose upload does not
    hit undefined behaviour. *)
Definition iteration_completes (e : E) : bool :=
  match cap_watch e directory_to_watch with
  | (WatchDir.WatchReturned p, _) =>
      match fst (cap_upload e p client_id) with Upload.UploadUndefined => false | _ => true end
  | _ => false
  end.

Lemma reach_iteration (e : E) (es : list E) (clip : option (list byte)) :
  iteration_completes e = true ->
  exists ls ts clip', reach (mk_config Watching (e :: es) clip) ls ts (mk_config Watching es clip').
Proof.
  unfold iteration_completes.
  destruct (cap_watch e directory_to_watch) as [[p| | |] t] eqn:Hw; try discriminate.
  assert (R2 : reach (mk_config Watching (e :: es) clip) [LWatch p; LSleep]
                 ((t ++ [Io.Printf Io.Stdout (Io.line bytes:("New file created: %s")) [Io.ArgStr p]])
                  ++ [Io.Sleep 1%Z]) (mk_config (Uploading e p) es clip)).
  { change [LWatch p; LSleep] with ([LWatch p] ++ [LSleep]).
    apply reach_app with (mk_config (Debouncing e p) es clip); apply reach_one;
      unfold step; cbn [cphase cenvs cclip]; rewrite ?Hw; reflexivity. }
  destruct (cap_upload e p client_id) as [[l| |] tu] eqn:Eu; cbn [fst]; intros Hu; try discriminate.
  - destruct (cap_copy e clip l) as [[r clip'] tc] eqn:Ec.
    do 3 eexists. eapply reach_app; [exact R2|].
    change (?a :: ?b :: []) with ([a] ++ [b]).
    apply reach_app with (mk_config (Publishing e l) es clip); apply reach_one;
      unfold step; cbn [cphase cenvs cclip]; rewrite ?Eu, ?Ec; reflexivity.
  - do 3 eexists. eapply reach_app; [exact R2|].
    apply reach_one. unfold step; cbn [cphase cenvs cclip]. rewrite Eu. reflexivity.
Qed.

(** C22: the loop goes round for ever: given any number of iterations
    in which the watcher returns a path and the upload is defined, the
    loop runs every one of them, whatever the uploads and clipboard
    copies return, and is back at the top, watching. *)
Theorem loop_runs_every_iteration (envs : list E) :
  forallb iteration_completes envs = true ->
  forall clip, exists ls ts clip', reach (mk_config Watching envs clip) ls ts (mk_config Watching [] clip').
Proof.
  induction envs as [|e es IH]; intros Hall clip; [do 3 eexists; constructor|].
  apply andb_prop in Hall as [He Hall]. specialize (IH Hall).
  destruct (reach_iteration e es clip He) as (ls & ts & clip' & R).
  destruct (IH clip') as (ls' & ts' & clip'' & R').
  do 3 eexists. exact (reach_app _ _ _ _ _ _ _ _ _ R R').
Qed.
End Safety.


(** ** The program's components behind the interface *)

(** The outside world's answers during one iteration. *)
Record iter_env := mk_iter_env {
  w_env : WatchDir.watch_env;
  u_env : Upload.upload_env;
  c_env : Clipboard.clip_env
}.

#[export] Instance code_caps : Capabilities iter_env := {
  cap_watch e := WatchDir.watch_directory (w_env e);
  cap_upload e := Upload.upload_image (u_env e);
  cap_copy e := Clipboard.copy_string_to_clipboard (c_env e)
}.


Inductive main_outcome :=
| MainLoop (c : config iter_env)   (** the loop, after the steps run *)
| MainExit (status : Z)
| MainUndefined.

(** [main], lines 215-268: the arguments, [curl_global_init], and [n]
    steps of the loop from the clipboard [clip]. *)
Definition main (cli : Cli.cli_env) (envs : list iter_env) (clip : option (list byte)) (n : nat)
    : main_outcome * list Io.event :=
  match Cli.parse_args cli with
  | (Cli.Started dir client_id, t) =>
      let '(_, ts, c) := run dir client_id n (mk_config Watching envs clip) in
      (MainLoop c, t ++ Io.CurlGlobalInit :: ts)
  | (Cli.StartExit z, t) => (MainExit z, t)
  | (Cli.StartUndefined, t) => (MainUndefined, t)
  end.

(** The events that touch the clipboard. *)
Definition clipboard_event (ev : Io.event) : bool :=
  match ev with Io.Popen _ | Io.PipeWrite _ | Io.Pclose => true | _ => false end.

Definition no_clipboard_event (t : list Io.event) : bool :=
  forallb (fun ev => negb (clipboard_event ev)) t.

Lemma no_clipboard_event_app (t t' : list Io.event) :
  no_clipboard_event (t ++ t') = no_clipboard_event t && no_clipboard_event t'.
Proof. apply forallb_app. Qed.

#[export] Hint Rewrite no_clipboard_event_app : autoimgur_rw.

Lemma get_response_no_clipboard data sz nmemb m ok :
  no_clipboard_event (snd (RespBuf.get_response data sz nmemb m ok)) = true.
Proof.
  unfold RespBuf.get_response. destruct ok; [|reflexivity]. simpl negb. cbv iota zeta.
  destruct (RespBuf.write_at _ _ _) as [b|]; [|reflexivity].
  destruct (RespBuf.write_at b _ _); reflexivity.
Qed.

Lemma deliver_no_clipboard (ps : list (list byte)) (m : RespBuf.memory_struct) (allocs : list bool) :
  no_clipboard_event (snd (RespBuf.deliver ps m allocs)) = true.
Proof.
  revert m allocs. induction ps as [|p ps IH]; intros m allocs; [reflexivity|].
  simpl RespBuf.deliver.
  pose proof (get_response_no_clipboard p 1 (Z.of_nat (List.length p)) m
                (match allocs with [] => true | a :: _ => a end)) as G.
  destruct (RespBuf.get_response _ _ _ _ _) as [[m' ret|] t]; [|exact G].
  destruct (ret =? _)%Z; [|exact G].
  specialize (IH m' (tl allocs)). destruct (RespBuf.deliver ps m' (tl allocs)).
  cbn [snd] in *. autorewrite with autoimgur_rw. rewrite G, IH. reflexivity.
Qed.

Lemma upload_image_no_clipboard (env : Upload.upload_env) (p client_id : list byte) :
  no_clipboard_event (snd (Upload.upload_image env p client_id)) = true.
Proof.
  unfold Upload.upload_image, Upload.file_exists.
  destruct (Upload.fs env p), (Upload.easy_init_ok env); try reflexivity.
  unfold Upload.perform. pose proof (deliver_no_clipboard
    (Upload.t_pieces (Upload.server env (Upload.upload_request p client_id)))
    (RespBuf.init_chunk (Upload.malloc_ok env)) (Upload.reallocs env)) as D.
  assert (L : forall m, no_clipboard_event (snd (Upload.link_of_chunk m)) = true).
  { intros m. unfold Upload.link_of_chunk, CJson.extract_link_from_response.
    destruct (RespBuf.read_memory m); try reflexivity.
    destruct (CJson.cJSON_Parse _); reflexivity. }
  destruct (RespBuf.deliver _ _ _) as [[m|m|] t]; cbn [snd] in *;
    [destruct (negb (_ =? _)%Z) .. |];
    try (specialize (L m); destruct (Upload.link_of_chunk m));
    cbn [snd] in *; unfold no_clipboard_event in *;
    repeat (rewrite ?forallb_app; simpl); rewrite ?D, ?L; reflexivity.
Qed.

(** [upload_image] on a transfer whose body is [{"data":{"link":S}}]. *)
Lemma upload_image_data_link (env : Upload.upload_env) (p client_id l : list byte)
    (pieces : list (list byte)) :
  Upload.fs env p = true -> Upload.easy_init_ok env = true -> Upload.malloc_ok env = true ->
  Forall (eq true) (Upload.reallocs env) ->
  Upload.server env (Upload.upload_request p client_id) = Upload.mk_transfer pieces 0 ->
  pieces <> [] -> concat pieces = CJson.render (CJson.data_link_doc l) -> CStr.nul_free l = true ->
  (Z.of_nat (List.length (concat pieces)) + 1 < 2 ^ 64)%Z ->
  Upload.upload_image env p client_id = (Upload.UploadLink l, Upload.performed_trace p client_id 0).
Proof.
  intros Hfs Hi Hm Ha Hs Hne Hc Hl Hb.
  rewrite (Upload.upload_image_performed env p client_id Hfs Hi).
  destruct (Upload.perform_ok env (Upload.upload_request p client_id) Hm Ha)
    as (m & E & [[Hp _]|[_ Hh]]); rewrite ?Hs in *; [exact Hb|cbn in Hp; congruence|].
  rewrite E. cbn [Upload.t_code Upload.t_pieces negb Z.eqb Upload.CURLE_OK] in *.
  unfold Upload.link_of_chunk. rewrite (RespBuf.read_memory_holds m _ Hh), Hc.
  rewrite CStr.c_prefix_nul_free by apply CJson.render_data_link_nul_free.
  unfold CJson.extract_link_from_response. rewrite CJson.cJSON_Parse_render by CJson.doc_side.
  unfold CJson.link_of_document. cbn. rewrite CStr.c_prefix_nul_free by exact Hl.
  reflexivity.
Qed.

Section Concrete.
Variables directory_to_watch client_id : list byte.
Local Abbreviation step := (step (E := iter_env) directory_to_watch client_id).
Local Abbreviation reach := (reach (E := iter_env) directory_to_watch client_id).

(** C13 (scenarios 3 and 4 of the spec's section 8): when
    [upload_image] returns NULL (a failed transfer, a body without
    [data.link], ...), the loop prints a diagnostic and goes back to
    watching: the clipboard is untouched and no clipboard process is
    started. *)
Theorem failed_upload_skips_clipboard (c : config iter_env) (e : iter_env) (p : list byte) :
  cphase c = Uploading e p ->
  fst (Upload.upload_image (u_env e) p client_id) = Upload.UploadNull ->
  exists t, step c = Some (LUpload p None, t, mk_config Watching (cenvs c) (cclip c))
            /\ no_clipboard_event t = true.
Proof.
  intros Hc Hu. destruct c as [ph es clip]. cbn [cphase] in Hc. subst ph.
  pose proof (upload_image_no_clipboard (u_env e) p client_id) as N.
  unfold step; cbn [cphase cenvs cclip cap_upload code_caps].
  destruct (Upload.upload_image (u_env e) p client_id) as [r t]. cbn [fst snd] in *. subst r.
  eexists. split; [reflexivity|]. rewrite no_clipboard_event_app, N. reflexivity.
Qed.

(** [one_step tac]: a run of one step of the concrete loop, the
    components' results rewritten by [tac]. *)
Local Ltac one_step tac := apply reach_one;
  cbn [step cphase cenvs cclip cap_watch cap_upload cap_copy code_caps]; tac; reflexivity.

(** One iteration when the kernel reports the creation of an image file
    and the host answers [{"data":{"link":S}}]: it watches, sleeps, uploads
    the file at the joined path with one request, writes exactly [S] to
    [wl-copy] and comes back to watching. *)
Lemma iteration_screenshot_link (e : iter_env) (es : list iter_env)
    (clip : option (list byte)) (bs : list (list Inotify.inotify_event))
    (n p l : list byte) (pieces : list (list byte)) :
  WatchDir.init_ok (w_env e) = true -> WatchDir.add_watch_ok (w_env e) = true ->
  WatchDir.reads (w_env e) = map (fun b => WatchDir.ReadOk (Inotify.batch_bytes b)) bs ->
  Forall WatchDir.kernel_batch bs -> directory_to_watch <> [] ->
  WatchDir.first_in_batches bs = Some n -> Inotify.join_path directory_to_watch n = Some p ->
  Upload.fs (u_env e) p = true -> Upload.easy_init_ok (u_env e) = true ->
  Upload.malloc_ok (u_env e) = true -> Forall (eq true) (Upload.reallocs (u_env e)) ->
  Upload.server (u_env e) (Upload.upload_request p client_id) = Upload.mk_transfer pieces 0 ->
  pieces <> [] -> concat pieces = CJson.render (CJson.data_link_doc l) -> CStr.nul_free l = true ->
  (Z.of_nat (List.length (concat pieces)) + 1 < 2 ^ 64)%Z ->
  Clipboard.popen_ok (c_env e) = true -> Clipboard.wait_ok (c_env e) = true ->
  Clipboard.wl_copy_exit (c_env e) = 0%Z ->
  exists ts, reach (mk_config Watching (e :: es) clip)
                   [LWatch p; LSleep; LUpload p (Some l); LCopy l true] ts
                   (mk_config Watching es (Some l))
             /\ Io.http_requests ts = [Upload.upload_request p client_id]
             /\ Io.pipe_writes ts = [l].
Proof.
  intros Hi Ha Hr Hbs Hd Hn Hj Hfs Hin Hm Hal Hs Hne Hc Hl Hb Hpo Hwa Hx.
  pose proof (WatchDir.read_loop_batches directory_to_watch bs Hbs Hd) as L.
  rewrite Hn in L. destruct L as (p' & k & Hj' & Hlp). rewrite Hj in Hj'. inv Hj'.
  eexists. split.
  { change [LWatch p'; LSleep; LUpload p' (Some l); LCopy l true]
      with ([LWatch p'] ++ [LSleep] ++ [LUpload p' (Some l)] ++ [LCopy l true]).
    eapply reach_app; [one_step ltac:(unfold WatchDir.watch_directory; rewrite Hi, Ha, Hr, Hlp)|].
    eapply reach_app; [one_step idtac|].
    eapply reach_app;
      [one_step ltac:(rewrite (upload_image_data_link (u_env e) p' client_id l pieces) by assumption)|].
    one_step ltac:(unfold Clipboard.copy_string_to_clipboard, Clipboard.wl_copy_effect;
                   rewrite Hpo, Hwa, Hx). }
  split; unfold Io.http_requests, Io.pipe_writes; cbn;
    rewrite ?flat_map_app, ?flat_map_repeat_nil by reflexivity; reflexivity.
Qed.
(** The clipboard invariant of the concrete loop, with what it needs about
    a pending publication. *)
Lemma reach_clipboard_inv (c0 c : config iter_env) (ls : list label) (ts : list Io.event) :
  reach c0 ls ts c -> cphase c0 = Watching ->
  (cclip c = cclip c0 \/ exists p l, In (LUpload p (Some l)) ls /\ cclip c = Some l)
  /\ (forall e l, cphase c = Publishing e l -> exists p, In (LUpload p (Some l)) ls).
Proof.
  induction 1 as [|ls ts c l0 t c' R IH Hs]; intros H0.
  - split; [left; reflexivity | intros e l; rewrite H0; discriminate].
  - destruct (IH H0) as [IHc IHp]. clear IH.
    assert (Lift : forall x, In x ls -> In x (ls ++ [l0])) by (intros; apply in_or_app; auto).
    assert (Keep : cclip c' = cclip c ->
                   cclip c' = cclip c0 \/ exists p l, In (LUpload p (Some l)) (ls ++ [l0])
                                                    /\ cclip c' = Some l).
    { intros ->. destruct IHc as [->|(p & l & Hin & ->)]; [left; reflexivity|].
      right. exists p, l. auto. }
    destruct c as [ph es clip]. unfold step in Hs. cbn [cphase cenvs cclip] in *.
    destruct ph as [|e p|e p|e l| | |]; try discriminate.
    + destruct es as [|e es]; [discriminate|].
      destruct (cap_watch e directory_to_watch) as [[p| | |] t'];
        inv Hs; (split; [apply Keep; reflexivity | intros ? ? Hc; discriminate]).
    + inv Hs. split; [apply Keep; reflexivity | intros ? ? Hc; discriminate].
    + destruct (cap_upload e p client_id) as [[l| |] t']; inv Hs;
        (split; [apply Keep; reflexivity|]); intros ? ? Hc; try discriminate.
      inv Hc. exists p. apply in_or_app. right. left. reflexivity.
    + cbn [cap_copy code_caps] in Hs.
      destruct (Clipboard.copy_string_to_clipboard (c_env e) clip l) as [[r clip'] t'] eqn:Ec.
      inv Hs. split; [|intros ? ? Hc; discriminate]. cbn [cclip].
      unfold Clipboard.copy_string_to_clipboard, Clipboard.wl_copy_effect in Ec.
      destruct (IHp e l eq_refl) as [p Hin].
      destruct (Clipboard.popen_ok (c_env e)); [destruct (Clipboard.wait_ok (c_env e))|];
        inv Ec; [destruct (_ =? 0)%Z ..|]; try (apply Keep; reflexivity);
        right; exists p, l; auto.
Qed.

(** C34: in every run of the loop from the top of an iteration, the
    clipboard holds what it held before or a link that an upload of the
    run returned: the program never puts anything else on it. *)
Theorem clipboard_only_uploaded_links (c0 c : config iter_env) (ls : list label)
    (ts : list Io.event) :
  reach c0 ls ts c -> cphase c0 = Watching ->
  cclip c = cclip c0 \/ exists p l, In (LUpload p (Some l)) ls /\ cclip c = Some l.
Proof. intros R H0. exact (proj1 (reach_clipboard_inv c0 c ls ts R H0)). Qed.

End Concrete.

(** C1 (scenario 1 of the spec's section 8): started with a directory and
    a client id, when the kernel reports the creation of an image file in
    the directory and the host answers [{"data":{"link":S}}], [main]
    announces its settings, initialises libcurl, and its first iteration
    makes exactly one request (the upload of the joined path), writes
    exactly [S] to the clipboard pipe, leaves [S] on the clipboard, and
    goes back to watching. *)
Theorem main_screenshot_link_reaches_clipboard (cli : Cli.cli_env) (a0 dir client_id : list byte)
    (rest : list (list byte)) (e : iter_env) (es : list iter_env) (clip : option (list byte))
    (bs : list (list Inotify.inotify_event)) (n p l : list byte) (pieces : list (list byte)) :
  Cli.argv cli = a0 :: dir :: client_id :: rest ->
  WatchDir.init_ok (w_env e) = true -> WatchDir.add_watch_ok (w_env e) = true ->
  WatchDir.reads (w_env e) = map (fun b => WatchDir.ReadOk (Inotify.batch_bytes b)) bs ->
  Forall WatchDir.kernel_batch bs -> dir <> [] ->
  WatchDir.first_in_batches bs = Some n -> Inotify.join_path dir n = Some p ->
  Upload.fs (u_env e) p = true -> Upload.easy_init_ok (u_env e) = true ->
  Upload.malloc_ok (u_env e) = true -> Forall (eq true) (Upload.reallocs (u_env e)) ->
  Upload.server (u_env e) (Upload.upload_request p client_id) = Upload.mk_transfer pieces 0 ->
  pieces <> [] -> concat pieces = CJson.render (CJson.data_link_doc l) -> CStr.nul_free l = true ->
  (Z.of_nat (List.length (concat pieces)) + 1 < 2 ^ 64)%Z ->
  Clipboard.popen_ok (c_env e) = true -> Clipboard.wait_ok (c_env e) = true ->
  Clipboard.wl_copy_exit (c_env e) = 0%Z ->
  exists ts, main cli (e :: es) clip 4
             = (MainLoop (mk_config Watching es (Some l)),
                Cli.announce dir client_id ++ Io.CurlGlobalInit :: ts)
             /\ Io.http_requests ts = [Upload.upload_request p client_id]
             /\ Io.pipe_writes ts = [l].
Proof.
  intros Hargs. intros.
  destruct (iteration_screenshot_link dir client_id e es clip bs n p l pieces) as (ts & R & Hh & Hp);
    try assumption.
  exists ts. split; [|split; assumption].
  unfold main, Cli.parse_args. rewrite Hargs. cbv iota beta.
  pose proof (reach_run dir client_id _ _ _ _ R) as Rr. cbn [List.length] in Rr.
  rewrite Rr. reflexivity.
Qed.

End MainLoop.

(** ** Concrete runs: the scenarios of the spec's section 8 *)

Module MainExamples.
Import MainLoop.

Definition ex_dir : list byte := WatchExamples.ex_path.
Definition ex_cid : list byte := bytes:("0123456789abcdef").
Definition ex_link : list byte := bytes:("https://imgur.com/abc").
Definition ex_shot : list byte := ex_dir ++ bytes:("/screenshot1.png").
Definition ex_batch := [WatchExamples.ev_txt; WatchExamples.ev_png].

(** An iteration: [notes.txt] then [screenshot1.png] are created, the host
    answers with [body] and [code], and [wl-copy] works. *)
Definition ex_iter (body : list byte) (code : Z) : iter_env :=
  mk_iter_env (WatchDir.mk_watch_env true true [WatchDir.ReadOk (Inotify.batch_bytes ex_batch)])
    (Upload.mk_upload_env (fun _ => true) true true true (fun _ => Upload.mk_transfer [body] code) [])
    (Clipboard.mk_clip_env true true 0).

Definition ex_ok_body : list byte := CJson.render (CJson.data_link_doc ex_link).
Definition ex_start (envs : list iter_env) : config iter_env := mk_config Watching envs None.

Lemma ex_batch_kernel : Forall WatchDir.kernel_batch [ex_batch].
Proof. apply WatchDir.kernel_batches_b_sound. vm_compute. reflexivity. Qed.

Definition ex_cli : Cli.cli_env :=
  Cli.mk_cli_env [bytes:("autoimgur"); ex_dir; ex_cid] (fun _ => Cli.StatFail) None.

Lemma main_screenshot_link_reaches_clipboard_witness :
  exists ts, main ex_cli [ex_iter ex_ok_body 0] None 4
             = (MainLoop (mk_config Watching [] (Some ex_link)),
                Cli.announce ex_dir ex_cid ++ Io.CurlGlobalInit :: ts)
             /\ Io.http_requests ts = [Upload.upload_request ex_shot ex_cid]
             /\ Io.pipe_writes ts = [ex_link].
Proof.
  apply (main_screenshot_link_reaches_clipboard ex_cli bytes:("autoimgur") ex_dir ex_cid []
           (ex_iter ex_ok_body 0) [] None [ex_batch]
           bytes:("screenshot1.png") ex_shot ex_link [ex_ok_body]);
    first [reflexivity | discriminate | exact ex_batch_kernel | constructor | vm_compute; reflexivity].
Defined.

(** Scenario 4: the host answers [{}]. *)
Lemma failed_upload_skips_clipboard_witness :
  exists t, step ex_dir ex_cid (mk_config (Uploading (ex_iter bytes:("{}") 0) ex_shot) [] None)
            = Some (LUpload ex_shot None, t, mk_config Watching [] None)
            /\ no_clipboard_event t = true.
Proof.
  apply (failed_upload_skips_clipboard ex_dir ex_cid
           (mk_config (Uploading (ex_iter bytes:("{}") 0) ex_shot) [] None)
           (ex_iter bytes:("{}") 0) ex_shot); [reflexivity | vm_compute; reflexivity].
Defined.

Lemma loop_refines_spec_witness :
  let '(ls, ts, c) := run ex_dir ex_cid 8 (ex_start [ex_iter ex_ok_body 0; ex_iter bytes:("{}") 0]) in
  srun SWatching ls (abs c).
Proof.
  pose proof (run_reach ex_dir ex_cid 8 (ex_start [ex_iter ex_ok_body 0; ex_iter bytes:("{}") 0])) as R.
  destruct (run ex_dir ex_cid 8 _) as [[ls ts] c] eqn:E.
  apply (loop_refines_spec ex_dir ex_cid (ex_start _) c ls ts (R _ _ _ eq_refl)).
  vm_compute in E. injection E as _ _ <-. discriminate.
Defined.

Lemma copy_only_after_link_witness :
  exists p pre', [LWatch ex_shot; LSleep; LUpload ex_shot (Some ex_link)]
                 = pre' ++ [LUpload p (Some ex_link)].
Proof.
  pose proof (run_reach ex_dir ex_cid 4 (ex_start [ex_iter ex_ok_body 0])) as R.
  destruct (run ex_dir ex_cid 4 _) as [[ls ts] c] eqn:E.
  apply (copy_only_after_link ex_dir ex_cid (ex_start _) c ls ts
           [LWatch ex_shot; LSleep; LUpload ex_shot (Some ex_link)] [] ex_link true
           (R _ _ _ eq_refl) eq_refl).
  vm_compute in E. injection E as <- _ _. reflexivity.
Defined.

(** An iteration whose watcher cannot create its inotify instance. *)
Definition ex_fatal : iter_env :=
  mk_iter_env (WatchDir.mk_watch_env false true []) (u_env (ex_iter ex_ok_body 0))
    (c_env (ex_iter ex_ok_body 0)).

(** A screenshot uploaded and copied, then a fatal watcher: the run stops
    right after [LFatal]. *)
Lemma loop_stops_only_in_watcher_witness :
  exists ls ts c,
    run ex_dir ex_cid 6 (ex_start [ex_iter ex_ok_body 0; ex_fatal]) = (ls, ts, c)
    /\ ((cphase c = Watching /\ cenvs c = [])
        \/ (exists ls' ts' c1 e, reach ex_dir ex_cid (ex_start [ex_iter ex_ok_body 0; ex_fatal]) ls' ts' c1
              /\ cphase c1 = Watching /\ cenvs c1 = e :: cenvs c
              /\ (fst (cap_watch e ex_dir) = WatchDir.WatchExited /\ ls = ls' ++ [LFatal]
                  \/ fst (cap_watch e ex_dir) = WatchDir.WatchBlocked /\ ls = ls' ++ [LBlock]))
        \/ (exists ls', ls = ls' ++ [LUndefined])).
Proof.
  destruct (run ex_dir ex_cid 6 (ex_start [ex_iter ex_ok_body 0; ex_fatal])) as [[ls ts] c] eqn:Er.
  exists ls, ts, c. split; [reflexivity|].
  apply (loop_stops_only_in_watcher ex_dir ex_cid (ex_start [ex_iter ex_ok_body 0; ex_fatal]) c ls ts).
  - exact (run_reach ex_dir ex_cid 6 _ c ls ts Er).
  - reflexivity.
  - replace c with (snd (run ex_dir ex_cid 6 (ex_start [ex_iter ex_ok_body 0; ex_fatal])))
      by (rewrite Er; reflexivity).
    vm_compute. reflexivity.
Defined.

Lemma loop_runs_every_iteration_witness :
  exists ls ts clip', reach ex_dir ex_cid (ex_start [ex_iter ex_ok_body 0; ex_iter bytes:("{}") 0;
                                                   ex_iter ex_ok_body 28])
                        ls ts (mk_config Watching [] clip').
Proof.
  apply (loop_runs_every_iteration ex_dir ex_cid
           [ex_iter ex_ok_body 0; ex_iter bytes:("{}") 0; ex_iter ex_ok_body 28]).
  vm_compute. reflexivity.
Defined.

Lemma clipboard_only_uploaded_links_witness :
  let '(ls, ts, c) := run ex_dir ex_cid 8 (ex_start [ex_iter ex_ok_body 0; ex_iter bytes:("{}") 0]) in
  cclip c = None \/ exists p l, In (LUpload p (Some l)) ls /\ cclip c = Some l.
Proof.
  pose proof (run_reach ex_dir ex_cid 8 (ex_start [ex_iter ex_ok_body 0; ex_iter bytes:("{}") 0])) as R.
  destruct (run ex_dir ex_cid 8 _) as [[ls ts] c] eqn:E.
  exact (clipboard_only_uploaded_links ex_dir ex_cid (ex_start _) c ls ts (R _ _ _ eq_refl) eq_refl).
Defined.

End MainExamples.
