(* ===== verification/Lifetime.v ===== *)
(** * Lifetime: the resources of the running program

    [main] acquires libcurl's global state once (line 248) and then runs
    its loop for ever.  Each step of the loop runs the ledger of the
    function it calls ([Res.watch_directory_ops], [Res.upload_image_ops],
    [Res.copy_string_to_clipboard_ops]) and, after the clipboard copy, the
    [free(link)] of line 267.  [step_ops] and [run_ops] follow [MainLoop.step]
    and [MainLoop.run] step for step, so that the ledger of a run is the
    ledger of the steps the run takes.

    The invariant [heap_inv] says what is live between two steps: at the
    top of the loop, while debouncing and while uploading, only what the
    program never gives back ([Res.leaked]: libcurl's global state,
    display names and header lists); while publishing, the link as well.
    It is preserved by every step, whatever the outside world answers, and
    the header lists grow by one per HTTP request of the run. *)

From S2P Require Import Prelude Io Watcher Uploader Clipboard Cli Resources MainLoop.
From Stdlib Require Import String List ZArith Lia Bool.
From coqutil Require Import Byte.
Import ListNotations.

Module Lifetime.
Import Res MainLoop.

(** What is live between two steps. *)
Definition heap_inv (c : config iter_env) (h : heap) : Prop :=
  match cphase c with
  | Watching | Debouncing _ _ | Uploading _ _ => only_leaks h = true
  | Publishing _ _ => exists h0, h = LinkString :: h0 /\ only_leaks h0 = true
  | Exited | Blocked | Undefined => True
  end.

Section Run.
Variables directory_to_watch client_id : list byte.
Local Abbreviation step := (step (E := iter_env) directory_to_watch client_id).
Local Abbreviation run := (run (E := iter_env) directory_to_watch client_id).

(** The ledger of one statement group of the loop, lines 252-268: the
    [free(link)] of line 267 runs after the clipboard copy; after a failed
    upload it is [free(NULL)]. *)
Definition step_ops (c : config iter_env) : list op :=
  match cphase c with
  | Watching =>
      match cenvs c with
      | e :: _ => watch_directory_ops (w_env e) directory_to_watch
      | [] => []
      end
  | Debouncing _ _ => []
  | Uploading e p => upload_image_ops (u_env e) p client_id
  | Publishing e _ => copy_string_to_clipboard_ops (c_env e) ++ [Release LinkString]
  | Exited | Blocked | Undefined => []
  end.

(** The ledger of [run n c]. *)
Fixpoint run_ops (n : nat) (c : config iter_env) : list op :=
  match n with
  | O => []
  | S n' =>
      match step c with
      | None => []
      | Some (_, _, c') => step_ops c ++ run_ops n' c'
      end
  end.

(** [reqs]: the requests of a trace built with [++] from traces whose
    requests are known. *)
Local Ltac reqs := rewrite ?Io.http_requests_app; cbn [Io.http_requests flat_map app List.length].

Lemma step_ops_exec (c : config iter_env) (h : heap) (l : label) (t : list Io.event)
    (c' : config iter_env) :
  heap_inv c h -> step c = Some (l, t, c') ->
  exists h', exec h (step_ops c) = Some h' /\ heap_inv c' h'
             /\ live HeaderList h' = live HeaderList h + List.length (Io.http_requests t).
Proof.
  destruct c as [ph es clip]. unfold heap_inv, step_ops, MainLoop.step.
  cbn [cphase cenvs cclip cap_watch cap_upload cap_copy code_caps].
  destruct ph as [|e p|e p|e lk| | |]; intros Hinv Hs; try discriminate.
  - destruct es as [|e es]; [discriminate|].
    destruct (watch_directory_ops_exec (w_env e) directory_to_watch) as (n & En & Ln & Rn).
    pose proof (watch_directory_requests (w_env e) directory_to_watch) as Rq.
    destruct (WatchDir.watch_directory (w_env e) directory_to_watch) as [o tw]. cbn [fst snd] in *.
    rewrite (exec_frame_nil _ _ _ En). exists (n ++ h). split; [reflexivity|].
    destruct o as [q| | |]; inversion Hs; subst; cbn [cphase]; reqs; rewrite Rq, live_app, Ln;
      (split; [|cbn [app List.length]; lia]); [rewrite (Rn q eq_refl); exact Hinv | exact I ..].
  - inversion Hs; subst. exists h. cbn [cphase]. auto.
  - destruct (upload_image_ops_live (u_env e) p client_id) as (n & En & Ln & Xn).
    pose proof (upload_image_requests (u_env e) p client_id) as Rq.
    pose proof (upload_leftover_shape (u_env e) p client_id) as Sh.
    rewrite (exec_frame_nil _ _ _ En). exists (n ++ h). split; [reflexivity|].
    destruct (Upload.upload_image (u_env e) p client_id) as [r tu] eqn:Eu.
    rewrite ?Eu in Xn, Rq, Sh. cbn [fst snd] in Xn, Rq, Sh.
    assert (HL : live HeaderList (n ++ h) = live HeaderList h + List.length (Io.http_requests tu))
      by (rewrite live_app, Ln, Rq; destruct (_ && _); cbn [List.length]; lia).
    destruct r as [lk| |]; inversion Hs; subst; cbn [cphase]; reqs; rewrite ?app_nil_r;
      (split; [|exact HL]); [|rewrite (Xn ltac:(discriminate)), only_leaks_app, Sh, Hinv; reflexivity | exact I].
    destruct Sh as (n0 & E0 & L0). rewrite (Xn ltac:(discriminate)), E0. exists (n0 ++ h).
    split; [reflexivity|]. rewrite only_leaks_app, L0, Hinv. reflexivity.
  - destruct Hinv as (h0 & -> & Hinv).
    pose proof (copy_string_to_clipboard_requests (c_env e) clip lk) as Rq.
    destruct (Clipboard.copy_string_to_clipboard (c_env e) clip lk) as [[r clip'] tc].
    inversion Hs; subst. cbn [cphase]. exists h0.
    rewrite exec_app, (exec_frame_nil _ _ _ (copy_string_to_clipboard_ops_exec (c_env e))).
    cbn [app exec exec_op release]. split; [reflexivity|]. split; [exact Hinv|].
    cbn [snd] in Rq. reqs. rewrite Rq, live_link_string. destruct r; reqs; lia.
Qed.

Lemma run_ops_exec (n : nat) (c : config iter_env) (h : heap) :
  heap_inv c h ->
  exists h', exec h (run_ops n c) = Some h' /\ heap_inv (snd (run n c)) h'
             /\ live HeaderList h' = live HeaderList h + List.length (Io.http_requests (snd (fst (run n c)))).
Proof.
  revert c h; induction n as [|n IH]; intros c h Hinv.
  { exists h. cbn [run_ops MainLoop.run fst snd exec]. reqs. auto. }
  cbn [run_ops MainLoop.run]. destruct (step c) as [[[l t] c']|] eqn:Hs.
  2: { exists h. cbn [fst snd exec]. reqs. auto. }
  destruct (step_ops_exec c h l t c' Hinv Hs) as (h1 & E1 & I1 & L1).
  destruct (IH c' h1 I1) as (h2 & E2 & I2 & L2).
  destruct (MainLoop.run _ _ n c') as [[ls ts] c''] eqn:Er. cbn [fst snd] in *.
  exists h2. rewrite exec_app, E1. split; [exact E2|]. split; [exact I2|].
  rewrite Io.http_requests_app, length_app, L2, L1. lia.
Qed.

End Run.

(** The ledger of [main]: nothing before the loop is entered;
    [curl_global_init] and the loop's steps once it is. *)
Definition main_ops (cli : Cli.cli_env) (envs : list iter_env) (clip : option (list byte)) (n : nat)
    : list op :=
  match Cli.parse_args cli with
  | (Cli.Started dir client_id, _) =>
      Acquire CurlGlobal :: run_ops dir client_id n (mk_config Watching envs clip)
  | _ => []
  end.

Lemma parse_args_requests (cli : Cli.cli_env) : Io.http_requests (snd (Cli.parse_args cli)) = [].
Proof.
  unfold Cli.parse_args, Cli.fail_with, Cli.announce.
  destruct (Cli.argv cli) as [|a0 [|a1 [|a2 r]]]; try reflexivity.
  destruct (Cli.stat cli a1) as [[]|]; try reflexivity. destruct (Cli.home cli); reflexivity.
Qed.

(** C21: in every run of [main], whatever the command line and the
    outside world answer, no resource is given back twice or before it
    is acquired, and between two steps of the loop only what the program
    never gives back is live (libcurl's global state, display names and
    header lists), with the link as well while it is being copied to the
    clipboard; when [main] stops before the loop, nothing is live. *)
Theorem main_heap_invariant (cli : Cli.cli_env) (envs : list iter_env) (clip : option (list byte))
    (n : nat) :
  exists h, exec [] (main_ops cli envs clip n) = Some h
            /\ match fst (main cli envs clip n) with
               | MainLoop c => heap_inv c h
               | MainExit _ | MainUndefined => h = []
               end.
Proof.
  unfold main_ops, main. destruct (Cli.parse_args cli) as [[dir cid|z|] t]; [|exists []; split; reflexivity ..].
  destruct (run_ops_exec dir cid n (mk_config Watching envs clip) [CurlGlobal] eq_refl) as (h & E & I & _).
  exists h. split; [exact E|]. destruct (MainLoop.run _ _ _ _) as [[ls ts] c]. exact I.
Qed.

(** C26: the header lists are never freed: in every run of [main], the
    number of header lists live is the number of HTTP requests the run
    has made, so the memory of the process grows with every upload. *)
Theorem main_header_lists_per_request (cli : Cli.cli_env) (envs : list iter_env)
    (clip : option (list byte)) (n : nat) :
  exists h, exec [] (main_ops cli envs clip n) = Some h
            /\ live HeaderList h = List.length (Io.http_requests (snd (main cli envs clip n))).
Proof.
  unfold main_ops, main. pose proof (parse_args_requests cli) as Rp.
  destruct (Cli.parse_args cli) as [[dir cid|z|] t]; cbn [snd] in Rp; [|exists []; cbn [snd]; rewrite Rp; split; reflexivity ..].
  destruct (run_ops_exec dir cid n (mk_config Watching envs clip) [CurlGlobal] eq_refl) as (h & E & _ & L).
  exists h. split; [exact E|]. destruct (MainLoop.run _ _ _ _) as [[ls ts] c]. cbn [fst snd] in *.
  rewrite L, Io.http_requests_app, Rp. reflexivity.
Qed.

End Lifetime.

Module LifetimeExamples.
Import Res MainLoop MainExamples Lifetime.

(** Three screenshots uploaded and copied, one upload answered with an
    HTTP body that is not a link: four requests, four header lists and four
    display names left live, next to libcurl's global state. *)
Example three_links_one_failure :
  exec [] (main_ops ex_cli [ex_iter ex_ok_body 0; ex_iter ex_ok_body 0;
                            ex_iter bytes:("{}") 0; ex_iter ex_ok_body 0] None 15)
  = Some [HeaderList; ImageName; HeaderList; ImageName; HeaderList; ImageName;
          HeaderList; ImageName; CurlGlobal].
Proof. vm_compute. reflexivity. Qed.

End LifetimeExamples.
